(** * Sender-pattern learning: the background analysis of a sender and the
      store of learned patterns.

    Embedded sources:
    - [src/app/api/ai/analyze-sender-pattern/route.ts]: [POST], [process],
      [savePatternCheck], [getThreadsFromSender], [getEmailAccountWithRules];
    - the [rule/learned-patterns] module (kept in the source tree at the end
      of [src/app/api/google/linking/callback/route.ts]): [saveLearnedPattern]
      and [saveLearnedPatterns];
    - the other two modules of that file: the linking callback [GET], and
      [watchAllEmails] with the [GET] and [POST] of its cron route;
    - [src/utils/account.ts]: [getTokens], [getGmailClientForEmail],
      [getGmailAndAccessTokenForEmail], [getGmailClientForEmailId];
    - [src/unnamed/part_002]: [checkPermissionsAction] and
      [adminCheckPermissionsAction].

    For runs that go on at the same time, [process] is also given await by
    await, as a task whose steps a schedule interleaves with those of
    another.

    The database behind Prisma is a record of tables, each table a list of
    rows, so that a duplicated row is something the model can express.  The
    asynchronous functions run in a monad that threads the world (database
    and the chronological trace of collaborator calls) and may throw; what
    was written before a throw stays written, as with the real store. *)

From Stdlib Require Import Ascii String List Bool Arith ZArith Lia Sorted Permutation.
Import ListNotations.
Local Open Scope string_scope.
Local Open Scope list_scope.

(** ** JavaScript values *)

(** Truthiness of a [string | null | undefined]: null, undefined and the
    empty string are falsy. *)
Definition truthy (s : option string) : bool :=
  match s with
  | Some v => negb (v =? EmptyString)
  | None => false
  end.

(** [s || EmptyString] on a nullable string. *)
Definition orEmpty (s : option string) : string :=
  if truthy s then match s with Some v => v | None => EmptyString end else EmptyString.

(** [b || false] on an optional boolean. *)
Definition orFalse (b : option bool) : bool :=
  match b with
  | Some true => true
  | _ => false
  end.

(** ** Rows of the store (the columns the embedded code reads or writes) *)

(** Modelled from the spec: the enum [GroupItemType] is declared in the
    Prisma schema, which is not among the sources.  Section 3: the kind is a
    closed enumeration; the engine uses the sender-address kind, [FROM] in
    the code, and [SUBJECT] and [BODY] stand for the other kinds. *)
Inductive GroupItemType : Type := FROM | SUBJECT | BODY.

Definition GroupItemType_eqb (a b : GroupItemType) : bool :=
  match a, b with
  | FROM, FROM | SUBJECT, SUBJECT | BODY, BODY => true
  | _, _ => false
  end.

Record Account : Type := mkAccount {
  access_token : option string;
  refresh_token : option string;
  expires_at : option Z
}.

Record UserAi : Type := mkUserAi {
  aiProvider : option string;
  aiModel : option string;
  aiApiKey : option string
}.

Record EmailAccountRow : Type := mkEmailAccountRow {
  ea_id : string;
  ea_userId : string;
  ea_email : string;
  ea_about : option string;
  ea_user : UserAi;
  ea_account : option Account
}.

Record RuleRow : Type := mkRuleRow {
  rule_id : string;
  rule_name : string;
  rule_emailAccountId : string;
  rule_enabled : bool;
  rule_instructions : option string;
  rule_groupId : option string
}.

Record GroupRow : Type := mkGroupRow {
  group_id : string;
  group_emailAccountId : string;
  group_name : string
}.

Record GroupItemRow : Type := mkGroupItemRow {
  gi_groupId : string;
  gi_type : GroupItemType;
  gi_value : string;
  gi_exclude : bool
}.

(** The Sender Check row lives in the [newsletter] table. *)
Record NewsletterRow : Type := mkNewsletterRow {
  nl_email : string;
  nl_emailAccountId : string;
  nl_patternAnalyzed : bool;
  nl_lastAnalyzedAt : option Z
}.

Record DB : Type := mkDB {
  emailAccounts : list EmailAccountRow;
  rules : list RuleRow;
  groups : list GroupRow;
  groupItems : list GroupItemRow;
  newsletters : list NewsletterRow
}.

Definition set_rules (d : DB) (rs : list RuleRow) : DB :=
  mkDB (emailAccounts d) rs (groups d) (groupItems d) (newsletters d).
Definition set_groups (d : DB) (gs : list GroupRow) : DB :=
  mkDB (emailAccounts d) (rules d) gs (groupItems d) (newsletters d).
Definition set_groupItems (d : DB) (gis : list GroupItemRow) : DB :=
  mkDB (emailAccounts d) (rules d) (groups d) gis (newsletters d).
Definition set_newsletters (d : DB) (ns : list NewsletterRow) : DB :=
  mkDB (emailAccounts d) (rules d) (groups d) (groupItems d) ns.

(** ** Mail and oracle data *)

Record Headers : Type := mkHeaders {
  h_from : string;
  h_subject : string
}.

Record Message : Type := mkMessage {
  msg_id : string;
  msg_headers : Headers;
  msg_textPlain : string
}.

Record ThreadWithMessages : Type := mkThread {
  threadId : string;
  messages : list Message
}.

Record EmailForLLM : Type := mkEmailForLLM {
  llm_from : string;
  llm_subject : string;
  llm_content : string
}.

Record RuleForLLM : Type := mkRuleForLLM {
  llm_rule_name : string;
  llm_rule_instructions : string
}.

Record PatternResult : Type := mkPatternResult {
  matchedRule : option string
}.

(** The projection [getEmailAccountWithRules] selects. *)
Record SelectedRule : Type := mkSelectedRule {
  sr_id : string;
  sr_name : string;
  sr_instructions : option string
}.

Record EmailAccountWithRules : Type := mkEmailAccountWithRules {
  sel_id : string;
  sel_userId : string;
  sel_email : string;
  sel_about : option string;
  sel_user : UserAi;
  sel_account : option Account;
  sel_rules : list SelectedRule
}.

(** The authorised Gmail client handed to the thread functions. *)
Inductive Gmail : Type := GmailClient (emailAccountId : string).

(** ** Responses *)

Inductive Body : Type :=
| BodySuccess (b : bool)
| BodyError (msg : string)
| BodyProcessing (b : bool).

Record Response : Type := mkResponse {
  res_body : Body;
  res_status : nat
}.

Definition NextResponse_json (b : Body) (status : nat) : Response :=
  mkResponse b status.

(** ** The trace of collaborator calls *)

Inductive LogLevel : Type := LTrace | LInfo | LWarn | LError.

Inductive Event : Type :=
| EmailAccountFindUnique (id : string)
| NewsletterFindUnique (email emailAccountId : string)
| NewsletterUpsert (email emailAccountId : string)
| RuleFindUnique (name emailAccountId : string)
| GroupCreate (emailAccountId name ruleId : string)
| GroupItemUpsert (groupId : string) (type : GroupItemType) (value : string)
| GmailClientWithRefresh (emailAccountId : string)
| GmailGetThreads (q : string) (maxResults : nat)
| GmailGetThreadMessages (threadId : string)
| AiDetectRecurringPattern (emails : list EmailForLLM) (candidates : list RuleForLLM)
| Log (level : LogLevel) (msg : string).

(** A network call to the mail provider. *)
Definition isProviderCall (ev : Event) : bool :=
  match ev with
  | GmailClientWithRefresh _ | GmailGetThreads _ _ | GmailGetThreadMessages _ => true
  | _ => false
  end.

(** A call to the classification oracle. *)
Definition isOracleCall (ev : Event) : bool :=
  match ev with
  | AiDetectRecurringPattern _ _ => true
  | _ => false
  end.

Definition isNetworkCall (ev : Event) : bool :=
  isProviderCall ev || isOracleCall ev.

(** A write to the store. *)
Definition isWrite (ev : Event) : bool :=
  match ev with
  | NewsletterUpsert _ _ | GroupCreate _ _ _ | GroupItemUpsert _ _ _ => true
  | _ => false
  end.

(** ** The monad of the asynchronous code *)

Inductive Result (A : Type) : Type :=
| Ok (a : A)
| Throw (e : string).
Arguments Ok {A} a.
Arguments Throw {A} e.

Record World : Type := mkWorld {
  db : DB;
  trace : list Event
}.

Definition M (A : Type) : Type := World -> Result A * World.

Definition ret {A} (a : A) : M A := fun w => (Ok a, w).

Definition bind {A B} (m : M A) (k : A -> M B) : M B :=
  fun w =>
    match m w with
    | (Ok a, w') => k a w'
    | (Throw e, w') => (Throw e, w')
    end.

(** [try { m } catch (error) { h error }]. *)
Definition tryCatch {A} (m : M A) (h : string -> M A) : M A :=
  fun w =>
    match m w with
    | (Ok a, w') => (Ok a, w')
    | (Throw e, w') => h e w'
    end.

(** Awaiting a collaborator's answer: its value, or its rejection thrown. *)
Definition await {A} (r : Result A) : M A := fun w => (r, w).

Definition emit (ev : Event) : M unit :=
  fun w => (Ok tt, mkWorld (db w) (trace w ++ [ev])).

Definition getDb : M DB := fun w => (Ok (db w), w).

Definition putDb (d : DB) : M unit := fun w => (Ok tt, mkWorld d (trace w)).

Definition logger (level : LogLevel) (msg : string) : M unit :=
  emit (Log level msg).

Declare Scope async_scope.
Delimit Scope async_scope with async.
Notation "x <- m ;; k" := (bind m (fun x => k))
  (at level 61, m at next level, right associativity) : async_scope.
Notation "m ;; k" := (bind m (fun _ => k))
  (at level 61, right associativity) : async_scope.
Local Open Scope async_scope.

(** ** Prisma operations *)

Definition isNewsletter (email emailAccountId : string) (r : NewsletterRow) : bool :=
  (nl_email r =? email) && (nl_emailAccountId r =? emailAccountId).

Definition isRule (name emailAccountId : string) (r : RuleRow) : bool :=
  (rule_name r =? name) && (rule_emailAccountId r =? emailAccountId).

Definition isGroupItem (groupId : string) (type : GroupItemType) (value : string)
    (r : GroupItemRow) : bool :=
  (gi_groupId r =? groupId) && GroupItemType_eqb (gi_type r) type && (gi_value r =? value).

(** [upsert] on a unique key: the matching row is updated in place, and a
    row is created only when none matches. *)
Definition upsertRows {R : Type} (matches : R -> bool) (update : R -> R) (create : R)
    (rows : list R) : list R :=
  if existsb matches rows
  then map (fun r => if matches r then update r else r) rows
  else rows ++ [create].

Definition prisma_emailAccount_findUnique (id : string) : M (option EmailAccountRow) :=
  emit (EmailAccountFindUnique id) ;;
  d <- getDb ;;
  ret (find (fun r => ea_id r =? id) (emailAccounts d)).

Definition prisma_newsletter_findUnique (email emailAccountId : string)
    : M (option NewsletterRow) :=
  emit (NewsletterFindUnique email emailAccountId) ;;
  d <- getDb ;;
  ret (find (isNewsletter email emailAccountId) (newsletters d)).

Definition prisma_newsletter_upsert (email emailAccountId : string)
    (update : NewsletterRow -> NewsletterRow) (create : NewsletterRow) : M unit :=
  emit (NewsletterUpsert email emailAccountId) ;;
  d <- getDb ;;
  putDb (set_newsletters d
           (upsertRows (isNewsletter email emailAccountId) update create (newsletters d))).

Definition prisma_rule_findUnique (name emailAccountId : string) : M (option RuleRow) :=
  emit (RuleFindUnique name emailAccountId) ;;
  d <- getDb ;;
  ret (find (isRule name emailAccountId) (rules d)).

(** A string of [n] characters. *)
Fixpoint pad (n : nat) : string :=
  match n with
  | O => EmptyString
  | S k => String "0"%char (pad k)
  end.

(** The store gives a new group an identifier no group has yet: here, one
    longer than every identifier in use. *)
Definition cuid (used : list string) : string :=
  String "c"%char (pad (list_max (map String.length used))).

(** [rule: { connect: { id } }]: the rule with that id now points at the
    group. *)
Definition connectRule (groupId ruleId : string) (r : RuleRow) : RuleRow :=
  if rule_id r =? ruleId
  then mkRuleRow (rule_id r) (rule_name r) (rule_emailAccountId r) (rule_enabled r)
                 (rule_instructions r) (Some groupId)
  else r.

(** [prisma.group.create({ data: { emailAccountId, name,
    rule: { connect: { id } } } })].  The Prisma schema is not among the
    sources; the store is given the constraints the specification names
    (section 3) and no other, so the insertion itself cannot be refused. *)
Definition prisma_group_create (emailAccountId name ruleId : string) : M GroupRow :=
  emit (GroupCreate emailAccountId name ruleId) ;;
  d <- getDb ;;
  let newGroup := mkGroupRow (cuid (map group_id (groups d))) emailAccountId name in
  putDb (set_rules (set_groups d (groups d ++ [newGroup]))
           (map (connectRule (group_id newGroup) ruleId) (rules d))) ;;
  ret newGroup.

Definition prisma_groupItem_upsert (groupId : string) (type : GroupItemType) (value : string)
    (update : GroupItemRow -> GroupItemRow) (create : GroupItemRow) : M unit :=
  emit (GroupItemUpsert groupId type value) ;;
  d <- getDb ;;
  putDb (set_groupItems d
           (upsertRows (isGroupItem groupId type value) update create (groupItems d))).

(** ** rule/learned-patterns *)

(** Modelled from the spec: the column default of [exclude] is declared in
    the Prisma schema, which is not among the sources.  Section 8: the
    criterion the engine creates has [exclude: false]. *)
Definition exclude_default : bool := false.

(** [saveLearnedPattern]: creates a group for the rule if it has none, and
    adds the [from] pattern to the group.  The created row leaves [exclude]
    to the column default. *)
Definition saveLearnedPattern (emailAccountId from ruleName : string) : M unit :=
  rule <- prisma_rule_findUnique ruleName emailAccountId ;;
  match rule with
  | None => logger LError "Rule not found"
  | Some rule =>
      groupId <- (if negb (truthy (rule_groupId rule))
                  then newGroup <- prisma_group_create emailAccountId ruleName (rule_id rule) ;;
                       ret (group_id newGroup)
                  else ret (orEmpty (rule_groupId rule))) ;;
      prisma_groupItem_upsert groupId FROM from
        (fun r => r)
        (mkGroupItemRow groupId FROM from exclude_default)
  end.

Record Pattern : Type := mkPattern {
  pattern_type : GroupItemType;
  pattern_value : string;
  pattern_exclude : option bool
}.

Definition setExclude (e : bool) (r : GroupItemRow) : GroupItemRow :=
  mkGroupItemRow (gi_groupId r) (gi_type r) (gi_value r) e.

(** The [for (const pattern of patterns)] loop of [saveLearnedPatterns]. *)
Fixpoint savePatternsLoop (groupId : string) (patterns : list Pattern) : M unit :=
  match patterns with
  | [] => ret tt
  | pattern :: rest =>
      prisma_groupItem_upsert groupId (pattern_type pattern) (pattern_value pattern)
        (setExclude (orFalse (pattern_exclude pattern)))
        (mkGroupItemRow groupId (pattern_type pattern) (pattern_value pattern)
                        (orFalse (pattern_exclude pattern))) ;;
      savePatternsLoop groupId rest
  end.

Definition saveLearnedPatterns (emailAccountId ruleName : string) (patterns : list Pattern)
    : M unit :=
  rule <- prisma_rule_findUnique ruleName emailAccountId ;;
  match rule with
  | None => logger LError "Rule not found"
  | Some rule =>
      groupId <- (if negb (truthy (rule_groupId rule))
                  then newGroup <- prisma_group_create emailAccountId ruleName (rule_id rule) ;;
                       ret (group_id newGroup)
                  else ret (orEmpty (rule_groupId rule))) ;;
      savePatternsLoop groupId patterns
  end.

(** ** Collaborators outside the embedded sources *)

(** [utils/email]: the normaliser of sender addresses. *)
Class EmailUtils : Type := {
  extractEmailAddress : string -> string
}.

(** The Gmail client, the thread functions of [utils/gmail/thread], the
    conversion to the oracle's input, the oracle, and the clock.  A
    collaborator that rejects answers [Throw]. *)
Class Collaborators : Type := {
  getGmailClientWithRefresh : string -> string -> option Z -> string -> Result Gmail;
  getThreads : string -> list string -> Gmail -> nat -> Result (list string);
  getThreadMessages : string -> Gmail -> Result (list Message);
  getEmailForLLM : Message -> EmailForLLM;
  aiDetectRecurringPattern :
    list EmailForLLM -> EmailAccountWithRules -> list RuleForLLM -> Result (option PatternResult);
  Date_now : Z
}.

(** ** api/ai/analyze-sender-pattern *)

Definition THRESHOLD_EMAILS : nat := 3.
Definition MAX_RESULTS : nat := 10.

Record AnalyzeSenderPatternBody : Type := mkBody {
  body_emailAccountId : string;
  body_from : string
}.

(** A JSON value, as [request.json()] gives it, up to what the schema of
    the route tells apart: a property is a string or another value, and the
    body is an object or another value. *)
Inductive Property : Type :=
| PString (s : string)
| POther.

Inductive Json : Type :=
| JObject (fields : list (string * Property))
| JOther.

(** The property [key] of an object. *)
Definition property (key : string) (fields : list (string * Property)) : option Property :=
  option_map snd (find (fun field => fst field =? key) fields).

(** [schema.parse(json)] for [z.object({ emailAccountId: z.string(),
    from: z.string() })]: an object whose two properties are strings is
    accepted and its other properties are dropped; anything else throws. *)
Definition schema_parse (json : Json) : Result AnalyzeSenderPatternBody :=
  match json with
  | JObject fields =>
      match property "emailAccountId" fields, property "from" fields with
      | Some (PString emailAccountId), Some (PString from) => Ok (mkBody emailAccountId from)
      | _, _ => Throw "ZodError"
      end
  | JOther => Throw "ZodError"
  end.

(** What the handler reads of the request: the verdict of
    [isValidInternalApiKey] on its headers, and its body as
    [request.json()] gives it, a rejection when the body is not JSON. *)
Record Request : Type := mkRequest {
  validInternalApiKey : bool;
  request_json : Result Json
}.

Section Route.
Context {EU : EmailUtils} {CO : Collaborators}.

(** The [select] of [getEmailAccountWithRules]: the account's columns and
    its rules that are enabled and carry instructions. *)
Definition selectEmailAccount (d : DB) (r : EmailAccountRow) : EmailAccountWithRules :=
  mkEmailAccountWithRules (ea_id r) (ea_userId r) (ea_email r) (ea_about r)
    (ea_user r) (ea_account r)
    (map (fun rl => mkSelectedRule (rule_id rl) (rule_name rl) (rule_instructions rl))
       (filter (fun rl => (rule_emailAccountId rl =? ea_id r)
                          && rule_enabled rl
                          && match rule_instructions rl with
                             | Some _ => true
                             | None => false
                             end)
          (rules d))).

Definition getEmailAccountWithRules (emailAccountId : string)
    : M (option EmailAccountWithRules) :=
  row <- prisma_emailAccount_findUnique emailAccountId ;;
  d <- getDb ;;
  ret (option_map (selectEmailAccount d) row).

(** The rule catalogue offered to the oracle. *)
Definition candidateRules (emailAccount : EmailAccountWithRules) : list RuleForLLM :=
  map (fun rule => mkRuleForLLM (sr_name rule) (orEmpty (sr_instructions rule)))
    (sel_rules emailAccount).

(** Record that we've analyzed a sender for patterns. *)
Definition savePatternCheck (emailAccountId from : string) : M unit :=
  prisma_newsletter_upsert from emailAccountId
    (fun r => mkNewsletterRow (nl_email r) (nl_emailAccountId r) true (Some Date_now))
    (mkNewsletterRow from emailAccountId true (Some Date_now)).

(** The loop of [getThreadsFromSender] over the fetched thread handles;
    [threadsWithMessages] is the array built so far. *)
Fixpoint collectThreads (gmail : Gmail) (from : string) (threads : list string)
    (threadsWithMessages : list ThreadWithMessages) : M (list ThreadWithMessages) :=
  match threads with
  | [] => ret threadsWithMessages
  | thread :: rest =>
      emit (GmailGetThreadMessages thread) ;;
      messages <- await (getThreadMessages thread gmail) ;;
      let senders := map (fun msg => extractEmailAddress (h_from (msg_headers msg))) messages in
      let hasOtherSenders := existsb (fun s => negb (s =? from)) senders in
      if hasOtherSenders
      then logger LInfo "Skipping sender pattern detection - conversation detected" ;;
           ret []
      else collectThreads gmail from rest (threadsWithMessages ++ [mkThread thread messages])
  end.

(** The Gmail search of [getThreadsFromSender]. *)
Definition senderQuery (from : string) : string :=
  "from:" ++ from ++ " -label:sent -label:draft".

Definition getThreadsFromSender (gmail : Gmail) (sender : string) (maxResults : nat)
    : M (list ThreadWithMessages) :=
  let from := extractEmailAddress sender in
  emit (GmailGetThreads (senderQuery from) maxResults) ;;
  threads <- await (getThreads (senderQuery from) [] gmail maxResults) ;;
  collectThreads gmail from threads [].

Definition opt_access_token (account : option Account) : option string :=
  match account with Some a => access_token a | None => None end.

Definition opt_refresh_token (account : option Account) : option string :=
  match account with Some a => refresh_token a | None => None end.

Definition opt_expires_at (account : option Account) : option Z :=
  match account with Some a => expires_at a | None => None end.

(** [existingCheck?.patternAnalyzed]. *)
Definition patternAnalyzed (existingCheck : option NewsletterRow) : bool :=
  match existingCheck with Some r => nl_patternAnalyzed r | None => false end.

(** [patternResult?.matchedRule]. *)
Definition opt_matchedRule (patternResult : option PatternResult) : option string :=
  match patternResult with Some r => matchedRule r | None => None end.

(** The body of the [try] block of [process]. *)
Definition processBody (emailAccountId from : string) : M Response :=
  emailAccount <- getEmailAccountWithRules emailAccountId ;;
  match emailAccount with
  | None =>
      logger LError "Email account not found" ;;
      ret (NextResponse_json (BodySuccess false) 404)
  | Some emailAccount =>
      existingCheck <- prisma_newsletter_findUnique (extractEmailAddress from)
                         (sel_id emailAccount) ;;
      if patternAnalyzed existingCheck
      then logger LInfo "Sender has already been analyzed" ;;
           ret (NextResponse_json (BodySuccess true) 200)
      else
        let account := sel_account emailAccount in
        if negb (truthy (opt_access_token account)) || negb (truthy (opt_refresh_token account))
        then logger LError "No Gmail account found" ;;
             ret (NextResponse_json (BodySuccess false) 404)
        else
          emit (GmailClientWithRefresh emailAccountId) ;;
          gmail <- await (getGmailClientWithRefresh (orEmpty (opt_access_token account))
                            (orEmpty (opt_refresh_token account)) (opt_expires_at account)
                            emailAccountId) ;;
          threadsWithMessages <- getThreadsFromSender gmail from MAX_RESULTS ;;
          if Nat.eqb (length threadsWithMessages) 0
          then logger LInfo "No threads found from this sender" ;;
               ret (NextResponse_json (BodySuccess true) 200)
          else
            let allMessages := flat_map messages threadsWithMessages in
            if Nat.ltb (length allMessages) THRESHOLD_EMAILS
            then logger LInfo "Not enough emails found from this sender" ;;
                 ret (NextResponse_json (BodySuccess true) 200)
            else
              let emails := map getEmailForLLM allMessages in
              let candidates := candidateRules emailAccount in
              emit (AiDetectRecurringPattern emails candidates) ;;
              patternResult <- await (aiDetectRecurringPattern emails emailAccount candidates) ;;
              (if truthy (opt_matchedRule patternResult)
               then saveLearnedPattern emailAccountId from (orEmpty (opt_matchedRule patternResult))
               else ret tt) ;;
              savePatternCheck emailAccountId from ;;
              ret (NextResponse_json (BodySuccess true) 200)
  end.

(** The background process. *)
Definition process (emailAccountId from : string) : M Response :=
  tryCatch (processBody emailAccountId from)
    (fun _ =>
       logger LError "Error in pattern match API" ;;
       ret (NextResponse_json (BodyError "Failed to detect pattern") 500)).

(** [after(() => process(...))]: the task runs once the response is
    settled and its result is dropped; the world returned is the one the
    task leaves behind. *)
Definition after {A} (task : M A) : M unit :=
  fun w => (Ok tt, snd (task w)).

(** The route handler.  What it throws goes to [withError], which is not
    among the sources. *)
Definition POST (request : Request) : M Response :=
  if negb (validInternalApiKey request)
  then logger LError "Invalid API key" ;;
       ret (NextResponse_json (BodyError "Invalid API key") 200)
  else
    json <- await (request_json request) ;;
    data <- await (schema_parse json) ;;
    let emailAccountId := body_emailAccountId data in
    let from := extractEmailAddress (body_from data) in
    logger LTrace "Analyzing sender pattern" ;;
    after (process emailAccountId from) ;;
    ret (NextResponse_json (BodyProcessing true) 200).

End Route.

(** ** The normaliser, from the specification *)

(** The text after the first opening angle bracket, if there is one. *)
Fixpoint afterOpen (s : string) : option string :=
  match s with
  | EmptyString => None
  | String c rest => if Ascii.eqb c "<" then Some rest else afterOpen rest
  end.

(** The text before the first closing angle bracket, if there is one. *)
Fixpoint beforeClose (s : string) : option string :=
  match s with
  | EmptyString => None
  | String c rest =>
      if Ascii.eqb c ">" then Some EmptyString
      else match beforeClose rest with
           | Some a => Some (String c a)
           | None => None
           end
  end.

(** The letters A to Z in lower case, every other character as it is. *)
Definition lowerAscii (c : ascii) : ascii :=
  let n := nat_of_ascii c in
  if Nat.leb 65 n && Nat.leb n 90 then ascii_of_nat (n + 32) else c.

Fixpoint toLowerCase (s : string) : string :=
  match s with
  | EmptyString => EmptyString
  | String c rest => String (lowerAscii c) (toLowerCase rest)
  end.

(** The address of a sender: what stands between the first angle brackets;
    a string without them is already bare. *)
Definition bareAddress (s : string) : string :=
  match afterOpen s with
  | Some rest =>
      match beforeClose rest with
      | Some a => a
      | None => s
      end
  | None => s
  end.

(** Modelled from the spec: [extractEmailAddress] of [utils/email] is not
    among the sources.  Spec 4.1: "Normalizes senderAddress to a bare address
    (strip display name/angle brackets)"; spec 3: the sender of a Sender
    Check is "lower-cased, address-only -- display names stripped". *)
Definition stripDisplayName (s : string) : string :=
  toLowerCase (bareAddress s).

Definition SpecEmailUtils : EmailUtils :=
  {| extractEmailAddress := stripDisplayName |}.

(** A string without angle brackets. *)
Fixpoint noAngle (s : string) : bool :=
  match s with
  | EmptyString => true
  | String c rest => negb (Ascii.eqb c "<") && negb (Ascii.eqb c ">") && noAngle rest
  end.

(** ** Observations on worlds *)

(** The world [w] with the events [evs] appended to its trace. *)
Definition after_events (w : World) (evs : list Event) : World :=
  mkWorld (db w) (trace w ++ evs).

(** The Sender Check row of a sender for an account. *)
Definition senderCheck (d : DB) (email emailAccountId : string) : option NewsletterRow :=
  find (isNewsletter email emailAccountId) (newsletters d).

(** The rows of a table that carry a given key. *)
Definition rowsWith {R : Type} (matches : R -> bool) (rows : list R) : list R :=
  filter matches rows.

(** The unique key of a grouping criterion. *)
Definition groupItemKey (r : GroupItemRow) : string * GroupItemType * string :=
  (gi_groupId r, gi_type r, gi_value r).

(** The constraints the store enforces and the embedded code relies on:
    group identifiers are a primary key, and a grouping criterion is unique
    per (group, type, value). *)
Definition db_unique (d : DB) : Prop :=
  NoDup (map group_id (groups d)) /\ NoDup (map groupItemKey (groupItems d)).

(** A message is one-way for [from] when its normalised sender is [from]. *)
Definition oneWay {EU : EmailUtils} (from : string) (msg : Message) : Prop :=
  extractEmailAddress (h_from (msg_headers msg)) = from.

(** The events of the loop: fetches of thread messages and log lines. *)
Definition threadEvent (ev : Event) : bool :=
  match ev with
  | GmailGetThreadMessages _ | Log _ _ => true
  | _ => false
  end.

(** Neither a call to the oracle nor a write to the store. *)
Definition mailOnly (ev : Event) : bool :=
  negb (isOracleCall ev) && negb (isWrite ev).

(** The group the criteria go to: the rule's own, or the one just created. *)
Definition targetGroupId (d : DB) (rule : RuleRow) : string :=
  if truthy (rule_groupId rule)
  then orEmpty (rule_groupId rule)
  else cuid (map group_id (groups d)).

(** The store once the rule is sure to have a group. *)
Definition withTargetGroup (d : DB) (emailAccountId ruleName : string) (rule : RuleRow) : DB :=
  if truthy (rule_groupId rule)
  then d
  else set_rules
         (set_groups d (groups d ++ [mkGroupRow (targetGroupId d rule) emailAccountId ruleName]))
         (map (connectRule (targetGroupId d rule) (rule_id rule)) (rules d)).

Definition targetGroupEvents (emailAccountId ruleName : string) (rule : RuleRow) : list Event :=
  if truthy (rule_groupId rule) then [] else [GroupCreate emailAccountId ruleName (rule_id rule)].

(** The loop of the bulk path, as a fold over the table. *)
Definition upsertPattern (groupId : string) (items : list GroupItemRow) (p : Pattern)
    : list GroupItemRow :=
  upsertRows (isGroupItem groupId (pattern_type p) (pattern_value p))
    (setExclude (orFalse (pattern_exclude p)))
    (mkGroupItemRow groupId (pattern_type p) (pattern_value p) (orFalse (pattern_exclude p)))
    items.

(** The criterion (groupId, type, value) is in the table and every row
    carrying that key has the exclude flag [e]. *)
Definition criterionHasFlag (groupId : string) (type : GroupItemType) (value : string)
    (e : bool) (items : list GroupItemRow) : Prop :=
  (exists row, In row items /\ isGroupItem groupId type value row = true)
  /\ (forall row, In row items -> isGroupItem groupId type value row = true ->
                  gi_exclude row = e).

(** The pattern asserts the criterion (type, value). *)
Definition assertsKey (type : GroupItemType) (value : string) (p : Pattern) : bool :=
  GroupItemType_eqb (pattern_type p) type && (pattern_value p =? value).

(** An event that names a sender names [k]: the ledger lookups and writes
    are keyed by [k], the mail search is the one for [k], and a criterion is
    a FROM criterion of value [k]. *)
Definition usesSenderKey (k : string) (ev : Event) : bool :=
  match ev with
  | NewsletterFindUnique email _ | NewsletterUpsert email _ => email =? k
  | GmailGetThreads q _ => q =? senderQuery k
  | GroupItemUpsert _ type value => GroupItemType_eqb type FROM && (value =? k)
  | _ => true
  end.

(** Every ledger row and criterion of [d'] was in [d] already or is keyed
    by [k]. *)
Definition rowsKeyedBy (k : string) (d d' : DB) : Prop :=
  (forall row, In row (newsletters d') -> In row (newsletters d) \/ nl_email row = k)
  /\ (forall item, In item (groupItems d') ->
                   In item (groupItems d) \/ (gi_type item = FROM /\ gi_value item = k)).

Section RunObservations.
Context {EU : EmailUtils} {CO : Collaborators}.

(** The events of a run up to the mail search. *)
Definition fetchPrefix (emailAccountId from : string) : list Event :=
  [EmailAccountFindUnique emailAccountId;
   NewsletterFindUnique (extractEmailAddress from) emailAccountId;
   GmailClientWithRefresh emailAccountId].

(** The conditions under which a run gets to the mail provider: the account
    exists, the sender is not marked analyzed, both tokens are there, and the
    Gmail client is obtained. *)
Definition reachesProvider (emailAccountId from : string) (w : World) (r : EmailAccountRow)
    (gmail : Gmail) : Prop :=
  find (fun r => ea_id r =? emailAccountId) (emailAccounts (db w)) = Some r
  /\ patternAnalyzed (senderCheck (db w) (extractEmailAddress from) emailAccountId) = false
  /\ truthy (opt_access_token (ea_account r)) = true
  /\ truthy (opt_refresh_token (ea_account r)) = true
  /\ getGmailClientWithRefresh (orEmpty (opt_access_token (ea_account r)))
       (orEmpty (opt_refresh_token (ea_account r))) (opt_expires_at (ea_account r))
       emailAccountId = Ok gmail.

End RunObservations.

(** ** Observations on the store *)

(** The unique key of a Sender Check row. *)
Definition newsletterKey (r : NewsletterRow) : string * string :=
  (nl_email r, nl_emailAccountId r).

(** The ledger holds at most one row per (sender, account). *)
Definition ledger_unique (d : DB) : Prop :=
  NoDup (map newsletterKey (newsletters d)).

(** A criterion that no pattern of the list asserts under [groupId]. *)
Definition notAsserted (groupId : string) (ps : list Pattern) (item : GroupItemRow) : bool :=
  negb (gi_groupId item =? groupId)
  || forallb (fun p => negb (assertsKey (gi_type item) (gi_value item) p)) ps.

(** What one pattern of the list does to a row that is there. *)
Definition applyPattern (groupId : string) (r : GroupItemRow) (p : Pattern) : GroupItemRow :=
  if isGroupItem groupId (pattern_type p) (pattern_value p) r
  then setExclude (orFalse (pattern_exclude p)) r
  else r.

(** The criterion the pattern asserts is in the table. *)
Definition patternPresent (groupId : string) (items : list GroupItemRow) (p : Pattern) : Prop :=
  In (groupId, pattern_type p, pattern_value p) (map groupItemKey items).

(** ** The ways of a run *)

Section RunCases.
Context {EU : EmailUtils} {CO : Collaborators}.

(** [t] is the one-way thread that the provider holds under [id]. *)
Definition fetchedOneWay (gmail : Gmail) (from : string) (id : string)
    (t : ThreadWithMessages) : Prop :=
  threadId t = id
  /\ getThreadMessages id gmail = Ok (messages t)
  /\ Forall (oneWay from) (messages t).

(** The world a run is in once the oracle has been asked about [ts], the
    search having added [evs]. *)
Definition askedWorld (emailAccountId from : string) (w : World) (r : EmailAccountRow)
    (ts : list ThreadWithMessages) (evs : list Event) : World :=
  after_events w
    (fetchPrefix emailAccountId from ++ evs
     ++ [AiDetectRecurringPattern (map getEmailForLLM (flat_map messages ts))
           (candidateRules (selectEmailAccount (db w) r))]).

(** The ways through [process], one constructor for each: the response and
    the world the run ends in. *)
Inductive processRun (emailAccountId from : string) (w : World) : Response -> World -> Prop :=
| run_account_missing :
    find (fun r => ea_id r =? emailAccountId) (emailAccounts (db w)) = None ->
    processRun emailAccountId from w
      (NextResponse_json (BodySuccess false) 404)
      (after_events w [EmailAccountFindUnique emailAccountId;
                       Log LError "Email account not found"])
| run_already_analyzed (r : EmailAccountRow) :
    find (fun r => ea_id r =? emailAccountId) (emailAccounts (db w)) = Some r ->
    patternAnalyzed (senderCheck (db w) (extractEmailAddress from) emailAccountId) = true ->
    processRun emailAccountId from w
      (NextResponse_json (BodySuccess true) 200)
      (after_events w [EmailAccountFindUnique emailAccountId;
                       NewsletterFindUnique (extractEmailAddress from) emailAccountId;
                       Log LInfo "Sender has already been analyzed"])
| run_no_tokens (r : EmailAccountRow) :
    find (fun r => ea_id r =? emailAccountId) (emailAccounts (db w)) = Some r ->
    patternAnalyzed (senderCheck (db w) (extractEmailAddress from) emailAccountId) = false ->
    negb (truthy (opt_access_token (ea_account r)))
    || negb (truthy (opt_refresh_token (ea_account r))) = true ->
    processRun emailAccountId from w
      (NextResponse_json (BodySuccess false) 404)
      (after_events w [EmailAccountFindUnique emailAccountId;
                       NewsletterFindUnique (extractEmailAddress from) emailAccountId;
                       Log LError "No Gmail account found"])
| run_client_failed (r : EmailAccountRow) (e : string) :
    find (fun r => ea_id r =? emailAccountId) (emailAccounts (db w)) = Some r ->
    patternAnalyzed (senderCheck (db w) (extractEmailAddress from) emailAccountId) = false ->
    negb (truthy (opt_access_token (ea_account r)))
    || negb (truthy (opt_refresh_token (ea_account r))) = false ->
    getGmailClientWithRefresh (orEmpty (opt_access_token (ea_account r)))
      (orEmpty (opt_refresh_token (ea_account r))) (opt_expires_at (ea_account r))
      emailAccountId = Throw e ->
    processRun emailAccountId from w
      (NextResponse_json (BodyError "Failed to detect pattern") 500)
      (after_events w (fetchPrefix emailAccountId from
                       ++ [Log LError "Error in pattern match API"]))
| run_fetch_failed (r : EmailAccountRow) (gmail : Gmail) (e : string) (evs : list Event) :
    reachesProvider emailAccountId from w r gmail ->
    fst (getThreadsFromSender gmail from MAX_RESULTS w) = Throw e ->
    forallb mailOnly evs = true ->
    processRun emailAccountId from w
      (NextResponse_json (BodyError "Failed to detect pattern") 500)
      (after_events w (fetchPrefix emailAccountId from ++ evs
                       ++ [Log LError "Error in pattern match API"]))
| run_below_threshold (r : EmailAccountRow) (gmail : Gmail) (ts : list ThreadWithMessages)
    (evs : list Event) (msg : string) :
    reachesProvider emailAccountId from w r gmail ->
    fst (getThreadsFromSender gmail from MAX_RESULTS w) = Ok ts ->
    length (flat_map messages ts) < THRESHOLD_EMAILS ->
    forallb mailOnly evs = true ->
    processRun emailAccountId from w
      (NextResponse_json (BodySuccess true) 200)
      (after_events w (fetchPrefix emailAccountId from ++ evs ++ [Log LInfo msg]))
| run_oracle_failed (r : EmailAccountRow) (gmail : Gmail) (ts : list ThreadWithMessages)
    (evs : list Event) (e : string) :
    reachesProvider emailAccountId from w r gmail ->
    fst (getThreadsFromSender gmail from MAX_RESULTS w) = Ok ts ->
    THRESHOLD_EMAILS <= length (flat_map messages ts) ->
    forallb mailOnly evs = true ->
    aiDetectRecurringPattern (map getEmailForLLM (flat_map messages ts))
      (selectEmailAccount (db w) r) (candidateRules (selectEmailAccount (db w) r))
    = Throw e ->
    processRun emailAccountId from w
      (NextResponse_json (BodyError "Failed to detect pattern") 500)
      (after_events (askedWorld emailAccountId from w r ts evs)
         [Log LError "Error in pattern match API"])
| run_settled (r : EmailAccountRow) (gmail : Gmail) (ts : list ThreadWithMessages)
    (evs : list Event) (patternResult : option PatternResult) :
    reachesProvider emailAccountId from w r gmail ->
    fst (getThreadsFromSender gmail from MAX_RESULTS w) = Ok ts ->
    THRESHOLD_EMAILS <= length (flat_map messages ts) ->
    forallb mailOnly evs = true ->
    aiDetectRecurringPattern (map getEmailForLLM (flat_map messages ts))
      (selectEmailAccount (db w) r) (candidateRules (selectEmailAccount (db w) r))
    = Ok patternResult ->
    processRun emailAccountId from w
      (NextResponse_json (BodySuccess true) 200)
      (snd (savePatternCheck emailAccountId from
              (if truthy (opt_matchedRule patternResult)
               then snd (saveLearnedPattern emailAccountId from
                           (orEmpty (opt_matchedRule patternResult))
                           (askedWorld emailAccountId from w r ts evs))
               else askedWorld emailAccountId from w r ts evs))).

End RunCases.

(** ** Runs interleaved at their awaits *)

(** Where asynchronous code stands between two awaits: it has returned,
    it has thrown, or it waits for an operation.  [effect] is what the
    operation and the synchronous code that follows it, up to the next await,
    do to the world, and [next] is where the code stands then. *)
Inductive Task (A : Type) : Type :=
| Returned (a : A)
| Thrown (e : string)
| Await (next : World -> Task A) (effect : World -> World).
Arguments Returned {A} a.
Arguments Thrown {A} e.
Arguments Await {A} next effect.

(** One [await]: the operation and the synchronous code after it are [m],
    which ends in the task the code goes on with. *)
Definition awaiting {A} (m : M (Task A)) : Task A :=
  Await (fun w => match fst (m w) with
                  | Ok t => t
                  | Throw e => Thrown e
                  end)
        (fun w => snd (m w)).

(** A task run to its end, nothing else running. *)
Fixpoint runTask {A} (t : Task A) (w : World) : Result A * World :=
  match t with
  | Returned a => (Ok a, w)
  | Thrown e => (Throw e, w)
  | Await next effect => runTask (next w) (effect w)
  end.

(** Synchronous code that ends in a task, run to the end of the task. *)
Definition runResume {A} (m : M (Task A)) (w : World) : Result A * World :=
  match m w with
  | (Ok t, w') => runTask t w'
  | (Throw e, w') => (Throw e, w')
  end.

(** The handler of a [catch], run in the step that threw. *)
Definition caught {A} (h : string -> M A) (e : string) (w : World) : Task A * World :=
  match h e w with
  | (Ok a, w') => (Returned a, w')
  | (Throw e', w') => (Thrown e', w')
  end.

(** [try { t } catch (error) { h error }]. *)
Fixpoint taskTry {A} (h : string -> M A) (t : Task A) : Task A :=
  match t with
  | Returned a => Returned a
  | Thrown e => Await (fun w => fst (caught h e w)) (fun w => snd (caught h e w))
  | Await next effect =>
      Await (fun w => match next w with
                      | Thrown e => fst (caught h e (effect w))
                      | _ => taskTry h (next w)
                      end)
            (fun w => match next w with
                      | Thrown e => snd (caught h e (effect w))
                      | _ => effect w
                      end)
  end.

(** The next step of a task that waits. *)
Definition stepTask {A} (t : Task A) (w : World) : Task A * World :=
  match t with
  | Await next effect => (next w, effect w)
  | _ => (t, w)
  end.

(** Two tasks on one world, run by a schedule: [true] lets the first take
    its next step, [false] the second; when the schedule is used up, the
    first runs to its end and then the second.  Every interleaving of the two
    at their awaits is the one of some schedule. *)
Fixpoint interleave {A} (schedule : list bool) (a b : Task A) (w : World)
    : Result A * Result A * World :=
  match schedule with
  | [] =>
      let ra := runTask a w in
      let rb := runTask b (snd ra) in
      (fst ra, fst rb, snd rb)
  | true :: rest => interleave rest (fst (stepTask a w)) b (snd (stepTask a w))
  | false :: rest => interleave rest a (fst (stepTask b w)) (snd (stepTask b w))
  end.

(** Every step of the task, from whatever world, is in [R]. *)
Fixpoint stepsIn {A} (R : World -> World -> Prop) (t : Task A) : Prop :=
  match t with
  | Await next effect => forall w, R w (effect w) /\ stepsIn R (next w)
  | _ => True
  end.

Section Tasks.
Context {EU : EmailUtils} {CO : Collaborators}.

(** The loop of [getThreadsFromSender], one step for each awaited
    [getThreadMessages]; [k] is the code after the loop. *)
Fixpoint collectThreadsTask {A} (gmail : Gmail) (from : string) (threads : list string)
    (threadsWithMessages : list ThreadWithMessages)
    (k : list ThreadWithMessages -> M (Task A)) : M (Task A) :=
  match threads with
  | [] => k threadsWithMessages
  | thread :: rest =>
      ret (awaiting
             (emit (GmailGetThreadMessages thread) ;;
              messages <- await (getThreadMessages thread gmail) ;;
              let senders :=
                map (fun msg => extractEmailAddress (h_from (msg_headers msg))) messages in
              let hasOtherSenders := existsb (fun s => negb (s =? from)) senders in
              if hasOtherSenders
              then logger LInfo "Skipping sender pattern detection - conversation detected" ;;
                   k []
              else collectThreadsTask gmail from rest
                     (threadsWithMessages ++ [mkThread thread messages]) k))
  end.

(** [getThreadsFromSender], its awaits one by one. *)
Definition getThreadsFromSenderTask {A} (gmail : Gmail) (sender : string) (maxResults : nat)
    (k : list ThreadWithMessages -> M (Task A)) : M (Task A) :=
  let from := extractEmailAddress sender in
  ret (awaiting
         (emit (GmailGetThreads (senderQuery from) maxResults) ;;
          threads <- await (getThreads (senderQuery from) [] gmail maxResults) ;;
          collectThreadsTask gmail from threads [] k)).

(** [saveLearnedPattern], its awaits one by one: the lookup of the rule,
    the creation of the group, the upsert of the criterion. *)
Definition saveLearnedPatternTask {A} (emailAccountId from ruleName : string)
    (k : unit -> M (Task A)) : M (Task A) :=
  let upsert groupId :=
    ret (awaiting
           (prisma_groupItem_upsert groupId FROM from
              (fun r => r)
              (mkGroupItemRow groupId FROM from exclude_default) ;;
            k tt)) in
  ret (awaiting
         (rule <- prisma_rule_findUnique ruleName emailAccountId ;;
          match rule with
          | None => logger LError "Rule not found" ;; k tt
          | Some rule =>
              if negb (truthy (rule_groupId rule))
              then ret (awaiting
                          (newGroup <- prisma_group_create emailAccountId ruleName
                                         (rule_id rule) ;;
                           upsert (group_id newGroup)))
              else upsert (orEmpty (rule_groupId rule))
          end)).

(** [savePatternCheck]: one awaited upsert. *)
Definition savePatternCheckTask {A} (emailAccountId from : string)
    (k : unit -> M (Task A)) : M (Task A) :=
  ret (awaiting (savePatternCheck emailAccountId from ;; k tt)).

(** The body of the [try] block of [process], its awaits one by one. *)
Definition processBodyTask (emailAccountId from : string) : Task Response :=
  awaiting
    (emailAccount <- getEmailAccountWithRules emailAccountId ;;
     match emailAccount with
     | None =>
         logger LError "Email account not found" ;;
         ret (Returned (NextResponse_json (BodySuccess false) 404))
     | Some emailAccount =>
         ret (awaiting
           (existingCheck <- prisma_newsletter_findUnique (extractEmailAddress from)
                               (sel_id emailAccount) ;;
            if patternAnalyzed existingCheck
            then logger LInfo "Sender has already been analyzed" ;;
                 ret (Returned (NextResponse_json (BodySuccess true) 200))
            else
              let account := sel_account emailAccount in
              if negb (truthy (opt_access_token account))
                 || negb (truthy (opt_refresh_token account))
              then logger LError "No Gmail account found" ;;
                   ret (Returned (NextResponse_json (BodySuccess false) 404))
              else
                ret (awaiting
                  (emit (GmailClientWithRefresh emailAccountId) ;;
                   gmail <- await (getGmailClientWithRefresh
                                     (orEmpty (opt_access_token account))
                                     (orEmpty (opt_refresh_token account))
                                     (opt_expires_at account) emailAccountId) ;;
                   getThreadsFromSenderTask gmail from MAX_RESULTS
                     (fun threadsWithMessages =>
                        if Nat.eqb (length threadsWithMessages) 0
                        then logger LInfo "No threads found from this sender" ;;
                             ret (Returned (NextResponse_json (BodySuccess true) 200))
                        else
                          let allMessages := flat_map messages threadsWithMessages in
                          if Nat.ltb (length allMessages) THRESHOLD_EMAILS
                          then logger LInfo "Not enough emails found from this sender" ;;
                               ret (Returned (NextResponse_json (BodySuccess true) 200))
                          else
                            let emails := map getEmailForLLM allMessages in
                            let candidates := candidateRules emailAccount in
                            ret (awaiting
                              (emit (AiDetectRecurringPattern emails candidates) ;;
                               patternResult <- await (aiDetectRecurringPattern emails
                                                         emailAccount candidates) ;;
                               (if truthy (opt_matchedRule patternResult)
                                then saveLearnedPatternTask emailAccountId from
                                       (orEmpty (opt_matchedRule patternResult))
                                else fun k => k tt)
                                 (fun _ =>
                                    savePatternCheckTask emailAccountId from
                                      (fun _ =>
                                         ret (Returned
                                                (NextResponse_json (BodySuccess true)
                                                   200)))))))))))
     end).

(** The [catch] of [process]. *)
Definition processCatch (error : string) : M Response :=
  logger LError "Error in pattern match API" ;;
  ret (NextResponse_json (BodyError "Failed to detect pattern") 500).

(** The background process, its awaits one by one. *)
Definition processTask (emailAccountId from : string) : Task Response :=
  taskTry processCatch (processBodyTask emailAccountId from).

(** The store holds a row of the sender for the account, marked
    analyzed. *)
Definition senderClosed (emailAccountId from : string) (d : DB) : Prop :=
  exists row, rowsWith (isNewsletter from emailAccountId) (newsletters d) = [row]
              /\ nl_patternAnalyzed row = true.

(** What holds of the ledger all through the runs started in [w0] for a
    sender: its keys are unique, and once a run has written the Sender Check
    of the sender, the store holds exactly one row for it, marked
    analyzed. *)
Definition ledgerKept (emailAccountId from : string) (w0 w : World) : Prop :=
  ledger_unique (db w)
  /\ exists evs,
       trace w = trace w0 ++ evs
       /\ (In (NewsletterUpsert from emailAccountId) evs ->
           senderClosed emailAccountId from (db w)).

(** The groups made for a rule: those of the account that carry its
    name. *)
Definition containersOf (emailAccountId ruleName : string) (d : DB) : list GroupRow :=
  rowsWith (fun g => (group_emailAccountId g =? emailAccountId) && (group_name g =? ruleName))
    (groups d).

End Tasks.

(** ** A state and exception monad over any state *)

Definition St (S A : Type) : Type := S -> Result A * S.

Definition st_ret {S A} (a : A) : St S A := fun s => (Ok a, s).

Definition st_bind {S A B} (m : St S A) (k : A -> St S B) : St S B :=
  fun s =>
    match m s with
    | (Ok a, s') => k a s'
    | (Throw e, s') => (Throw e, s')
    end.

(** [try { m } catch (error) { h error.message }]. *)
Definition st_try {S A} (m : St S A) (h : string -> St S A) : St S A :=
  fun s =>
    match m s with
    | (Ok a, s') => (Ok a, s')
    | (Throw e, s') => h e s'
    end.

Definition st_throw {S A} (e : string) : St S A := fun s => (Throw e, s).

Definition st_await {S A} (r : Result A) : St S A := fun s => (r, s).

Declare Scope st_scope.
Delimit Scope st_scope with st.
Notation "x <- m ;; k" := (st_bind m (fun x => k))
  (at level 61, m at next level, right associativity) : st_scope.
Notation "m ;; k" := (st_bind m (fun _ => k))
  (at level 61, right associativity) : st_scope.

(** [hay.includes(needle)]. *)
Fixpoint includes (needle hay : string) : bool :=
  String.prefix needle hay
  || match hay with
     | EmptyString => false
     | String _ rest => includes needle rest
     end.

(** ** api/google/watch/all *)

Module WatchAll.

Local Open Scope st_scope.

Record Premium : Type := mkPremium {
  lemonSqueezyRenewsAt : option Z;
  stripeSubscriptionStatus : option string;
  tier : option string
}.

(** The columns of an email account that [watchAllEmails] selects, with
    those of its user and of the user's premium. *)
Record EmailAccount : Type := mkEmailAccount {
  w_id : string;
  w_email : string;
  w_watchEmailsExpirationDate : option Z;
  w_account : option Account;
  w_aiApiKey : option string;
  w_premium : option Premium
}.

Inductive Event : Type :=
| FindMany
| Info (msg email : string)
| Warn (msg email : string)
| Error (msg email : string)
| ClientWithRefresh (emailAccountId : string)
| WatchEmails (emailAccountId : string)
| ClearExpiration (email : string)
| CaptureException (msg : string).

Record World : Type := mkWorld {
  accounts : list EmailAccount;
  trace : list Event
}.

(** [hasAiAccess] of [utils/premium] and [watchEmails] of the watch
    controller are not among the sources.  [watchEmails] works on the same
    store, so it is handed the table and returns the one it leaves. *)
Class WatchCollaborators : Type := {
  hasAiAccess : option string -> option string -> bool;
  watchEmails : string -> Gmail -> list EmailAccount -> Result unit * list EmailAccount
}.

Inductive RouteResponse : Type :=
| JsonResponse (r : Response)
| TextResponse (body : string) (status : nat).

Section Route.
Context {CO : Collaborators} {WC : WatchCollaborators}.

Definition emit (ev : Event) : St World unit :=
  fun w => (Ok tt, mkWorld (accounts w) (trace w ++ [ev])).

(** The [where] of the query: the user's premium renews later than now
    with Lemon Squeezy, or its Stripe subscription is active or trialing. *)
Definition premiumActive (p : option Premium) : bool :=
  match p with
  | None => false
  | Some p =>
      match lemonSqueezyRenewsAt p with
      | Some renews => (Date_now <? renews)%Z
      | None => false
      end
      || match stripeSubscriptionStatus p with
         | Some status => (status =? "active") || (status =? "trialing")
         | None => false
         end
  end.

(** [orderBy: { watchEmailsExpirationDate: { sort: "asc", nulls: "first" } }]. *)
Definition expirationLe (a b : option Z) : bool :=
  match a, b with
  | None, _ => true
  | Some _, None => false
  | Some x, Some y => (x <=? y)%Z
  end.

Fixpoint insertByExpiration (ea : EmailAccount) (l : list EmailAccount) : list EmailAccount :=
  match l with
  | [] => [ea]
  | x :: rest =>
      if expirationLe (w_watchEmailsExpirationDate ea) (w_watchEmailsExpirationDate x)
      then ea :: l
      else x :: insertByExpiration ea rest
  end.

Fixpoint sortByExpiration (l : list EmailAccount) : list EmailAccount :=
  match l with
  | [] => []
  | x :: rest => insertByExpiration x (sortByExpiration rest)
  end.

(** [prisma.emailAccount.findMany]; the query answers, and accounts with
    the same expiration keep the order the table has them in. *)
Definition prisma_emailAccount_findMany : St World (list EmailAccount) :=
  emit FindMany ;;
  fun w => (Ok (sortByExpiration (filter (fun ea => premiumActive (w_premium ea)) (accounts w))),
            w).

(** [prisma.emailAccount.update({ where: { email },
    data: { watchEmailsExpirationDate: null } })]; it rejects when no row
    has the email. *)
Definition prisma_emailAccount_clearExpiration (email : string) : St World unit :=
  emit (ClearExpiration email) ;;
  fun w =>
    if existsb (fun ea => w_email ea =? email) (accounts w)
    then (Ok tt,
          mkWorld
            (map (fun ea =>
                    if w_email ea =? email
                    then mkEmailAccount (w_id ea) (w_email ea) None (w_account ea)
                           (w_aiApiKey ea) (w_premium ea)
                    else ea)
               (accounts w))
            (trace w))
    else (Throw "Record to update not found.", w).

(** [emailAccount.user.premium?.tier || null]. *)
Definition tierOrNull (p : option Premium) : option string :=
  match p with
  | Some p => if truthy (tier p) then tier p else None
  | None => None
  end.

(** [emailAccount.watchEmailsExpirationDate &&
    new Date(emailAccount.watchEmailsExpirationDate) < new Date()]. *)
Definition expired (ea : EmailAccount) : bool :=
  match w_watchEmailsExpirationDate ea with
  | Some t => (t <? Date_now)%Z
  | None => false
  end.

Definition warn : list string :=
  ["invalid_grant"; "Mail service not enabled"; "Insufficient Permission"].

(** One turn of the loop of [watchAllEmails]: the [try] block and its
    [catch].  What a collaborator throws is an [Error] with a message, and
    [new Date()] reads the same clock, [Date_now], all through the run. *)
Definition watchOne (emailAccount : EmailAccount) : St World unit :=
  st_try
    (emit (Info "Watching emails for account" (w_email emailAccount)) ;;
     let userHasAiAccess :=
       hasAiAccess (tierOrNull (w_premium emailAccount)) (w_aiApiKey emailAccount) in
     if negb userHasAiAccess
     then emit (Info "User does not have access to AI or cold email" (w_email emailAccount)) ;;
          if expired emailAccount
          then prisma_emailAccount_clearExpiration (w_email emailAccount)
          else st_ret tt
     else
       if negb (truthy (opt_access_token (w_account emailAccount)))
          || negb (truthy (opt_refresh_token (w_account emailAccount)))
       then emit (Info "User has no access token or refresh token" (w_email emailAccount))
       else
         emit (ClientWithRefresh (w_id emailAccount)) ;;
         gmail <- st_await
                    (getGmailClientWithRefresh
                       (orEmpty (opt_access_token (w_account emailAccount)))
                       (orEmpty (opt_refresh_token (w_account emailAccount)))
                       (opt_expires_at (w_account emailAccount))
                       (w_id emailAccount)) ;;
         emit (WatchEmails (w_id emailAccount)) ;;
         fun w => let (r, accounts') := watchEmails (w_id emailAccount) gmail (accounts w) in
                  (r, mkWorld accounts' (trace w)))
    (fun message =>
       if existsb (fun w => includes w message) warn
       then emit (Warn "Not watching emails for user" (w_email emailAccount))
       else emit (Error "Error for user" (w_email emailAccount))).

Fixpoint watchLoop (emailAccounts : list EmailAccount) : St World unit :=
  match emailAccounts with
  | [] => st_ret tt
  | emailAccount :: rest => watchOne emailAccount ;; watchLoop rest
  end.

Definition watchAllEmails : St World RouteResponse :=
  emailAccounts <- prisma_emailAccount_findMany ;;
  emit (Info "Watching email accounts" EmptyString) ;;
  watchLoop emailAccounts ;;
  st_ret (JsonResponse (NextResponse_json (BodySuccess true) 200)).

(** [GET]; [hasCronSecret] is the verdict on the request. *)
Definition GET (hasCronSecret : bool) : St World RouteResponse :=
  if negb hasCronSecret
  then emit (CaptureException "Unauthorized cron request: api/google/watch/all") ;;
       st_ret (TextResponse "Unauthorized" 401)
  else watchAllEmails.

(** [POST]; [hasPostCronSecret] is the verdict on the request. *)
Definition POST (hasPostCronSecret : bool) : St World RouteResponse :=
  if negb hasPostCronSecret
  then emit (CaptureException "Unauthorized cron request: api/google/watch/all") ;;
       st_ret (TextResponse "Unauthorized" 401)
  else watchAllEmails.

(** The account is one for which the loop goes on to the Gmail client. *)
Definition watchable (ea : EmailAccount) : bool :=
  hasAiAccess (tierOrNull (w_premium ea)) (w_aiApiKey ea)
  && truthy (opt_access_token (w_account ea))
  && truthy (opt_refresh_token (w_account ea)).

(** The Gmail client of the account is obtained. *)
Definition clientObtained (ea : EmailAccount) : bool :=
  match getGmailClientWithRefresh (orEmpty (opt_access_token (w_account ea)))
          (orEmpty (opt_refresh_token (w_account ea))) (opt_expires_at (w_account ea))
          (w_id ea) with
  | Ok _ => true
  | Throw _ => false
  end.

(** The account has lost AI access and its watch has run out. *)
Definition lapsed (ea : EmailAccount) : bool :=
  negb (hasAiAccess (tierOrNull (w_premium ea)) (w_aiApiKey ea)) && expired ea.

(** The accounts the query selects, in the order the loop takes them. *)
Definition selectedAccounts (w : World) : list EmailAccount :=
  sortByExpiration (filter (fun ea => premiumActive (w_premium ea)) (accounts w)).

(** The order of the query on two accounts. *)
Definition beforeOrEqual (a b : EmailAccount) : Prop :=
  expirationLe (w_watchEmailsExpirationDate a) (w_watchEmailsExpirationDate b) = true.

End Route.

(** The accounts named by the events of a kind. *)
Definition clientRequests (tr : list Event) : list string :=
  flat_map (fun ev => match ev with ClientWithRefresh id => [id] | _ => [] end) tr.

Definition watchCalls (tr : list Event) : list string :=
  flat_map (fun ev => match ev with WatchEmails id => [id] | _ => [] end) tr.

Definition clearedEmails (tr : list Event) : list string :=
  flat_map (fun ev => match ev with ClearExpiration email => [email] | _ => [] end) tr.

(** The accounts the loop has taken in turn: the emails of the log line
    that opens a turn. *)
Definition visited (tr : list Event) : list string :=
  flat_map (fun ev => match ev with
                      | Info msg email =>
                          if msg =? "Watching emails for account" then [email] else []
                      | _ => []
                      end) tr.

Section TurnObservations.
Context {CO : Collaborators} {WC : WatchCollaborators}.

(** What one turn of the loop adds to the trace, by kind of call. *)
Definition turnAdds (ea : EmailAccount) (w w' : World) : Prop :=
  clientRequests (trace w')
  = clientRequests (trace w) ++ (if watchable ea then [w_id ea] else [])
  /\ watchCalls (trace w')
     = watchCalls (trace w) ++ (if watchable ea && clientObtained ea then [w_id ea] else [])
  /\ clearedEmails (trace w')
     = clearedEmails (trace w) ++ (if lapsed ea then [w_email ea] else []).

End TurnObservations.

End WatchAll.

(** ** api/google/linking/callback *)

Module Linking.

Local Open Scope st_scope.

Record UserRow : Type := mkUserRow {
  u_id : string;
  u_name : option string;
  u_email : string
}.

Record AccountRow : Type := mkAccountRow {
  a_id : string;
  a_userId : string;
  a_provider : string;
  a_providerAccountId : string
}.

Record LinkedEmailAccountRow : Type := mkLinkedEmailAccountRow {
  e_accountId : string;
  e_userId : string;
  e_name : option string;
  e_email : string
}.

Record Store : Type := mkStore {
  users : list UserRow;
  accounts : list AccountRow;
  emailAccounts : list LinkedEmailAccountRow
}.

Inductive Event : Type :=
| Log (level : LogLevel) (msg : string)
| GetToken (code : string)
| VerifyIdToken (idToken : string)
| AccountFindUnique (providerAccountId : string)
| Transaction.

Record World : Type := mkWorld {
  store : Store;
  trace : list Event
}.

(** What the handler reads of the request: the [code] and [state] search
    parameters and the value of the linking state cookie. *)
Record Request : Type := mkRequest {
  code : option string;
  receivedState : option string;
  storedState : option string
}.

(** A redirect to [pathname] with the search parameters set on
    [redirectUrl]; [deletesStateCookie] says that the headers it is given
    delete the linking state cookie. *)
Record Redirect : Type := mkRedirect {
  pathname : string;
  searchParams : list (string * string);
  deletesStateCookie : bool
}.

(** What [userId] of the decoded state is: a string, nothing (the property
    is missing, or the state is not an object), or a value of another type. *)
Inductive UserIdValue : Type :=
| UserIdString (userId : string)
| UserIdUndefined
| UserIdOther.

(** What [JSON.parse] gives for the state: [null], or a value with what
    its [userId] is. *)
Inductive DecodedState : Type :=
| StateNull
| StateValue (userId : UserIdValue).

Record Payload : Type := mkPayload {
  sub : option string;
  email : option string
}.

(** What [findUnique] selects of the account. *)
Record ExistingAccount : Type := mkExistingAccount {
  ex_id : string;
  ex_userId : string;
  ex_user_name : option string;
  ex_user_email : string
}.

(** The Google client and the decoding of the state are not among the
    sources: [decodeState] is [JSON.parse] of the base64url-decoded cookie,
    which throws on a text that is not JSON; [getToken] gives the [id_token] of the
    tokens; [verifyIdToken] gives the payload of the ticket, if it has one.
    What deleting a user removes besides its row is set by the Prisma schema,
    which is not among the sources either, so [prisma_user_delete] is taken
    as it comes. *)
Class LinkCollaborators : Type := {
  decodeState : string -> Result DecodedState;
  getToken : string -> Result (option string);
  verifyIdToken : string -> Result (option Payload);
  prisma_user_delete : string -> Store -> Result Store
}.

(** [url.searchParams.set(key, value)]. *)
Definition setParam (key value : string) (params : list (string * string))
    : list (string * string) :=
  if existsb (fun p => fst p =? key) params
  then map (fun p => if fst p =? key then (key, value) else p) params
  else params ++ [(key, value)].

(** [url.searchParams.get(key)]. *)
Definition getParam (key : string) (params : list (string * string)) : option string :=
  option_map snd (find (fun p => fst p =? key) params).

(** [NextResponse.redirect(redirectUrl, { headers: response.headers })],
    [redirectUrl] being [/accounts] on the origin of the request. *)
Definition NextResponse_redirect (params : list (string * string)) (deleted : bool) : Redirect :=
  mkRedirect "/accounts" params deleted.

(** The [catch] of the handler: the code by what the message includes. *)
Definition errorCode (message : string) : string :=
  if includes "ID token verification failed" message then "invalid_id_token"
  else if includes "Missing id_token" message then "missing_id_token"
  else if includes "ID token missing required" message then "incomplete_id_token"
  else if includes "Missing access_token" message then "token_exchange_failed"
  else "link_failed".

(** [data: { userId }] on a row whose [userId] is [current]: a string is
    written, [undefined] leaves the column as it is. *)
Definition writtenUserId (userId : UserIdValue) (current : string) : string :=
  match userId with
  | UserIdString s => s
  | _ => current
  end.

(** The client refuses [data] whose [userId] is not a string. *)
Definition validUserId (userId : UserIdValue) : bool :=
  match userId with
  | UserIdOther => false
  | _ => true
  end.

(** [prisma.account.update({ where: { id }, data: { userId } })]. *)
Definition prisma_account_update (id : string) (userId : UserIdValue) (s : Store)
    : Result Store :=
  if negb (validUserId userId)
  then Throw "Argument `userId`: Invalid value provided. Expected String."
  else if existsb (fun a => a_id a =? id) (accounts s)
  then Ok (mkStore (users s)
             (map (fun a => if a_id a =? id
                            then mkAccountRow (a_id a) (writtenUserId userId (a_userId a))
                                   (a_provider a) (a_providerAccountId a)
                            else a)
                (accounts s))
             (emailAccounts s))
  else Throw "Record to update not found.".

(** [prisma.emailAccount.update({ where: { accountId },
    data: { userId, name, email } })]. *)
Definition prisma_emailAccount_update (accountId : string) (userId : UserIdValue)
    (name : option string) (email : string) (s : Store) : Result Store :=
  if negb (validUserId userId)
  then Throw "Argument `userId`: Invalid value provided. Expected String."
  else if existsb (fun e => e_accountId e =? accountId) (emailAccounts s)
  then Ok (mkStore (users s) (accounts s)
             (map (fun e => if e_accountId e =? accountId
                            then mkLinkedEmailAccountRow (e_accountId e)
                                   (writtenUserId userId (e_userId e)) name email
                            else e)
                (emailAccounts s)))
  else Throw "Record to update not found.".

(** [existingAccount.userId === targetUserId]. *)
Definition sameUser (userId : string) (targetUserId : UserIdValue) : bool :=
  match targetUserId with
  | UserIdString s => userId =? s
  | _ => false
  end.

(** The operations of a transaction in turn, on the store the one before
    left. *)
Fixpoint runOperations (ops : list (Store -> Result Store)) (s : Store) : Result Store :=
  match ops with
  | [] => Ok s
  | op :: rest =>
      match op s with
      | Ok s' => runOperations rest s'
      | Throw e => Throw e
      end
  end.

Section Route.
Context {LC : LinkCollaborators}.

Definition emit (ev : Event) : St World unit :=
  fun w => (Ok tt, mkWorld (store w) (trace w ++ [ev])).

(** [prisma.account.findUnique] by provider and provider account id, with
    the name and email of the account's user; the relation is required, and
    the query rejects when the user is missing. *)
Definition prisma_account_findUnique (provider providerAccountId : string)
    : St World (option ExistingAccount) :=
  emit (AccountFindUnique providerAccountId) ;;
  fun w =>
    match find (fun a => (a_provider a =? provider)
                         && (a_providerAccountId a =? providerAccountId))
            (accounts (store w)) with
    | None => (Ok None, w)
    | Some a =>
        match find (fun u => u_id u =? a_userId a) (users (store w)) with
        | Some u => (Ok (Some (mkExistingAccount (a_id a) (a_userId a) (u_name u) (u_email u))), w)
        | None => (Throw "Inconsistent query result: Field user is required to return data, got `null` instead.", w)
        end
    end.

(** [prisma.$transaction([...])]: the operations in turn, and none of
    them kept when one rejects. *)
Definition prisma_transaction (ops : list (Store -> Result Store)) : St World unit :=
  emit Transaction ;;
  fun w =>
    match runOperations ops (store w) with
    | Ok s' => (Ok tt, mkWorld s' (trace w))
    | Throw e => (Throw e, w)
    end.

(** The [try] block of the handler, entered with the cookie already
    deleted on [response]. *)
Definition exchangeAndMerge (code : string) (targetUserId : UserIdValue)
    : St World Redirect :=
  emit (GetToken code) ;;
  id_token <- st_await (getToken code) ;;
  if negb (truthy id_token)
  then st_throw "Missing id_token from Google response"
  else
    payload <- st_try
                 (emit (VerifyIdToken (orEmpty id_token)) ;;
                  verifiedPayload <- st_await (verifyIdToken (orEmpty id_token)) ;;
                  match verifiedPayload with
                  | None => st_throw "Could not get payload from verified ID token ticket."
                  | Some verifiedPayload => st_ret verifiedPayload
                  end)
                 (fun message =>
                    emit (Log LError "ID token verification failed using googleAuth:") ;;
                    st_throw ("ID token verification failed: " ++ message)%string) ;;
    let providerAccountId := sub payload in
    let providerEmail := email payload in
    if negb (truthy providerAccountId) || negb (truthy providerEmail)
    then st_throw "ID token missing required subject (sub) or email claim."
    else
      existingAccount <- prisma_account_findUnique "google" (orEmpty providerAccountId) ;;
      match existingAccount with
      | None =>
          emit (Log LWarn "Merge Failed: Google account not found in the system. Cannot merge.") ;;
          st_ret (NextResponse_redirect
                    (setParam "error" "account_not_found_for_merge" []) true)
      | Some existingAccount =>
          if sameUser (ex_userId existingAccount) targetUserId
          then emit (Log LWarn "Google account is already linked to the correct user. Merge action unnecessary.") ;;
               st_ret (NextResponse_redirect
                         (setParam "error" "already_linked_to_self" []) true)
          else
            emit (Log LInfo "Merging Google account") ;;
            prisma_transaction
              [prisma_account_update (ex_id existingAccount) targetUserId;
               prisma_emailAccount_update (ex_id existingAccount) targetUserId
                 (ex_user_name existingAccount) (ex_user_email existingAccount);
               prisma_user_delete (ex_userId existingAccount)] ;;
            emit (Log LInfo "Account re-assigned") ;;
            st_ret (NextResponse_redirect (setParam "success" "account_merged" []) true)
      end.

(** [GET].  What a collaborator throws is an [Error] with a message.
    Taking [userId] of a state that decoded to [null] throws a [TypeError],
    outside every [try], so the handler rejects;
    [getLinkingOAuth2Client], which only builds the client, does not
    throw. *)
Definition GET (request : Request) : St World Redirect :=
  if negb (truthy (storedState request))
     || negb (truthy (receivedState request))
     || negb (orEmpty (storedState request) =? orEmpty (receivedState request))
  then emit (Log LWarn "Invalid state during Google linking callback") ;;
       st_ret (NextResponse_redirect (setParam "error" "invalid_state" []) true)
  else
    match decodeState (orEmpty (storedState request)) with
    | Throw _ =>
        emit (Log LError "Failed to decode state") ;;
        st_ret (NextResponse_redirect (setParam "error" "invalid_state_format" []) true)
    | Ok StateNull =>
        st_throw "Cannot destructure property 'userId' of 'decodedState' as it is null."
    | Ok (StateValue targetUserId) =>
        if negb (truthy (code request))
        then emit (Log LWarn "Missing code in Google linking callback") ;;
             st_ret (NextResponse_redirect (setParam "error" "missing_code" []) true)
        else
          st_try (exchangeAndMerge (orEmpty (code request)) targetUserId)
            (fun message =>
               emit (Log LError "Error in Google linking callback:") ;;
               st_ret (NextResponse_redirect
                         (setParam "error_description"
                            (if message =? EmptyString then "Unknown error" else message)
                            (setParam "error" (errorCode message) []))
                         true))
    end.

(** The request passes the checks that come before the exchange with
    Google: the state of the cookie and of the query are there and equal,
    the state decodes, and there is a code. *)
Definition stateAccepted (request : Request) : bool :=
  truthy (storedState request)
  && truthy (receivedState request)
  && (orEmpty (storedState request) =? orEmpty (receivedState request))
  && match decodeState (orEmpty (storedState request)) with
     | Ok (StateValue _) => true
     | _ => false
     end
  && truthy (code request).

(** The state of the cookie and of the query are there and equal, and it
    decodes to [null]. *)
Definition stateIsNull (request : Request) : bool :=
  truthy (storedState request)
  && truthy (receivedState request)
  && (orEmpty (storedState request) =? orEmpty (receivedState request))
  && match decodeState (orEmpty (storedState request)) with
     | Ok StateNull => true
     | _ => false
     end.

(** The ID token of the code is there but does not verify: the
    verification rejects, or its ticket has no payload. *)
Definition verificationFails (request : Request) : option string :=
  match getToken (orEmpty (code request)) with
  | Ok id_token =>
      if truthy id_token
      then match verifyIdToken (orEmpty id_token) with
           | Throw message => Some message
           | Ok None => Some "Could not get payload from verified ID token ticket."
           | Ok (Some _) => None
           end
      else None
  | Throw _ => None
  end.

End Route.

(** The codes handed to Google for exchange. *)
Definition exchangedCodes (tr : list Event) : list string :=
  flat_map (fun ev => match ev with GetToken c => [c] | _ => [] end) tr.

(** The provider account ids looked up in the store. *)
Definition lookups (tr : list Event) : list string :=
  flat_map (fun ev => match ev with AccountFindUnique id => [id] | _ => [] end) tr.

End Linking.

(** ** utils/account and actions/permissions *)

Module Permissions.

Local Open Scope st_scope.

Inductive Event : Type :=
| EmailAccountFindUnique (id : string)
| EmailAccountFindUniqueByEmail (email : string)
| ClientWithRefresh (emailAccountId : string)
| HandlePermissionsCheck (emailAccountId : string)
| Log (level : LogLevel) (msg : string).

Record World : Type := mkWorld {
  db : DB;
  trace : list Event
}.

Record Tokens : Type := mkTokens {
  accessToken : option string;
  refreshToken : option string;
  expiresAt : option Z
}.

(** The answer of [handleGmailPermissionsCheck]. *)
Record PermissionsCheck : Type := mkPermissionsCheck {
  pc_hasAllPermissions : bool;
  pc_error : option string
}.

(** The answers of [checkPermissionsAction]: [hasRefreshToken] is in the
    object only when all permissions are there. *)
Record CheckResult : Type := mkCheckResult {
  hasRefreshToken : option bool;
  hasAllPermissions : bool
}.

(** The Gmail client and the permissions check are not among the sources.
    Here the client is given the access token as the store has it, which may
    be missing. *)
Class PermissionCollaborators : Type := {
  getGmailClientWithRefresh : option string -> string -> option Z -> string -> Result Gmail;
  getAccessTokenFromClient : Gmail -> Result (option string);
  handleGmailPermissionsCheck : string -> string -> Result PermissionsCheck
}.

Section Account.
Context {PC : PermissionCollaborators}.

Definition emit (ev : Event) : St World unit :=
  fun w => (Ok tt, mkWorld (db w) (trace w ++ [ev])).

(** [prisma.emailAccount.findUnique({ where: { id }, select: { account } })]. *)
Definition prisma_emailAccount_findUnique (id : string) : St World (option EmailAccountRow) :=
  emit (EmailAccountFindUnique id) ;;
  fun w => (Ok (find (fun r => ea_id r =? id) (emailAccounts (db w))), w).

(** [prisma.emailAccount.findUnique({ where: { email }, select: { id } })]. *)
Definition prisma_emailAccount_findUniqueByEmail (email : string)
    : St World (option EmailAccountRow) :=
  emit (EmailAccountFindUniqueByEmail email) ;;
  fun w => (Ok (find (fun r => ea_email r =? email) (emailAccounts (db w))), w).

(** [emailAccount?.account.access_token] and the two columns beside it:
    nothing of a missing row, and a [TypeError] on a row without account. *)
Definition accountColumns (emailAccount : option EmailAccountRow) : Result Tokens :=
  match emailAccount with
  | None => Ok (mkTokens None None None)
  | Some r =>
      match ea_account r with
      | Some a => Ok (mkTokens (access_token a) (refresh_token a) (expires_at a))
      | None => Throw "Cannot read properties of null (reading 'access_token')"
      end
  end.

Definition getTokens (emailAccountId : string) : St World Tokens :=
  emailAccount <- prisma_emailAccount_findUnique emailAccountId ;;
  st_await (accountColumns emailAccount).

Definition getGmailClientForEmail (emailAccountId : string) : St World Gmail :=
  tokens <- getTokens emailAccountId ;;
  emit (ClientWithRefresh emailAccountId) ;;
  st_await (getGmailClientWithRefresh (accessToken tokens) (orEmpty (refreshToken tokens))
              (expiresAt tokens) emailAccountId).

Definition getGmailAndAccessTokenForEmail (emailAccountId : string)
    : St World (Gmail * option string * Tokens) :=
  tokens <- getTokens emailAccountId ;;
  emit (ClientWithRefresh emailAccountId) ;;
  gmail <- st_await (getGmailClientWithRefresh (accessToken tokens)
                       (orEmpty (refreshToken tokens)) (expiresAt tokens) emailAccountId) ;;
  accessToken <- st_await (getAccessTokenFromClient gmail) ;;
  st_ret (gmail, accessToken, tokens).

Definition getGmailClientForEmailId (emailAccountId : string) : St World Gmail :=
  account <- prisma_emailAccount_findUnique emailAccountId ;;
  columns <- st_await (accountColumns account) ;;
  emit (ClientWithRefresh emailAccountId) ;;
  st_await (getGmailClientWithRefresh (accessToken columns) (orEmpty (refreshToken columns))
              (expiresAt columns) emailAccountId).

(** The handler of [checkPermissionsAction]; [emailAccountId] is the one
    of the context the action client gives it. *)
Definition checkPermissionsAction (emailAccountId : string) : St World CheckResult :=
  st_try
    (got <- getGmailAndAccessTokenForEmail emailAccountId ;;
     let accessToken := snd (fst got) in
     let tokens := snd got in
     if negb (truthy accessToken)
     then st_throw "No access token"
     else
       emit (HandlePermissionsCheck emailAccountId) ;;
       check <- st_await (handleGmailPermissionsCheck (orEmpty accessToken) emailAccountId) ;;
       if truthy (pc_error check)
       then st_throw (orEmpty (pc_error check))
       else if negb (pc_hasAllPermissions check)
       then st_ret (mkCheckResult None false)
       else if negb (truthy (refreshToken tokens))
       then st_ret (mkCheckResult (Some false) (pc_hasAllPermissions check))
       else st_ret (mkCheckResult (Some true) (pc_hasAllPermissions check)))
    (fun _ =>
       emit (Log LError "Failed to check permissions") ;;
       st_throw "Failed to check permissions").

(** The handler of [adminCheckPermissionsAction]; [email] is the parsed
    input.  It answers [{ hasAllPermissions }]. *)
Definition adminCheckPermissionsAction (email : string) : St World bool :=
  st_try
    (emailAccount <- prisma_emailAccount_findUniqueByEmail email ;;
     match emailAccount with
     | None => st_throw "Email account not found"
     | Some emailAccount =>
         let emailAccountId := ea_id emailAccount in
         got <- getGmailAndAccessTokenForEmail emailAccountId ;;
         let accessToken := snd (fst got) in
         if negb (truthy accessToken)
         then st_throw "No Gmail access token"
         else
           emit (HandlePermissionsCheck emailAccountId) ;;
           check <- st_await (handleGmailPermissionsCheck (orEmpty accessToken)
                                emailAccountId) ;;
           if truthy (pc_error check)
           then st_throw (orEmpty (pc_error check))
           else st_ret (pc_hasAllPermissions check)
     end)
    (fun _ =>
       emit (Log LError "Admin failed to check permissions") ;;
       st_throw "Failed to check permissions").

End Account.

(** The refresh token the store has for the email account, if any. *)
Definition storedRefreshToken (emailAccountId : string) (d : DB) : option string :=
  match find (fun r => ea_id r =? emailAccountId) (emailAccounts d) with
  | Some r => opt_refresh_token (ea_account r)
  | None => None
  end.

(** The accounts for which a Gmail client was requested, and those whose
    permissions were checked. *)
Definition clientRequests (tr : list Event) : list string :=
  flat_map (fun ev => match ev with ClientWithRefresh id => [id] | _ => [] end) tr.

Definition permissionChecks (tr : list Event) : list string :=
  flat_map (fun ev => match ev with HandlePermissionsCheck id => [id] | _ => [] end) tr.

End Permissions.

(** ** A small mailbox and store on which the model runs *)

Definition demoMessage (id from : string) : Message :=
  mkMessage id (mkHeaders from "Weekly digest") "Hello".

(** The provider answers the search for [sender] with the threads of
    [mailbox]; the oracle answers [verdict]. *)
Definition demoCollaborators (sender : string) (mailbox : list (string * list Message))
    (verdict : Result (option PatternResult)) : Collaborators :=
  {| getGmailClientWithRefresh := fun _ _ _ emailAccountId => Ok (GmailClient emailAccountId);
     getThreads := fun q _ _ maxResults =>
       if q =? senderQuery sender then Ok (firstn maxResults (map fst mailbox)) else Ok [];
     getThreadMessages := fun id _ =>
       match find (fun t => fst t =? id) mailbox with
       | Some t => Ok (snd t)
       | None => Throw "Requested entity was not found."
       end;
     getEmailForLLM := fun m =>
       mkEmailForLLM (h_from (msg_headers m)) (h_subject (msg_headers m)) (msg_textPlain m);
     aiDetectRecurringPattern := fun _ _ _ => verdict;
     Date_now := 1700000000000%Z |}.

Definition demoAccount : EmailAccountRow :=
  mkEmailAccountRow "acc1" "user1" "me@example.com" None (mkUserAi None None None)
    (Some (mkAccount (Some "access") (Some "refresh") None)).

Definition demoRule : RuleRow :=
  mkRuleRow "rule1" "Newsletters" "acc1" true (Some "Newsletters and digests") None.

Definition demoDB : DB := mkDB [demoAccount] [demoRule] [] [] [].

Definition demoWorld : World := mkWorld demoDB [].

(** Three one-way threads from the newsletter, one message each. *)
Definition newsMailbox : list (string * list Message) :=
  [ ("t1", [demoMessage "m1" "News <news@example.com>"]);
    ("t2", [demoMessage "m2" "news@example.com"]);
    ("t3", [demoMessage "m3" "News <news@example.com>"]) ].

(** Ten threads of which only the last holds a message of a third party. *)
Definition mixedMailbox : list (string * list Message) :=
  map (fun id => (id, [demoMessage id "news@example.com"]))
    ["t1"; "t2"; "t3"; "t4"; "t5"; "t6"; "t7"; "t8"; "t9"]
  ++ [ ("t10", [demoMessage "m10" "news@example.com";
                demoMessage "m11" "Me <me@example.com>"]) ].

(** Two threads, two messages: below the threshold. *)
Definition shortMailbox : list (string * list Message) := firstn 2 newsMailbox.

(** What the filter hands over for a mailbox of one-way threads. *)
Definition threadsOf (mailbox : list (string * list Message)) : list ThreadWithMessages :=
  map (fun t => mkThread (fst t) (snd t)) mailbox.

Definition matchNewsletters : Result (option PatternResult) :=
  Ok (Some (mkPatternResult (Some "Newsletters"))).

Definition noMatch : Result (option PatternResult) :=
  Ok (Some (mkPatternResult None)).

Definition newsCollaborators : Collaborators :=
  demoCollaborators "news@example.com" newsMailbox matchNewsletters.

(** A sender who writes under a display name: one thread, three messages. *)
Definition janeCollaborators : Collaborators :=
  demoCollaborators "jane@example.com"
    [ ("j1", [demoMessage "m1" "Jane Doe <jane@example.com>";
              demoMessage "m2" "Jane Doe <jane@example.com>";
              demoMessage "m3" "jane@example.com"]) ]
    matchNewsletters.

(** The store after the newsletter sender has been analysed. *)
Definition analyzedRow : NewsletterRow :=
  mkNewsletterRow "news@example.com" "acc1" true (Some 1699999999999%Z).

Definition analyzedWorld : World :=
  mkWorld (set_newsletters demoDB [analyzedRow]) [].

(** A store in which the rule has its group and the sender is excluded. *)
Definition excludedRow : GroupItemRow :=
  mkGroupItemRow "g1" FROM "news@example.com" true.

Definition learnedWorld : World :=
  mkWorld
    (mkDB [demoAccount]
       [mkRuleRow "rule1" "Newsletters" "acc1" true (Some "Newsletters and digests")
          (Some "g1")]
       [mkGroupRow "g1" "acc1" "Newsletters"]
       [excludedRow]
       [])
    [].

(** The oracle is out of reach. *)
Definition oracleDownCollaborators : Collaborators :=
  demoCollaborators "news@example.com" newsMailbox (Throw "timeout").

(** A write of the ledger. *)
Definition isLedgerWrite (ev : Event) : bool :=
  match ev with
  | NewsletterUpsert _ _ => true
  | _ => false
  end.

(** How many of the events satisfy [p]. *)
Definition countEvents (p : Event -> bool) (evs : list Event) : nat :=
  length (filter p evs).

(** An account whose Google tokens are gone. *)
Definition tokenlessAccount : EmailAccountRow :=
  mkEmailAccountRow "acc2" "user2" "you@example.com" None (mkUserAi None None None)
    (Some (mkAccount (Some "access") None None)).

Definition tokenlessWorld : World :=
  mkWorld (mkDB [demoAccount; tokenlessAccount] [demoRule] [] [] []) [].

(** The same store once the sender has been analysed for that account. *)
Definition tokenlessAnalyzedWorld : World :=
  mkWorld
    (mkDB [demoAccount; tokenlessAccount] [demoRule] [] []
       [mkNewsletterRow "news@example.com" "acc2" true (Some 1699999999999%Z)])
    [].

(** A mailbox whose second thread holds a reply. *)
Definition repliedMailbox : list (string * list Message) :=
  [ ("t1", [demoMessage "m1" "news@example.com"]);
    ("t2", [demoMessage "m2" "news@example.com"; demoMessage "m3" "Me <me@example.com>"]);
    ("t3", [demoMessage "m4" "news@example.com"]) ].

(** A provider that lists a thread it can no longer deliver. *)
Definition brokenCollaborators : Collaborators :=
  {| getGmailClientWithRefresh := fun _ _ _ emailAccountId => Ok (GmailClient emailAccountId);
     getThreads := fun _ _ _ _ => Ok ["t1"; "gone"; "t3"];
     getThreadMessages := fun id _ =>
       if id =? "gone" then Throw "Requested entity was not found."
       else Ok [demoMessage id "news@example.com"];
     getEmailForLLM := @getEmailForLLM newsCollaborators;
     aiDetectRecurringPattern := fun _ _ _ => noMatch;
     Date_now := 1700000000000%Z |}.

(** A store in which the rule has its group and the sender is included. *)
Definition includedWorld : World :=
  mkWorld
    (mkDB [demoAccount]
       [mkRuleRow "rule1" "Newsletters" "acc1" true (Some "Newsletters and digests")
          (Some "g1")]
       [mkGroupRow "g1" "acc1" "Newsletters"]
       [mkGroupItemRow "g1" FROM "news@example.com" false;
        mkGroupItemRow "g1" SUBJECT "Weekly digest" true]
       [])
    [].

(** ** Accounts on which the watch route runs *)

(** The client is refused for the account whose grant was revoked. *)
Definition watchCollaborators : Collaborators :=
  {| getGmailClientWithRefresh := fun _ _ _ emailAccountId =>
       if emailAccountId =? "acc-revoked" then Throw "invalid_grant"
       else Ok (GmailClient emailAccountId);
     getThreads := fun _ _ _ _ => Ok [];
     getThreadMessages := fun _ _ => Ok [];
     getEmailForLLM := @getEmailForLLM newsCollaborators;
     aiDetectRecurringPattern := fun _ _ _ => noMatch;
     Date_now := 1700000000000%Z |}.

(** AI access comes with a tier or with a key of one's own; a watch lasts
    a week, and is rejected for one account. *)
Definition watchDemoCollaborators : WatchAll.WatchCollaborators :=
  {| WatchAll.hasAiAccess := fun tier aiApiKey => truthy tier || truthy aiApiKey;
     WatchAll.watchEmails := fun emailAccountId _ accounts =>
       if emailAccountId =? "acc-broken" then (Throw "Quota exceeded", accounts)
       else (Ok tt,
             map (fun ea =>
                    if WatchAll.w_id ea =? emailAccountId
                    then WatchAll.mkEmailAccount (WatchAll.w_id ea) (WatchAll.w_email ea)
                           (Some 1700604800000%Z) (WatchAll.w_account ea)
                           (WatchAll.w_aiApiKey ea) (WatchAll.w_premium ea)
                    else ea)
               accounts) |}.

Definition tokens : option Account := Some (mkAccount (Some "access") (Some "refresh") None).

Definition subscribed (tier : option string) : option WatchAll.Premium :=
  Some (WatchAll.mkPremium None (Some "active") tier).

Definition watchDemoAccounts : list WatchAll.EmailAccount :=
  [WatchAll.mkEmailAccount "acc-revoked" "revoked@example.com" (Some 1700000300000%Z)
     tokens None (subscribed (Some "PRO"));
   WatchAll.mkEmailAccount "acc-lapsed" "lapsed@example.com" (Some 1690000000000%Z)
     tokens None (subscribed None);
   WatchAll.mkEmailAccount "acc-free" "free@example.com" None tokens (Some "sk-own") None;
   WatchAll.mkEmailAccount "acc-broken" "broken@example.com" (Some 1700000100000%Z)
     tokens None (Some (WatchAll.mkPremium (Some 1800000000000%Z) None (Some "PRO")));
   WatchAll.mkEmailAccount "acc-tokenless" "tokenless@example.com" (Some 1700000200000%Z)
     None (Some "sk-own") (subscribed None);
   WatchAll.mkEmailAccount "acc-new" "new@example.com" None
     tokens None (subscribed (Some "PRO"));
   WatchAll.mkEmailAccount "acc-due" "due@example.com" (Some 1700000400000%Z)
     tokens (Some "sk-own") (Some (WatchAll.mkPremium None (Some "trialing") None))].

Definition watchDemoWorld : WatchAll.World := WatchAll.mkWorld watchDemoAccounts [].

(** ** A store on which the linking callback runs *)

Definition linkDemoCollaborators : Linking.LinkCollaborators :=
  {| Linking.decodeState := fun s =>
       if s =? "state-u1" then Ok (Linking.StateValue (Linking.UserIdString "u1"))
       else if s =? "state-u2" then Ok (Linking.StateValue (Linking.UserIdString "u2"))
       else if s =? "bnVsbA" then Ok Linking.StateNull
       else if s =? "e30" then Ok (Linking.StateValue Linking.UserIdUndefined)
       else Throw "Unexpected token";
     Linking.getToken := fun code =>
       if code =? "code-g2" then Ok (Some "idt-g2")
       else if code =? "code-forged" then Ok (Some "idt-forged")
       else if code =? "code-hollow" then Ok (Some "idt-hollow")
       else if code =? "code-bare" then Ok None
       else Throw "invalid_grant";
     Linking.verifyIdToken := fun idToken =>
       if idToken =? "idt-g2"
       then Ok (Some (Linking.mkPayload (Some "g-2") (Some "two@example.com")))
       else if idToken =? "idt-hollow" then Ok None
       else Throw "Wrong recipient, payload audience != requiredAudience";
     Linking.prisma_user_delete := fun id s =>
       if existsb (fun u => Linking.u_id u =? id) (Linking.users s)
       then Ok (Linking.mkStore
                  (filter (fun u => negb (Linking.u_id u =? id)) (Linking.users s))
                  (Linking.accounts s) (Linking.emailAccounts s))
       else Throw "Record to delete does not exist." |}.

Definition linkDemoStore : Linking.Store :=
  Linking.mkStore
    [Linking.mkUserRow "u1" (Some "One") "one@example.com";
     Linking.mkUserRow "u2" (Some "Two") "two@example.com"]
    [Linking.mkAccountRow "a1" "u1" "google" "g-1";
     Linking.mkAccountRow "a2" "u2" "google" "g-2"]
    [Linking.mkLinkedEmailAccountRow "a1" "u1" (Some "One") "one@example.com";
     Linking.mkLinkedEmailAccountRow "a2" "u2" None "two@example.com"].

Definition linkDemoWorld : Linking.World := Linking.mkWorld linkDemoStore [].

(** The same store without the email account of the second account: the
    second write of the merge is rejected. *)
Definition linkPartialWorld : Linking.World :=
  Linking.mkWorld
    (Linking.mkStore (Linking.users linkDemoStore) (Linking.accounts linkDemoStore)
       [Linking.mkLinkedEmailAccountRow "a1" "u1" (Some "One") "one@example.com"])
    [].

Definition linkRequest (code : string) : Linking.Request :=
  Linking.mkRequest (Some code) (Some "state-u1") (Some "state-u1").

(** ** Collaborators on which the permission actions run *)

Definition permissionDemoCollaborators : Permissions.PermissionCollaborators :=
  {| Permissions.getGmailClientWithRefresh := fun accessToken _ _ emailAccountId =>
       if truthy accessToken then Ok (GmailClient emailAccountId)
       else Throw "No access token";
     Permissions.getAccessTokenFromClient := fun _ => Ok (Some "access");
     Permissions.handleGmailPermissionsCheck := fun _ emailAccountId =>
       if emailAccountId =? "acc1" then Ok (Permissions.mkPermissionsCheck true None)
       else Ok (Permissions.mkPermissionsCheck false (Some "Gmail permissions revoked")) |}.

Definition permissionDemoWorld : Permissions.World :=
  Permissions.mkWorld
    (mkDB [demoAccount;
           mkEmailAccountRow "acc2" "user2" "two@example.com" None (mkUserAi None None None)
             (Some (mkAccount (Some "access") None None))]
       [] [] [] [])
    [].

(** ** Steps that keep the ledger *)

(** A step from [w] to [w'] keeps what holds of the ledger. *)
Definition keepsLedger (emailAccountId from : string) (w0 w w' : World) : Prop :=
  ledgerKept emailAccountId from w0 w -> ledgerKept emailAccountId from w0 w'.

(** Code that leaves the ledger alone: its rows stay, and no event is a
    write of the ledger. *)
Definition ledgerQuiet {A} (m : M A) : Prop :=
  forall w,
    newsletters (db (snd (m w))) = newsletters (db w)
    /\ exists evs, trace (snd (m w)) = trace w ++ evs /\ existsb isLedgerWrite evs = false.

(** Synchronous code that keeps the ledger and ends in a task whose steps
    all keep it. *)
Definition resumeKeeps {A} (R : World -> World -> Prop) (m : M (Task A)) : Prop :=
  forall w,
    R w (snd (m w))
    /\ match fst (m w) with
       | Ok t => stepsIn R t
       | Throw _ => True
       end.

(** The two runs take their steps in turn, [n] steps each. *)
Fixpoint lockstep (n : nat) : list bool :=
  match n with
  | O => []
  | S k => true :: false :: lockstep k
  end.

(** * Properties *)

Ltac run_async :=
  unfold bind, ret, emit, getDb, putDb, await, logger, tryCatch, after_events in *;
  simpl in *.

Lemma after_events_nil (w : World) : after_events w [] = w.
Proof.
  destruct w as [d t]. unfold after_events. simpl. now rewrite app_nil_r.
Qed.

Lemma after_events_app (w : World) (e1 e2 : list Event) :
  after_events (after_events w e1) e2 = after_events w (e1 ++ e2).
Proof.
  unfold after_events. simpl. now rewrite app_assoc.
Qed.

(** *** rule/learned-patterns: the rule is missing *)

Lemma saveLearnedPattern_absent (emailAccountId from ruleName : string) (w : World) :
  find (isRule ruleName emailAccountId) (rules (db w)) = None ->
  saveLearnedPattern emailAccountId from ruleName w
  = (Ok tt, after_events w [RuleFindUnique ruleName emailAccountId;
                            Log LError "Rule not found"]).
Proof.
  intros Hnone.
  unfold saveLearnedPattern, prisma_rule_findUnique.
  run_async. rewrite Hnone. run_async.
  rewrite <- app_assoc. reflexivity.
Qed.

(** C7. When no rule row exists for (emailAccountId, ruleName),
    [saveLearnedPattern] looks the rule up, logs "Rule not found" and
    returns normally; the store is left as it was, so no group and no
    grouping criterion is created or modified. *)
Theorem saveLearnedPattern_rule_not_found :
  forall (emailAccountId from ruleName : string) (w : World),
    find (isRule ruleName emailAccountId) (rules (db w)) = None ->
    saveLearnedPattern emailAccountId from ruleName w
    = (Ok tt, after_events w [RuleFindUnique ruleName emailAccountId;
                              Log LError "Rule not found"])
    /\ db (snd (saveLearnedPattern emailAccountId from ruleName w)) = db w.
Proof.
  intros acct from ruleName w Hnone.
  rewrite (saveLearnedPattern_absent _ _ _ _ Hnone). split; reflexivity.
Qed.

(** *** The conversation filter *)

Section ThreadFacts.
Context {EU : EmailUtils} {CO : Collaborators}.

(** The test [senders.some((s) => s !== from)] of [getThreadsFromSender]. *)
Lemma hasOtherSenders_false (from : string) (msgs : list Message) :
  existsb (fun s => negb (s =? from))
    (map (fun msg => extractEmailAddress (h_from (msg_headers msg))) msgs) = false
  <-> Forall (oneWay from) msgs.
Proof.
  induction msgs as [|m rest IH]; simpl.
  - split; [constructor | reflexivity].
  - rewrite orb_false_iff, negb_false_iff, String.eqb_eq, IH. split.
    + intros [Hm Hrest]. now constructor.
    + intros Hall. inversion Hall; subst. now split.
Qed.

Lemma hasOtherSenders_true (from : string) (msgs : list Message) (m : Message) :
  In m msgs -> ~ oneWay from m ->
  existsb (fun s => negb (s =? from))
    (map (fun msg => extractEmailAddress (h_from (msg_headers msg))) msgs) = true.
Proof.
  intros Hin Hother.
  destruct (existsb _ _) eqn:E; [reflexivity|].
  apply hasOtherSenders_false in E. rewrite Forall_forall in E.
  exfalso. apply Hother, E, Hin.
Qed.

Lemma threadEvent_mailOnly (evs : list Event) :
  forallb threadEvent evs = true -> forallb mailOnly evs = true.
Proof.
  induction evs as [|ev rest IH]; simpl; [reflexivity|].
  intros H. apply andb_true_iff in H as [Hev Hrest].
  rewrite (IH Hrest). now destruct ev.
Qed.

(** One turn of the loop. *)
Lemma collectThreads_cons (gmail : Gmail) (from t : string) (rest : list string)
    (acc : list ThreadWithMessages) (w : World) :
  collectThreads gmail from (t :: rest) acc w
  = match getThreadMessages t gmail with
    | Throw e => (Throw e, after_events w [GmailGetThreadMessages t])
    | Ok msgs =>
        if existsb (fun s => negb (s =? from))
             (map (fun msg => extractEmailAddress (h_from (msg_headers msg))) msgs)
        then (Ok [], after_events w
                       [GmailGetThreadMessages t;
                        Log LInfo "Skipping sender pattern detection - conversation detected"])
        else collectThreads gmail from rest (acc ++ [mkThread t msgs])
               (after_events w [GmailGetThreadMessages t])
    end.
Proof.
  simpl. run_async.
  destruct (getThreadMessages t gmail) as [msgs|e]; [|reflexivity].
  destruct (existsb _ _); [|reflexivity].
  simpl. now rewrite <- app_assoc.
Qed.

Lemma getThreadsFromSender_eq (gmail : Gmail) (sender : string) (maxResults : nat)
    (w : World) :
  getThreadsFromSender gmail sender maxResults w
  = let from := extractEmailAddress sender in
    match getThreads (senderQuery from) [] gmail maxResults with
    | Throw e => (Throw e, after_events w [GmailGetThreads (senderQuery from) maxResults])
    | Ok threads =>
        collectThreads gmail from threads []
          (after_events w [GmailGetThreads (senderQuery from) maxResults])
    end.
Proof.
  unfold getThreadsFromSender. run_async.
  destruct (getThreads _ _ _ _); reflexivity.
Qed.

Lemma collectThreads_frame (gmail : Gmail) (from : string) :
  forall (threads : list string) (acc : list ThreadWithMessages) (w : World),
  exists evs,
    snd (collectThreads gmail from threads acc w) = after_events w evs
    /\ forallb threadEvent evs = true.
Proof.
  induction threads as [|t rest IH]; intros acc w.
  - exists []. simpl. unfold ret. simpl. now rewrite after_events_nil.
  - rewrite collectThreads_cons.
    destruct (getThreadMessages t gmail) as [msgs|e].
    + destruct (existsb _ _).
      * eexists. split; reflexivity.
      * destruct (IH (acc ++ [mkThread t msgs]) (after_events w [GmailGetThreadMessages t]))
          as (evs & Hsnd & Hq).
        exists (GmailGetThreadMessages t :: evs). rewrite Hsnd, after_events_app.
        split; [reflexivity | exact Hq].
    + eexists. split; reflexivity.
Qed.

(** What the loop returns depends on the mail provider only. *)
Lemma collectThreads_result (gmail : Gmail) (from : string) :
  forall (threads : list string) (acc : list ThreadWithMessages) (w w0 : World),
    fst (collectThreads gmail from threads acc w)
    = fst (collectThreads gmail from threads acc w0).
Proof.
  induction threads as [|t rest IH]; intros acc w w0.
  - reflexivity.
  - rewrite !collectThreads_cons.
    destruct (getThreadMessages t gmail) as [msgs|e]; [|reflexivity].
    destruct (existsb _ _); [reflexivity|]. apply IH.
Qed.

Lemma collectThreads_conversation (gmail : Gmail) (from : string) :
  forall (threads : list string) (acc : list ThreadWithMessages) (w : World),
    (forall id, In id threads -> exists msgs, getThreadMessages id gmail = Ok msgs) ->
    (exists id msgs m,
        In id threads /\ getThreadMessages id gmail = Ok msgs
        /\ In m msgs /\ ~ oneWay from m) ->
    fst (collectThreads gmail from threads acc w) = Ok [].
Proof.
  induction threads as [|t rest IH]; intros acc w Hfetch (id & msgs & m & Hin & Hid & Hm & Hother).
  - destruct Hin.
  - rewrite collectThreads_cons.
    destruct (Hfetch t (or_introl eq_refl)) as [msgs0 Ht]. rewrite Ht.
    destruct (existsb _ _) eqn:E; [reflexivity|].
    apply IH.
    + intros id' Hid'. apply Hfetch. now right.
    + exists id, msgs, m. repeat split; trivial.
      destruct Hin as [->|Hin]; [|exact Hin].
      exfalso. rewrite Ht in Hid. injection Hid as <-.
      apply hasOtherSenders_false in E. rewrite Forall_forall in E.
      apply Hother, E, Hm.
Qed.

Lemma collectThreads_oneWay (gmail : Gmail) (from : string) :
  forall (threads : list string) (acc ts : list ThreadWithMessages) (w : World),
    fst (collectThreads gmail from threads acc w) = Ok ts ->
    Forall (fun t => Forall (oneWay from) (messages t)) acc ->
    Forall (fun t => Forall (oneWay from) (messages t)) ts.
Proof.
  induction threads as [|t rest IH]; intros acc ts w Hrun Hacc.
  - simpl in Hrun. injection Hrun as <-. exact Hacc.
  - rewrite collectThreads_cons in Hrun.
    destruct (getThreadMessages t gmail) as [msgs|e]; [|discriminate].
    destruct (existsb _ _) eqn:E.
    + injection Hrun as <-. constructor.
    + apply IH in Hrun; [exact Hrun|].
      apply Forall_app. split; [exact Hacc|].
      constructor; [|constructor]. simpl. now apply hasOtherSenders_false.
Qed.

Lemma getThreadsFromSender_conversation (gmail : Gmail) (sender : string)
    (maxResults : nat) (w : World) (threads : list string) :
  getThreads (senderQuery (extractEmailAddress sender)) [] gmail maxResults = Ok threads ->
  (forall id, In id threads -> exists msgs, getThreadMessages id gmail = Ok msgs) ->
  (exists id msgs m,
      In id threads /\ getThreadMessages id gmail = Ok msgs /\ In m msgs
      /\ extractEmailAddress (h_from (msg_headers m)) <> extractEmailAddress sender) ->
  fst (getThreadsFromSender gmail sender maxResults w) = Ok [].
Proof.
  intros Hsearch Hfetch Hconv.
  rewrite getThreadsFromSender_eq. cbv zeta. rewrite Hsearch.
  now apply collectThreads_conversation.
Qed.

(** C10. Every message of every thread that [getThreadsFromSender] returns
    has the normalised address under analysis as its normalised sender, so
    the messages counted against the threshold are all one-way. *)
Theorem getThreadsFromSender_returns_one_way :
  forall (gmail : Gmail) (sender : string) (maxResults : nat) (w : World)
         (ts : list ThreadWithMessages),
    fst (getThreadsFromSender gmail sender maxResults w) = Ok ts ->
    (forall t m, In t ts -> In m (messages t) ->
                 extractEmailAddress (h_from (msg_headers m)) = extractEmailAddress sender)
    /\ Forall (oneWay (extractEmailAddress sender)) (flat_map messages ts).
Proof.
  intros gmail sender n w ts Hrun.
  rewrite getThreadsFromSender_eq in Hrun. cbv zeta in Hrun.
  destruct (getThreads _ _ _ _) as [threads|e]; [|discriminate].
  apply collectThreads_oneWay in Hrun; [|constructor].
  rewrite Forall_forall in Hrun. split.
  - intros t m Ht Hm. specialize (Hrun t Ht). rewrite Forall_forall in Hrun.
    now apply Hrun.
  - apply Forall_forall. intros m Hm. apply in_flat_map in Hm as (t & Ht & Hm).
    specialize (Hrun t Ht). rewrite Forall_forall in Hrun. now apply Hrun.
Qed.

End ThreadFacts.

(** *** Rows and upserts *)

Lemma GroupItemType_eqb_eq (a b : GroupItemType) :
  GroupItemType_eqb a b = true <-> a = b.
Proof.
  destruct a, b; simpl; split; intros H; try reflexivity; discriminate.
Qed.

Lemma isGroupItem_key (groupId : string) (type : GroupItemType) (value : string)
    (r : GroupItemRow) :
  isGroupItem groupId type value r = true <-> groupItemKey r = (groupId, type, value).
Proof.
  unfold isGroupItem, groupItemKey.
  rewrite !andb_true_iff, !String.eqb_eq, GroupItemType_eqb_eq. split.
  - intros [[-> ->] ->]. reflexivity.
  - intros H. injection H as -> -> ->. auto.
Qed.

Lemma isGroupItem_refl (groupId : string) (type : GroupItemType) (value : string) (e : bool) :
  isGroupItem groupId type value (mkGroupItemRow groupId type value e) = true.
Proof.
  now apply isGroupItem_key.
Qed.

Section Upsert.
Variable R : Type.
Variable matches : R -> bool.

Lemma upsert_same_when_present (create : R) (rows : list R) :
  existsb matches rows = true ->
  upsertRows matches (fun r => r) create rows = rows.
Proof.
  intros Hex. unfold upsertRows. rewrite Hex. clear Hex.
  induction rows as [|r rest IH]; [reflexivity|].
  simpl. rewrite IH. now destruct (matches r).
Qed.

Lemma find_map_stable (f : R -> R) (rows : list R) :
  (forall r, matches (f r) = matches r) ->
  find matches (map f rows) = option_map f (find matches rows).
Proof.
  intros Hf. induction rows as [|r rest IH]; [reflexivity|].
  simpl. rewrite Hf. destruct (matches r); [reflexivity | exact IH].
Qed.

Lemma find_upsert (update : R -> R) (create : R) (rows : list R) :
  (forall r, matches r = true -> matches (update r) = true) ->
  matches create = true ->
  find matches (upsertRows matches update create rows)
  = Some (match find matches rows with
          | Some r => update r
          | None => create
          end).
Proof.
  intros Hupd Hcreate. unfold upsertRows.
  destruct (existsb matches rows) eqn:Hex.
  - induction rows as [|r rest IH]; [discriminate|].
    simpl in *. destruct (matches r) eqn:Hr.
    + now rewrite (Hupd r Hr).
    + rewrite Hr. now apply IH.
  - induction rows as [|r rest IH]; simpl in *.
    + now rewrite Hcreate.
    + apply orb_false_iff in Hex as [Hr Hrest]. rewrite Hr. now apply IH.
Qed.

Lemma count_upsert (update : R -> R) (create : R) (rows : list R) :
  (forall r, matches r = true -> matches (update r) = true) ->
  matches create = true ->
  length (rowsWith matches (upsertRows matches update create rows))
  = Nat.max 1 (length (rowsWith matches rows)).
Proof.
  intros Hupd Hcreate. unfold upsertRows, rowsWith.
  destruct (existsb matches rows) eqn:Hex.
  - assert (Hlen : length (filter matches
                      (map (fun r => if matches r then update r else r) rows))
                   = length (filter matches rows)).
    { clear Hex. induction rows as [|r rest IH]; [reflexivity|].
      simpl. destruct (matches r) eqn:Hr.
      - rewrite (Hupd r Hr). simpl. now rewrite IH.
      - rewrite Hr. exact IH. }
    rewrite Hlen. apply existsb_exists in Hex as (r & Hin & Hr).
    assert (Hpos : In r (filter matches rows)) by (apply filter_In; now split).
    destruct (filter matches rows); [destruct Hpos | simpl; lia].
  - rewrite filter_app. simpl. rewrite Hcreate.
    assert (Hnone : filter matches rows = []).
    { clear Hcreate. induction rows as [|r rest IH]; [reflexivity|].
      simpl in *. apply orb_false_iff in Hex as [Hr Hrest].
      rewrite Hr. now apply IH. }
    rewrite Hnone. reflexivity.
Qed.

End Upsert.

(** A unique key admits at most one row. *)
Lemma unique_key_at_most_one {R K : Type} (key : R -> K) (matches : R -> bool) (k : K)
    (rows : list R) :
  (forall r, matches r = true <-> key r = k) ->
  NoDup (map key rows) ->
  length (rowsWith matches rows) <= 1.
Proof.
  intros Hkey. unfold rowsWith.
  induction rows as [|r rest IH]; intros Hnd; simpl; [lia|].
  inversion Hnd as [|? ? Hnotin Hnd']; subst.
  destruct (matches r) eqn:Hr; [|now apply IH].
  assert (Hnone : filter matches rest = []).
  { destruct (filter matches rest) as [|r' ?] eqn:Hf; [reflexivity|].
    exfalso. assert (Hin : In r' (filter matches rest)) by (rewrite Hf; now left).
    apply filter_In in Hin as [Hin Hr'].
    apply Hnotin. apply Hkey in Hr. apply Hkey in Hr'. rewrite Hr, <- Hr'.
    now apply in_map. }
  rewrite Hnone. simpl. lia.
Qed.

(** *** Fresh group identifiers *)

Lemma length_pad (n : nat) : String.length (pad n) = n.
Proof.
  induction n as [|n IH]; simpl; [reflexivity | now rewrite IH].
Qed.

Lemma cuid_fresh (used : list string) : ~ In (cuid used) used.
Proof.
  intros Hin.
  assert (Hle : String.length (cuid used) <= list_max (map String.length used)).
  { assert (Hall : Forall (fun k => k <= list_max (map String.length used))
                     (map String.length used))
      by (apply list_max_le; lia).
    rewrite Forall_forall in Hall. apply Hall. now apply in_map. }
  unfold cuid in Hle. simpl in Hle. rewrite length_pad in Hle. lia.
Qed.

Lemma cuid_truthy (used : list string) : truthy (Some (cuid used)) = true.
Proof. reflexivity. Qed.

(** *** rule/learned-patterns: the rule exists *)

Lemma saveLearnedPattern_found (emailAccountId from ruleName : string) (w : World)
    (rule : RuleRow) :
  find (isRule ruleName emailAccountId) (rules (db w)) = Some rule ->
  saveLearnedPattern emailAccountId from ruleName w
  = (Ok tt,
     mkWorld
       (set_groupItems (withTargetGroup (db w) emailAccountId ruleName rule)
          (upsertRows (isGroupItem (targetGroupId (db w) rule) FROM from) (fun r => r)
             (mkGroupItemRow (targetGroupId (db w) rule) FROM from exclude_default)
             (groupItems (db w))))
       (trace w ++ RuleFindUnique ruleName emailAccountId
                   :: targetGroupEvents emailAccountId ruleName rule
                   ++ [GroupItemUpsert (targetGroupId (db w) rule) FROM from])).
Proof.
  intros Hfind.
  unfold saveLearnedPattern, prisma_rule_findUnique, prisma_group_create,
    prisma_groupItem_upsert, withTargetGroup, targetGroupEvents, targetGroupId.
  run_async. rewrite Hfind.
  destruct (truthy (rule_groupId rule)); run_async;
    rewrite <- !app_assoc; reflexivity.
Qed.

Lemma savePatternsLoop_run (groupId : string) :
  forall (patterns : list Pattern) (w : World),
    savePatternsLoop groupId patterns w
    = (Ok tt,
       mkWorld (set_groupItems (db w) (fold_left (upsertPattern groupId) patterns (groupItems (db w))))
         (trace w ++ map (fun p => GroupItemUpsert groupId (pattern_type p) (pattern_value p))
                       patterns)).
Proof.
  induction patterns as [|p rest IH]; intros w.
  - simpl. unfold ret. destruct w as [[] ?]. simpl. now rewrite app_nil_r.
  - simpl. unfold prisma_groupItem_upsert. run_async. rewrite IH. simpl.
    now rewrite <- app_assoc.
Qed.

Lemma saveLearnedPatterns_found (emailAccountId ruleName : string) (patterns : list Pattern)
    (w : World) (rule : RuleRow) :
  find (isRule ruleName emailAccountId) (rules (db w)) = Some rule ->
  saveLearnedPatterns emailAccountId ruleName patterns w
  = (Ok tt,
     mkWorld
       (set_groupItems (withTargetGroup (db w) emailAccountId ruleName rule)
          (fold_left (upsertPattern (targetGroupId (db w) rule)) patterns (groupItems (db w))))
       (trace w ++ RuleFindUnique ruleName emailAccountId
                   :: targetGroupEvents emailAccountId ruleName rule
                   ++ map (fun p => GroupItemUpsert (targetGroupId (db w) rule)
                                      (pattern_type p) (pattern_value p)) patterns)).
Proof.
  intros Hfind.
  unfold saveLearnedPatterns, prisma_rule_findUnique, prisma_group_create,
    withTargetGroup, targetGroupEvents, targetGroupId.
  run_async. rewrite Hfind.
  destruct (truthy (rule_groupId rule)); run_async;
    rewrite savePatternsLoop_run; simpl; rewrite <- !app_assoc; reflexivity.
Qed.

Lemma set_groupItems_same (d : DB) : set_groupItems d (groupItems d) = d.
Proof. now destruct d. Qed.

Lemma isRule_connectRule (name emailAccountId groupId ruleId : string) (r : RuleRow) :
  isRule name emailAccountId (connectRule groupId ruleId r) = isRule name emailAccountId r.
Proof.
  unfold connectRule. now destruct (rule_id r =? ruleId).
Qed.

Lemma truthy_orEmpty (s : option string) :
  truthy s = true -> s = Some (orEmpty s).
Proof.
  unfold orEmpty. intros H. rewrite H. destruct s; [reflexivity | discriminate].
Qed.

(** After the group step the rule points at the target group. *)
Lemma rule_after_group_step (d : DB) (emailAccountId ruleName : string) (rule : RuleRow) :
  find (isRule ruleName emailAccountId) (rules d) = Some rule ->
  exists rule',
    find (isRule ruleName emailAccountId) (rules (withTargetGroup d emailAccountId ruleName rule))
    = Some rule'
    /\ rule_groupId rule' = Some (targetGroupId d rule)
    /\ truthy (rule_groupId rule') = true
    /\ rule_id rule' = rule_id rule.
Proof.
  intros Hfind. unfold withTargetGroup, targetGroupId.
  destruct (truthy (rule_groupId rule)) eqn:Ht.
  - exists rule. repeat split; trivial. now apply truthy_orEmpty.
  - exists (mkRuleRow (rule_id rule) (rule_name rule) (rule_emailAccountId rule)
              (rule_enabled rule) (rule_instructions rule)
              (Some (cuid (map group_id (groups d))))).
    simpl. rewrite find_map_stable by (intros; apply isRule_connectRule).
    rewrite Hfind. simpl. unfold connectRule. rewrite String.eqb_refl.
    repeat split; reflexivity.
Qed.

(** The groups once the rule is sure to have one: at most one more than
    before, and at most one carries the target identifier. *)
Lemma groups_after_group_step (d : DB) (emailAccountId ruleName : string) (rule : RuleRow) :
  NoDup (map group_id (groups d)) ->
  length (rowsWith (fun gr => group_id gr =? targetGroupId d rule)
            (groups (withTargetGroup d emailAccountId ruleName rule))) <= 1
  /\ length (groups (withTargetGroup d emailAccountId ruleName rule)) <= S (length (groups d))
  /\ NoDup (map group_id (groups (withTargetGroup d emailAccountId ruleName rule))).
Proof.
  intros Hnd. unfold withTargetGroup, targetGroupId.
  destruct (truthy (rule_groupId rule)).
  - repeat split; [|lia|exact Hnd].
    apply (unique_key_at_most_one group_id _ (orEmpty (rule_groupId rule))); [|exact Hnd].
    intros r. apply String.eqb_eq.
  - simpl. pose proof (cuid_fresh (map group_id (groups d))) as Hfresh.
    repeat split.
    + unfold rowsWith. rewrite filter_app, length_app. simpl.
      rewrite String.eqb_refl. simpl.
      assert (Hnone : filter (fun gr => group_id gr =? cuid (map group_id (groups d)))
                        (groups d) = []).
      { destruct (filter _ (groups d)) as [|gr ?] eqn:Hf; [reflexivity|].
        exfalso. assert (Hin : In gr (filter (fun gr => group_id gr =? cuid (map group_id (groups d)))
                                        (groups d))) by (rewrite Hf; now left).
        apply filter_In in Hin as [Hin Heq]. apply String.eqb_eq in Heq.
        apply Hfresh. rewrite <- Heq. now apply in_map. }
      rewrite Hnone. simpl. lia.
    + rewrite length_app. simpl. lia.
    + rewrite map_app. simpl. apply NoDup_app; [exact Hnd | repeat constructor; auto |].
      intros x Hx [<-|[]]. now apply Hfresh.
Qed.

(** C5. From a store that keeps its unique keys and in which the rule
    exists, two calls of [saveLearnedPattern] in a row with the same
    arguments both return normally; the second leaves the store exactly as
    the first left it; the rule then points at a group under which exactly
    one FROM criterion has the value; at most one group carries the
    identifier the rule points at, and at most one group was created. *)
Theorem saveLearnedPattern_twice :
  forall (emailAccountId from ruleName : string) (w : World) (rule : RuleRow),
    db_unique (db w) ->
    find (isRule ruleName emailAccountId) (rules (db w)) = Some rule ->
    let w1 := snd (saveLearnedPattern emailAccountId from ruleName w) in
    let w2 := snd (saveLearnedPattern emailAccountId from ruleName w1) in
    fst (saveLearnedPattern emailAccountId from ruleName w) = Ok tt
    /\ fst (saveLearnedPattern emailAccountId from ruleName w1) = Ok tt
    /\ db w2 = db w1
    /\ exists rule' groupId,
         find (isRule ruleName emailAccountId) (rules (db w2)) = Some rule'
         /\ rule_id rule' = rule_id rule
         /\ rule_groupId rule' = Some groupId
         /\ length (rowsWith (isGroupItem groupId FROM from) (groupItems (db w2))) = 1
         /\ length (rowsWith (fun gr => group_id gr =? groupId) (groups (db w2))) <= 1
         /\ length (groups (db w2)) <= S (length (groups (db w))).
Proof.
  intros acct from name w rule [Hgroups Hitems] Hfind. cbv zeta.
  rewrite (saveLearnedPattern_found _ _ _ _ _ Hfind). simpl fst. simpl snd.
  set (g := targetGroupId (db w) rule).
  set (items1 := upsertRows (isGroupItem g FROM from) (fun r => r)
                   (mkGroupItemRow g FROM from exclude_default) (groupItems (db w))).
  set (d1 := set_groupItems (withTargetGroup (db w) acct name rule) items1).
  destruct (rule_after_group_step (db w) acct name rule Hfind)
    as (rule' & Hfind' & Hgid & Htruthy & Hid).
  fold g in Hgid.
  assert (Hrules1 : rules d1 = rules (withTargetGroup (db w) acct name rule)) by reflexivity.
  assert (Hgroups1 : groups d1 = groups (withTargetGroup (db w) acct name rule)) by reflexivity.
  assert (Hitems1 : groupItems d1 = items1) by reflexivity.
  assert (Htarget : targetGroupId d1 rule' = g).
  { unfold targetGroupId. rewrite Htruthy, Hgid. rewrite Hgid in Htruthy.
    unfold orEmpty. now rewrite Htruthy. }
  assert (Hkeep : withTargetGroup d1 acct name rule' = d1).
  { unfold withTargetGroup. now rewrite Htruthy. }
  assert (Hcount : length (rowsWith (isGroupItem g FROM from) items1) = 1).
  { unfold items1. rewrite count_upsert; [|auto|apply isGroupItem_refl].
    pose proof (unique_key_at_most_one groupItemKey (isGroupItem g FROM from) (g, FROM, from)
                  (groupItems (db w)) (isGroupItem_key g FROM from) Hitems).
    lia. }
  assert (Hpresent : existsb (isGroupItem g FROM from) items1 = true).
  { destruct (rowsWith (isGroupItem g FROM from) items1) as [|r ?] eqn:Hf; [discriminate|].
    assert (Hin : In r (rowsWith (isGroupItem g FROM from) items1)) by (rewrite Hf; now left).
    apply filter_In in Hin. apply existsb_exists. now exists r. }
  assert (Hrun2 : saveLearnedPattern acct from name
                    (mkWorld d1 (trace w ++ RuleFindUnique name acct
                                   :: targetGroupEvents acct name rule
                                   ++ [GroupItemUpsert g FROM from]))
                  = (Ok tt, mkWorld d1
                              ((trace w ++ RuleFindUnique name acct
                                  :: targetGroupEvents acct name rule
                                  ++ [GroupItemUpsert g FROM from])
                               ++ RuleFindUnique name acct
                                  :: targetGroupEvents acct name rule'
                                  ++ [GroupItemUpsert g FROM from]))).
  { rewrite (saveLearnedPattern_found acct from name _ rule') by exact Hfind'.
    simpl db. simpl trace. rewrite Htarget, Hkeep, Hitems1.
    rewrite upsert_same_when_present by exact Hpresent.
    rewrite <- Hitems1. now rewrite set_groupItems_same. }
  rewrite Hrun2. simpl fst. simpl snd. simpl db.
  repeat split; trivial.
  exists rule', g. rewrite Hrules1, Hgroups1, Hitems1.
  destruct (groups_after_group_step (db w) acct name rule Hgroups) as (Hone & Hgrow & _).
  repeat split; trivial.
Qed.

(** *** The two overwrite policies *)

Lemma isGroupItem_setExclude (groupId : string) (type : GroupItemType) (value : string)
    (e : bool) (r : GroupItemRow) :
  isGroupItem groupId type value (setExclude e r) = isGroupItem groupId type value r.
Proof. reflexivity. Qed.

Lemma upsertPattern_sets_flag (groupId : string) (items : list GroupItemRow) (p : Pattern) :
  criterionHasFlag groupId (pattern_type p) (pattern_value p) (orFalse (pattern_exclude p))
    (upsertPattern groupId items p).
Proof.
  unfold upsertPattern, upsertRows.
  set (hit := isGroupItem groupId (pattern_type p) (pattern_value p)).
  destruct (existsb hit items) eqn:Hex; split.
  - apply existsb_exists in Hex as (r & Hin & Hr).
    exists (setExclude (orFalse (pattern_exclude p)) r). split.
    + apply in_map_iff. exists r. now rewrite Hr.
    + exact Hr.
  - intros row Hin Hrow. apply in_map_iff in Hin as (r & <- & _).
    destruct (hit r) eqn:Hr; [reflexivity|]. unfold hit in Hr. congruence.
  - eexists. split; [apply in_or_app; right; now left | apply isGroupItem_refl].
  - intros row Hin Hrow. apply in_app_or in Hin as [Hin|[<-|[]]]; [|reflexivity].
    exfalso. assert (Hyes : existsb hit items = true)
      by (apply existsb_exists; now exists row).
    congruence.
Qed.

Lemma upsertPattern_keeps_flag (groupId : string) (type : GroupItemType) (value : string)
    (e : bool) (items : list GroupItemRow) (p : Pattern) :
  assertsKey type value p = false ->
  criterionHasFlag groupId type value e items ->
  criterionHasFlag groupId type value e (upsertPattern groupId items p).
Proof.
  intros Hother [(row0 & Hin0 & Hrow0) Hall].
  assert (Hdisjoint : forall r, isGroupItem groupId type value r = true ->
                                isGroupItem groupId (pattern_type p) (pattern_value p) r = false).
  { intros r Hr. destruct (isGroupItem groupId (pattern_type p) _ r) eqn:Hp; [|reflexivity].
    apply isGroupItem_key in Hr. apply isGroupItem_key in Hp. rewrite Hr in Hp.
    injection Hp as Ht Hv. unfold assertsKey in Hother. subst.
    now rewrite (proj2 (GroupItemType_eqb_eq _ _) eq_refl), String.eqb_refl in Hother. }
  unfold upsertPattern, upsertRows.
  set (hit := isGroupItem groupId (pattern_type p) (pattern_value p)) in *.
  destruct (existsb hit items); split.
  - exists row0. split; [|exact Hrow0].
    apply in_map_iff. exists row0. now rewrite (Hdisjoint row0 Hrow0).
  - intros row Hin Hrow. apply in_map_iff in Hin as (r & <- & Hin).
    destruct (hit r) eqn:Hr.
    + rewrite isGroupItem_setExclude in Hrow. apply Hdisjoint in Hrow. congruence.
    + now apply Hall.
  - exists row0. split; [apply in_or_app; now left | exact Hrow0].
  - intros row Hin Hrow. apply in_app_or in Hin as [Hin|[<-|[]]]; [now apply Hall|].
    apply Hdisjoint in Hrow. unfold hit in Hrow.
    now rewrite isGroupItem_refl in Hrow.
Qed.

Lemma fold_upsertPattern_keeps_flag (groupId : string) (type : GroupItemType) (value : string)
    (e : bool) :
  forall (post : list Pattern) (items : list GroupItemRow),
    forallb (fun q => negb (assertsKey type value q)) post = true ->
    criterionHasFlag groupId type value e items ->
    criterionHasFlag groupId type value e (fold_left (upsertPattern groupId) post items).
Proof.
  induction post as [|q post IH]; intros items Hpost Hflag; [exact Hflag|].
  simpl in *. apply andb_true_iff in Hpost as [Hq Hpost].
  apply IH; [exact Hpost|]. apply upsertPattern_keeps_flag; [|exact Hflag].
  now apply negb_true_iff.
Qed.

(** The single path leaves the rows of every key it finds in the table:
    it updates nothing, and the row it may create carries no key that was
    there. *)
Lemma single_upsert_keeps_key (groupId from : string) (type : GroupItemType) (value : string)
    (e : bool) (items : list GroupItemRow) :
  existsb (isGroupItem groupId type value) items = true ->
  rowsWith (isGroupItem groupId type value)
    (upsertRows (isGroupItem groupId FROM from) (fun r => r)
       (mkGroupItemRow groupId FROM from e) items)
  = rowsWith (isGroupItem groupId type value) items.
Proof.
  intros Hpresent. unfold upsertRows.
  destruct (existsb (isGroupItem groupId FROM from) items) eqn:Hfrom.
  - f_equal. rewrite <- (map_id items) at 2. apply map_ext. intros r.
    now destruct (isGroupItem groupId FROM from r).
  - unfold rowsWith. rewrite filter_app. simpl.
    destruct (isGroupItem groupId type value (mkGroupItemRow groupId FROM from e)) eqn:Hnew;
      [|apply app_nil_r].
    exfalso. apply isGroupItem_key in Hnew. unfold groupItemKey in Hnew. simpl in Hnew.
    injection Hnew as <- <-. congruence.
Qed.

(** C6. For a criterion (container, kind, value) that already exists in
    the group of the rule, whatever its kind: [saveLearnedPattern] called
    with that value leaves the rows of the key as they are, flag included
    (and the whole table when the kind is FROM, the one it writes);
    [saveLearnedPatterns] asserting the same key rewrites the flag in place
    to the asserted value, [true] stored as [true] and [false] as [false],
    and to [false] when the pattern does not say; in a longer list the last
    assertion of the key decides. *)
Theorem exclude_flag_overwrite_policies :
  forall (emailAccountId ruleName value : string) (type : GroupItemType) (w : World)
         (rule : RuleRow) (groupId : string) (row : GroupItemRow),
    find (isRule ruleName emailAccountId) (rules (db w)) = Some rule ->
    rule_groupId rule = Some groupId ->
    groupId <> EmptyString ->
    In row (groupItems (db w)) ->
    isGroupItem groupId type value row = true ->
    let single := db (snd (saveLearnedPattern emailAccountId value ruleName w)) in
    let bulk patterns := db (snd (saveLearnedPatterns emailAccountId ruleName patterns w)) in
    let rewritten flag :=
      map (fun r => if isGroupItem groupId type value r
                    then mkGroupItemRow (gi_groupId r) (gi_type r) (gi_value r) flag
                    else r)
        (groupItems (db w)) in
    rowsWith (isGroupItem groupId type value) (groupItems single)
    = rowsWith (isGroupItem groupId type value) (groupItems (db w))
    /\ In row (groupItems single)
    /\ (type = FROM -> groupItems single = groupItems (db w))
    /\ (forall asserted : bool,
          groupItems (bulk [mkPattern type value (Some asserted)]) = rewritten asserted)
    /\ groupItems (bulk [mkPattern type value None]) = rewritten false
    /\ (forall (pre post : list Pattern) (asserted : bool),
          forallb (fun q => negb (assertsKey type value q)) post = true ->
          criterionHasFlag groupId type value asserted
            (groupItems (bulk (pre ++ mkPattern type value (Some asserted) :: post))))
    /\ (forall (pre post : list Pattern),
          forallb (fun q => negb (assertsKey type value q)) post = true ->
          criterionHasFlag groupId type value false
            (groupItems (bulk (pre ++ mkPattern type value None :: post)))).
Proof.
  intros acct name value type w rule g row Hfind Hgid Hne Hin Hrow. cbv zeta.
  assert (Htruthy : truthy (rule_groupId rule) = true).
  { rewrite Hgid. simpl. apply negb_true_iff. now apply String.eqb_neq. }
  assert (Htarget : targetGroupId (db w) rule = g).
  { unfold targetGroupId, orEmpty. now rewrite Htruthy, Hgid. }
  assert (Hpresent : existsb (isGroupItem g type value) (groupItems (db w)) = true)
    by (apply existsb_exists; now exists row).
  assert (Hkept : rowsWith (isGroupItem g type value)
                    (groupItems (db (snd (saveLearnedPattern acct value name w))))
                  = rowsWith (isGroupItem g type value) (groupItems (db w))).
  { rewrite (saveLearnedPattern_found _ _ _ _ _ Hfind). simpl. rewrite Htarget.
    now apply single_upsert_keeps_key. }
  assert (Hbulk : forall exclude,
             groupItems (db (snd (saveLearnedPatterns acct name
                                    [mkPattern type value exclude] w)))
             = map (fun r => if isGroupItem g type value r
                             then setExclude (orFalse exclude) r else r)
                 (groupItems (db w))).
  { intros exclude. rewrite (saveLearnedPatterns_found _ _ _ _ _ Hfind). simpl.
    rewrite Htarget. unfold upsertPattern, upsertRows. simpl. now rewrite Hpresent. }
  assert (Hlast : forall pre post exclude,
             forallb (fun q => negb (assertsKey type value q)) post = true ->
             criterionHasFlag g type value (orFalse exclude)
               (groupItems (db (snd (saveLearnedPatterns acct name
                                       (pre ++ mkPattern type value exclude :: post) w))))).
  { intros pre post exclude Hpost.
    rewrite (saveLearnedPatterns_found _ _ _ _ _ Hfind). simpl. rewrite Htarget.
    rewrite fold_left_app. simpl.
    apply fold_upsertPattern_keeps_flag; [exact Hpost|].
    apply (upsertPattern_sets_flag g _ (mkPattern type value exclude)). }
  split; [exact Hkept|]. split; [|split; [|split; [|split; [|split]]]].
  - assert (Hrows : In row (rowsWith (isGroupItem g type value) (groupItems (db w))))
      by (apply filter_In; now split).
    rewrite <- Hkept in Hrows. now apply filter_In in Hrows.
  - intros ->. rewrite (saveLearnedPattern_found _ _ _ _ _ Hfind). simpl. rewrite Htarget.
    now apply upsert_same_when_present.
  - intros [|]; [exact (Hbulk (Some true)) | exact (Hbulk (Some false))].
  - exact (Hbulk None).
  - intros pre post [|];
      [exact (Hlast pre post (Some true)) | exact (Hlast pre post (Some false))].
  - intros pre post. exact (Hlast pre post None).
Qed.

(** *** The background process *)

Section ProcessFacts.
Context {EU : EmailUtils} {CO : Collaborators}.

Lemma getEmailAccountWithRules_run (emailAccountId : string) (w : World) :
  getEmailAccountWithRules emailAccountId w
  = (Ok (option_map (selectEmailAccount (db w))
           (find (fun r => ea_id r =? emailAccountId) (emailAccounts (db w)))),
     after_events w [EmailAccountFindUnique emailAccountId]).
Proof. reflexivity. Qed.

Lemma savePatternCheck_run (emailAccountId from : string) (w : World) :
  savePatternCheck emailAccountId from w
  = (Ok tt,
     mkWorld
       (set_newsletters (db w)
          (upsertRows (isNewsletter from emailAccountId)
             (fun r => mkNewsletterRow (nl_email r) (nl_emailAccountId r) true (Some Date_now))
             (mkNewsletterRow from emailAccountId true (Some Date_now))
             (newsletters (db w))))
       (trace w ++ [NewsletterUpsert from emailAccountId])).
Proof. reflexivity. Qed.

(** The ledger write closes the sender: its row is there, marked analyzed,
    with the time of the write. *)
Lemma savePatternCheck_closes (emailAccountId from : string) (w : World) :
  exists row,
    senderCheck (db (snd (savePatternCheck emailAccountId from w))) from emailAccountId
    = Some row
    /\ nl_email row = from /\ nl_emailAccountId row = emailAccountId
    /\ nl_patternAnalyzed row = true /\ nl_lastAnalyzedAt row = Some Date_now.
Proof.
  rewrite savePatternCheck_run. unfold senderCheck. simpl.
  rewrite find_upsert.
  - destruct (find _ _) as [r|] eqn:Hfind.
    + eexists. split; [reflexivity|]. simpl.
      apply find_some in Hfind as [_ Hr]. unfold isNewsletter in Hr.
      apply andb_true_iff in Hr as [He Ha]. apply String.eqb_eq in He, Ha. auto.
    + eexists. split; [reflexivity|]. simpl. auto.
  - intros r Hr. exact Hr.
  - unfold isNewsletter. simpl. now rewrite !String.eqb_refl.
Qed.

(** [saveLearnedPattern] always returns, and touches neither the accounts
    nor the ledger. *)
Lemma saveLearnedPattern_total (emailAccountId from ruleName : string) (w : World) :
  fst (saveLearnedPattern emailAccountId from ruleName w) = Ok tt
  /\ newsletters (db (snd (saveLearnedPattern emailAccountId from ruleName w)))
     = newsletters (db w)
  /\ emailAccounts (db (snd (saveLearnedPattern emailAccountId from ruleName w)))
     = emailAccounts (db w).
Proof.
  destruct (find (isRule ruleName emailAccountId) (rules (db w))) as [rule|] eqn:Hfind.
  - rewrite (saveLearnedPattern_found _ _ _ _ _ Hfind). simpl.
    unfold withTargetGroup. destruct (truthy (rule_groupId rule)); auto.
  - rewrite (saveLearnedPattern_absent _ _ _ _ Hfind). auto.
Qed.

Lemma bind_ok {A B} (m : M A) (k : A -> M B) (w w' : World) (a : A) :
  m w = (Ok a, w') -> bind m k w = k a w'.
Proof. intros H. unfold bind. now rewrite H. Qed.

Lemma bind_throw {A B} (m : M A) (k : A -> M B) (w w' : World) (e : string) :
  m w = (Throw e, w') -> bind m k w = (Throw e, w').
Proof. intros H. unfold bind. now rewrite H. Qed.

Lemma emit_run (ev : Event) (w : World) : emit ev w = (Ok tt, after_events w [ev]).
Proof. reflexivity. Qed.

Lemma logger_run (level : LogLevel) (msg : string) (w : World) :
  logger level msg w = (Ok tt, after_events w [Log level msg]).
Proof. reflexivity. Qed.

Lemma prisma_newsletter_findUnique_run (email emailAccountId : string) (w : World) :
  prisma_newsletter_findUnique email emailAccountId w
  = (Ok (senderCheck (db w) email emailAccountId),
     after_events w [NewsletterFindUnique email emailAccountId]).
Proof. reflexivity. Qed.

Lemma found_account_id (emailAccountId : string) (d : DB) (r : EmailAccountRow) :
  find (fun r => ea_id r =? emailAccountId) (emailAccounts d) = Some r ->
  ea_id r = emailAccountId.
Proof.
  intros H. apply find_some in H as [_ H]. now apply String.eqb_eq in H.
Qed.

Lemma processBody_no_account (emailAccountId from : string) (w : World) :
  find (fun r => ea_id r =? emailAccountId) (emailAccounts (db w)) = None ->
  processBody emailAccountId from w
  = (Ok (NextResponse_json (BodySuccess false) 404),
     after_events w [EmailAccountFindUnique emailAccountId;
                     Log LError "Email account not found"]).
Proof.
  intros Hacc. unfold processBody.
  rewrite (bind_ok _ _ _ _ _ (getEmailAccountWithRules_run emailAccountId w)).
  rewrite Hacc. unfold option_map. cbv iota beta.
  rewrite (bind_ok _ _ _ _ _ (logger_run _ _ _)). cbv beta.
  rewrite !after_events_app. reflexivity.
Qed.

Lemma processBody_analyzed (emailAccountId from : string) (w : World) (r : EmailAccountRow) :
  find (fun r => ea_id r =? emailAccountId) (emailAccounts (db w)) = Some r ->
  patternAnalyzed (senderCheck (db w) (extractEmailAddress from) emailAccountId) = true ->
  processBody emailAccountId from w
  = (Ok (NextResponse_json (BodySuccess true) 200),
     after_events w [EmailAccountFindUnique emailAccountId;
                     NewsletterFindUnique (extractEmailAddress from) emailAccountId;
                     Log LInfo "Sender has already been analyzed"]).
Proof.
  intros Hacc Hcheck. pose proof (found_account_id _ _ _ Hacc) as Hid.
  unfold processBody.
  rewrite (bind_ok _ _ _ _ _ (getEmailAccountWithRules_run emailAccountId w)).
  rewrite Hacc. unfold option_map. cbv iota beta.
  rewrite (bind_ok _ _ _ _ _ (prisma_newsletter_findUnique_run _ _ _)). cbv beta.
  change (sel_id (selectEmailAccount (db w) r)) with (ea_id r).
  change (db (after_events w [EmailAccountFindUnique emailAccountId])) with (db w).
  rewrite Hid, Hcheck.
  rewrite (bind_ok _ _ _ _ _ (logger_run _ _ _)). cbv beta.
  rewrite !after_events_app. reflexivity.
Qed.

Lemma processBody_no_tokens (emailAccountId from : string) (w : World) (r : EmailAccountRow) :
  find (fun r => ea_id r =? emailAccountId) (emailAccounts (db w)) = Some r ->
  patternAnalyzed (senderCheck (db w) (extractEmailAddress from) emailAccountId) = false ->
  negb (truthy (opt_access_token (ea_account r)))
  || negb (truthy (opt_refresh_token (ea_account r))) = true ->
  processBody emailAccountId from w
  = (Ok (NextResponse_json (BodySuccess false) 404),
     after_events w [EmailAccountFindUnique emailAccountId;
                     NewsletterFindUnique (extractEmailAddress from) emailAccountId;
                     Log LError "No Gmail account found"]).
Proof.
  intros Hacc Hcheck Htok. pose proof (found_account_id _ _ _ Hacc) as Hid.
  unfold processBody.
  rewrite (bind_ok _ _ _ _ _ (getEmailAccountWithRules_run emailAccountId w)).
  rewrite Hacc. unfold option_map. cbv iota beta.
  rewrite (bind_ok _ _ _ _ _ (prisma_newsletter_findUnique_run _ _ _)). cbv beta.
  change (sel_id (selectEmailAccount (db w) r)) with (ea_id r).
  change (sel_account (selectEmailAccount (db w) r)) with (ea_account r).
  change (db (after_events w [EmailAccountFindUnique emailAccountId])) with (db w).
  rewrite Hid, Hcheck, Htok.
  rewrite (bind_ok _ _ _ _ _ (logger_run _ _ _)). cbv beta.
  rewrite !after_events_app. reflexivity.
Qed.

Lemma processBody_client_throws (emailAccountId from : string) (w : World)
    (r : EmailAccountRow) (e : string) :
  find (fun r => ea_id r =? emailAccountId) (emailAccounts (db w)) = Some r ->
  patternAnalyzed (senderCheck (db w) (extractEmailAddress from) emailAccountId) = false ->
  negb (truthy (opt_access_token (ea_account r)))
  || negb (truthy (opt_refresh_token (ea_account r))) = false ->
  getGmailClientWithRefresh (orEmpty (opt_access_token (ea_account r)))
    (orEmpty (opt_refresh_token (ea_account r))) (opt_expires_at (ea_account r))
    emailAccountId = Throw e ->
  processBody emailAccountId from w
  = (Throw e,
     after_events w [EmailAccountFindUnique emailAccountId;
                     NewsletterFindUnique (extractEmailAddress from) emailAccountId;
                     GmailClientWithRefresh emailAccountId]).
Proof.
  intros Hacc Hcheck Htok Hgmail. pose proof (found_account_id _ _ _ Hacc) as Hid.
  unfold processBody.
  rewrite (bind_ok _ _ _ _ _ (getEmailAccountWithRules_run emailAccountId w)).
  rewrite Hacc. unfold option_map. cbv iota beta.
  rewrite (bind_ok _ _ _ _ _ (prisma_newsletter_findUnique_run _ _ _)). cbv beta.
  change (sel_id (selectEmailAccount (db w) r)) with (ea_id r).
  change (sel_account (selectEmailAccount (db w) r)) with (ea_account r).
  change (db (after_events w [EmailAccountFindUnique emailAccountId])) with (db w).
  rewrite Hid, Hcheck, Htok.
  rewrite (bind_ok _ _ _ _ _ (emit_run _ _)). cbv beta.
  rewrite !after_events_app. simpl app.
  erewrite bind_throw by (unfold await; rewrite Hgmail; reflexivity).
  reflexivity.
Qed.

Lemma processBody_to_fetch (emailAccountId from : string) (w : World) (r : EmailAccountRow)
    (gmail : Gmail) :
  reachesProvider emailAccountId from w r gmail ->
  processBody emailAccountId from w
  = match getThreadsFromSender gmail from MAX_RESULTS
            (after_events w (fetchPrefix emailAccountId from)) with
    | (Throw e, w1) => (Throw e, w1)
    | (Ok ts, w1) =>
        if Nat.eqb (length ts) 0
        then (Ok (NextResponse_json (BodySuccess true) 200),
              after_events w1 [Log LInfo "No threads found from this sender"])
        else if Nat.ltb (length (flat_map messages ts)) THRESHOLD_EMAILS
        then (Ok (NextResponse_json (BodySuccess true) 200),
              after_events w1 [Log LInfo "Not enough emails found from this sender"])
        else
          let emailAccount := selectEmailAccount (db w) r in
          let emails := map getEmailForLLM (flat_map messages ts) in
          let asked := after_events w1
                         [AiDetectRecurringPattern emails (candidateRules emailAccount)] in
          match aiDetectRecurringPattern emails emailAccount (candidateRules emailAccount) with
          | Throw e => (Throw e, asked)
          | Ok patternResult =>
              let learned :=
                if truthy (opt_matchedRule patternResult)
                then snd (saveLearnedPattern emailAccountId from
                            (orEmpty (opt_matchedRule patternResult)) asked)
                else asked in
              (Ok (NextResponse_json (BodySuccess true) 200),
               snd (savePatternCheck emailAccountId from learned))
          end
    end.
Proof.
  intros (Hacc & Hcheck & Hat & Hrt & Hgmail).
  pose proof (found_account_id _ _ _ Hacc) as Hid.
  unfold processBody.
  rewrite (bind_ok _ _ _ _ _ (getEmailAccountWithRules_run emailAccountId w)).
  rewrite Hacc. unfold option_map. cbv iota beta.
  rewrite (bind_ok _ _ _ _ _ (prisma_newsletter_findUnique_run _ _ _)). cbv beta.
  change (sel_id (selectEmailAccount (db w) r)) with (ea_id r).
  change (sel_account (selectEmailAccount (db w) r)) with (ea_account r).
  change (db (after_events w [EmailAccountFindUnique emailAccountId])) with (db w).
  rewrite Hid.
  rewrite Hcheck, Hat, Hrt. cbn [negb orb]. cbv iota.
  rewrite (bind_ok _ _ _ _ _ (emit_run _ _)). cbv beta.
  rewrite !after_events_app. simpl app.
  erewrite bind_ok by (unfold await; rewrite Hgmail; reflexivity). cbv beta.
  fold (fetchPrefix emailAccountId from).
  unfold bind at 1.
  destruct (getThreadsFromSender gmail from MAX_RESULTS _) as [[ts|e] w1]; [|reflexivity].
  destruct (Nat.eqb (length ts) 0).
  { rewrite (bind_ok _ _ _ _ _ (logger_run _ _ _)). reflexivity. }
  destruct (Nat.ltb _ THRESHOLD_EMAILS).
  { rewrite (bind_ok _ _ _ _ _ (logger_run _ _ _)). reflexivity. }
  cbv zeta.
  rewrite (bind_ok _ _ _ _ _ (emit_run _ _)).
  unfold bind at 1. unfold await at 1.
  destruct (aiDetectRecurringPattern _ _ _) as [patternResult|e]; [|reflexivity].
  destruct (truthy (opt_matchedRule patternResult)).
  - erewrite bind_ok
      by (rewrite (surjective_pairing (saveLearnedPattern _ _ _ _));
          rewrite (proj1 (saveLearnedPattern_total _ _ _ _)); reflexivity).
    rewrite (bind_ok _ _ _ _ _ (savePatternCheck_run _ _ _)). reflexivity.
  - erewrite bind_ok by reflexivity.
    rewrite (bind_ok _ _ _ _ _ (savePatternCheck_run _ _ _)). reflexivity.
Qed.

Lemma process_ok (emailAccountId from : string) (w w' : World) (res : Response) :
  processBody emailAccountId from w = (Ok res, w') ->
  process emailAccountId from w = (Ok res, w').
Proof.
  intros H. unfold process, tryCatch. now rewrite H.
Qed.

Lemma getThreadsFromSender_result (gmail : Gmail) (sender : string) (maxResults : nat)
    (w w0 : World) :
  fst (getThreadsFromSender gmail sender maxResults w)
  = fst (getThreadsFromSender gmail sender maxResults w0).
Proof.
  rewrite !getThreadsFromSender_eq. cbv zeta.
  destruct (getThreads _ _ _ _); [apply collectThreads_result | reflexivity].
Qed.

Lemma getThreadsFromSender_frame (gmail : Gmail) (sender : string) (maxResults : nat)
    (w : World) :
  exists evs,
    snd (getThreadsFromSender gmail sender maxResults w)
    = after_events w (GmailGetThreads (senderQuery (extractEmailAddress sender)) maxResults
                        :: evs)
    /\ forallb threadEvent evs = true.
Proof.
  rewrite getThreadsFromSender_eq. cbv zeta.
  destruct (getThreads _ _ _ _) as [threads|e].
  - destruct (collectThreads_frame gmail (extractEmailAddress sender) threads []
                (after_events w [GmailGetThreads (senderQuery (extractEmailAddress sender))
                                   maxResults]))
      as (evs & Hsnd & Hq).
    exists evs. rewrite Hsnd, after_events_app. split; [reflexivity | exact Hq].
  - exists []. split; reflexivity.
Qed.

Lemma mailOnly_quiet (evs : list Event) :
  forallb mailOnly evs = true ->
  existsb isOracleCall evs = false /\ existsb isWrite evs = false.
Proof.
  induction evs as [|ev rest IH]; simpl; [auto|].
  intros H. apply andb_true_iff in H as [Hev Hrest].
  destruct (IH Hrest) as [Ho Hw]. rewrite Ho, Hw.
  unfold mailOnly in Hev. apply andb_true_iff in Hev as [H1 H2].
  apply negb_true_iff in H1, H2. now rewrite H1, H2.
Qed.

(** C1. When the Sender Check row of the sender (looked up under the
    normalised address) is marked analyzed, a run of [process] returns
    normally with the store untouched, and the events it adds contain no
    call to the mail provider or to the oracle and no write; for an account
    that exists the run is exactly the two lookups and a log line, answered
    with success. *)
Theorem process_already_analyzed_noop :
  forall (emailAccountId from : string) (w : World) (row : NewsletterRow),
    senderCheck (db w) (extractEmailAddress from) emailAccountId = Some row ->
    nl_patternAnalyzed row = true ->
    exists res evs,
      process emailAccountId from w = (Ok res, after_events w evs)
      /\ db (snd (process emailAccountId from w)) = db w
      /\ existsb isNetworkCall evs = false
      /\ existsb isWrite evs = false
      /\ (forall r,
            find (fun r => ea_id r =? emailAccountId) (emailAccounts (db w)) = Some r ->
            res = NextResponse_json (BodySuccess true) 200
            /\ evs = [EmailAccountFindUnique emailAccountId;
                      NewsletterFindUnique (extractEmailAddress from) emailAccountId;
                      Log LInfo "Sender has already been analyzed"]).
Proof.
  intros acct from w row Hrow Hanalyzed.
  assert (Hcheck : patternAnalyzed (senderCheck (db w) (extractEmailAddress from) acct) = true)
    by (rewrite Hrow; exact Hanalyzed).
  destruct (find (fun r => ea_id r =? acct) (emailAccounts (db w))) as [r|] eqn:Hacc.
  - pose proof (process_ok _ _ _ _ _ (processBody_analyzed _ _ _ _ Hacc Hcheck)) as Hrun.
    rewrite Hrun.
    do 2 eexists. do 4 (split; [reflexivity|]).
    intros r' Hr'. split; reflexivity.
  - pose proof (process_ok _ _ _ _ _ (processBody_no_account _ from _ Hacc)) as Hrun.
    rewrite Hrun.
    do 2 eexists. do 4 (split; [reflexivity|]).
    intros r' Hr'. discriminate.
Qed.

(** The search inside a run: it returns what it returns in any world, and
    adds provider calls and log lines only. *)
Lemma fetch_in_run (emailAccountId from : string) (w : World) (gmail : Gmail)
    (ts : list ThreadWithMessages) :
  fst (getThreadsFromSender gmail from MAX_RESULTS w) = Ok ts ->
  exists evs,
    getThreadsFromSender gmail from MAX_RESULTS (after_events w (fetchPrefix emailAccountId from))
    = (Ok ts, after_events w (fetchPrefix emailAccountId from ++ evs))
    /\ existsb isOracleCall (fetchPrefix emailAccountId from ++ evs) = false
    /\ existsb isWrite (fetchPrefix emailAccountId from ++ evs) = false.
Proof.
  intros Hts.
  rewrite (getThreadsFromSender_result gmail from MAX_RESULTS w
             (after_events w (fetchPrefix emailAccountId from))) in Hts.
  destruct (getThreadsFromSender_frame gmail from MAX_RESULTS
              (after_events w (fetchPrefix emailAccountId from))) as (evs & Hsnd & Hq).
  apply threadEvent_mailOnly, mailOnly_quiet in Hq as [Horacle Hwrite].
  exists (GmailGetThreads (senderQuery (extractEmailAddress from)) MAX_RESULTS :: evs).
  destruct (getThreadsFromSender gmail from MAX_RESULTS _) as [res w1].
  simpl in Hts, Hsnd. subst res w1. rewrite after_events_app.
  split; [reflexivity|]. rewrite !existsb_app. simpl. now rewrite Horacle, Hwrite.
Qed.

(** C4. A run that gets to the mail provider and is handed fewer than
    three messages over the threads that survive the filter (none at all
    when no thread was fetched) returns success, not an error; the store is
    untouched, so neither a Sender Check row nor a criterion is written; the
    oracle is not called; and the sender is still not marked analyzed, so
    the next trigger analyses it again.  (What the filter returns does not
    depend on the world it runs in, so it is named here at [w].) *)
Theorem process_insufficient_evidence :
  forall (emailAccountId from : string) (w : World) (r : EmailAccountRow) (gmail : Gmail)
         (ts : list ThreadWithMessages),
    reachesProvider emailAccountId from w r gmail ->
    fst (getThreadsFromSender gmail from MAX_RESULTS w) = Ok ts ->
    length (flat_map messages ts) < THRESHOLD_EMAILS ->
    exists evs,
      process emailAccountId from w
      = (Ok (NextResponse_json (BodySuccess true) 200), after_events w evs)
      /\ db (snd (process emailAccountId from w)) = db w
      /\ existsb isOracleCall evs = false
      /\ existsb isWrite evs = false
      /\ patternAnalyzed
           (senderCheck (db (snd (process emailAccountId from w)))
              (extractEmailAddress from) emailAccountId) = false.
Proof.
  intros acct from w r gmail ts Hreach Hts Hfew.
  pose proof Hreach as (_ & Hcheck & _).
  pose proof (processBody_to_fetch _ _ _ _ _ Hreach) as Hbody.
  destruct (fetch_in_run acct from w gmail ts Hts) as (evs & Hfetch & Horacle & Hwrite).
  rewrite Hfetch in Hbody. apply Nat.ltb_lt in Hfew. rewrite Hfew in Hbody.
  destruct (Nat.eqb (length ts) 0);
    rewrite after_events_app in Hbody; apply process_ok in Hbody; rewrite Hbody;
    eexists; (split; [reflexivity|]); (split; [reflexivity|]);
    rewrite (existsb_app isOracleCall), (existsb_app isWrite), Horacle, Hwrite; auto.
Qed.

(** C3. When the search returns a thread list and the messages of its
    threads can be fetched, a single message whose normalised sender differs
    from the normalised address under analysis, in any one of the threads,
    makes [getThreadsFromSender] return the empty list for the whole
    sender: the one-way threads collected before it are dropped too.  A
    run of [process] that gets to the provider then ends with success
    without calling the oracle and without writing anything. *)
Theorem getThreadsFromSender_conversation_empties :
  forall (gmail : Gmail) (sender : string) (maxResults : nat) (w : World)
         (threads : list string),
    getThreads (senderQuery (extractEmailAddress sender)) [] gmail maxResults = Ok threads ->
    (forall id, In id threads -> exists msgs, getThreadMessages id gmail = Ok msgs) ->
    (exists id msgs m,
        In id threads /\ getThreadMessages id gmail = Ok msgs /\ In m msgs
        /\ extractEmailAddress (h_from (msg_headers m)) <> extractEmailAddress sender) ->
    fst (getThreadsFromSender gmail sender maxResults w) = Ok []
    /\ (maxResults = MAX_RESULTS ->
        forall (emailAccountId : string) (w0 : World) (r : EmailAccountRow),
          reachesProvider emailAccountId sender w0 r gmail ->
          exists evs,
            process emailAccountId sender w0
            = (Ok (NextResponse_json (BodySuccess true) 200), after_events w0 evs)
            /\ db (snd (process emailAccountId sender w0)) = db w0
            /\ existsb isOracleCall evs = false
            /\ existsb isWrite evs = false).
Proof.
  intros gmail sender n w threads Hsearch Hfetch Hconv.
  split; [now apply (getThreadsFromSender_conversation gmail sender n w threads)|].
  intros -> acct w0 r Hreach.
  pose proof (getThreadsFromSender_conversation gmail sender MAX_RESULTS w0 threads
                Hsearch Hfetch Hconv) as Hempty.
  pose proof (processBody_to_fetch _ _ _ _ _ Hreach) as Hbody.
  destruct (fetch_in_run acct sender w0 gmail [] Hempty) as (evs & Hrun & Horacle & Hwrite).
  rewrite Hrun in Hbody. cbn [length Nat.eqb] in Hbody.
  rewrite after_events_app in Hbody. apply process_ok in Hbody. rewrite Hbody.
  eexists. split; [reflexivity|]. split; [reflexivity|].
  rewrite (existsb_app isOracleCall), (existsb_app isWrite), Horacle, Hwrite. auto.
Qed.

(** C2. A run that gets to the oracle (the filter hands over at least
    three messages, hence a non-empty thread list) and is answered by it
    returns success and leaves the Sender Check row of (account, sender)
    marked analyzed with the time of the write, whether or not the answer
    names a rule; when it names none, the rules, groups and criteria are as
    before, so no criterion is created. *)
Theorem process_oracle_answer_closes_sender :
  forall (emailAccountId from : string) (w : World) (r : EmailAccountRow) (gmail : Gmail)
         (ts : list ThreadWithMessages) (patternResult : option PatternResult),
    reachesProvider emailAccountId from w r gmail ->
    fst (getThreadsFromSender gmail from MAX_RESULTS w) = Ok ts ->
    THRESHOLD_EMAILS <= length (flat_map messages ts) ->
    aiDetectRecurringPattern (map getEmailForLLM (flat_map messages ts))
      (selectEmailAccount (db w) r) (candidateRules (selectEmailAccount (db w) r))
    = Ok patternResult ->
    let w' := snd (process emailAccountId from w) in
    fst (process emailAccountId from w) = Ok (NextResponse_json (BodySuccess true) 200)
    /\ ts <> []
    /\ (exists row,
          senderCheck (db w') from emailAccountId = Some row
          /\ nl_patternAnalyzed row = true
          /\ nl_lastAnalyzedAt row = Some Date_now)
    /\ (truthy (opt_matchedRule patternResult) = false ->
        groupItems (db w') = groupItems (db w)
        /\ groups (db w') = groups (db w)
        /\ rules (db w') = rules (db w)).
Proof.
  intros acct from w r gmail ts verdict Hreach Hts Hmany Horacle. cbv zeta.
  pose proof (processBody_to_fetch _ _ _ _ _ Hreach) as Hbody.
  rewrite (getThreadsFromSender_result gmail from MAX_RESULTS w
             (after_events w (fetchPrefix acct from))) in Hts.
  destruct (getThreadsFromSender_frame gmail from MAX_RESULTS
              (after_events w (fetchPrefix acct from))) as (evs & Hsnd & _).
  destruct (getThreadsFromSender gmail from MAX_RESULTS _) as [res w1].
  simpl in Hts, Hsnd. subst res w1. rewrite after_events_app in Hbody.
  assert (Hne : ts <> []).
  { intros ->. simpl in Hmany. unfold THRESHOLD_EMAILS in Hmany. lia. }
  assert (Hlen : Nat.eqb (length ts) 0 = false).
  { apply Nat.eqb_neq. destruct ts; [congruence | simpl; lia]. }
  assert (Hge : Nat.ltb (length (flat_map messages ts)) THRESHOLD_EMAILS = false)
    by (apply Nat.ltb_ge; exact Hmany).
  rewrite Hlen, Hge in Hbody. cbv zeta in Hbody. rewrite Horacle in Hbody.
  apply process_ok in Hbody. rewrite Hbody. cbn [fst snd].
  match goal with
  | |- context [savePatternCheck acct from ?l] => set (learned := l)
  end.
  split; [reflexivity|]. split; [exact Hne|]. split.
  - destruct (savePatternCheck_closes acct from learned) as (row & Hrow & _ & _ & Ha & Ht).
    exists row. auto.
  - intros Hnone. subst learned. rewrite Hnone. repeat split; reflexivity.
Qed.

(** When the oracle rejects, the failure is caught: the run answers with
    the failure response and the store is as before, so the sender stays
    open for a later trigger. *)
Lemma process_oracle_failure_leaves_open (emailAccountId from : string) (w : World)
    (r : EmailAccountRow) (gmail : Gmail) (ts : list ThreadWithMessages) (e : string) :
  reachesProvider emailAccountId from w r gmail ->
  fst (getThreadsFromSender gmail from MAX_RESULTS w) = Ok ts ->
  THRESHOLD_EMAILS <= length (flat_map messages ts) ->
  aiDetectRecurringPattern (map getEmailForLLM (flat_map messages ts))
    (selectEmailAccount (db w) r) (candidateRules (selectEmailAccount (db w) r))
  = Throw e ->
  fst (process emailAccountId from w)
  = Ok (NextResponse_json (BodyError "Failed to detect pattern") 500)
  /\ db (snd (process emailAccountId from w)) = db w.
Proof.
  intros Hreach Hts Hmany Horacle.
  pose proof (processBody_to_fetch _ _ _ _ _ Hreach) as Hbody.
  rewrite (getThreadsFromSender_result gmail from MAX_RESULTS w
             (after_events w (fetchPrefix emailAccountId from))) in Hts.
  destruct (getThreadsFromSender_frame gmail from MAX_RESULTS
              (after_events w (fetchPrefix emailAccountId from))) as (evs & Hsnd & _).
  destruct (getThreadsFromSender gmail from MAX_RESULTS _) as [res w1].
  simpl in Hts, Hsnd. subst res w1.
  assert (Hlen : Nat.eqb (length ts) 0 = false).
  { apply Nat.eqb_neq. destruct ts; simpl in *; unfold THRESHOLD_EMAILS in *; lia. }
  assert (Hge : Nat.ltb (length (flat_map messages ts)) THRESHOLD_EMAILS = false)
    by (apply Nat.ltb_ge; exact Hmany).
  rewrite Hlen, Hge in Hbody. cbv zeta in Hbody. rewrite Horacle in Hbody.
  unfold process, tryCatch. rewrite Hbody. split; reflexivity.
Qed.

(** *** The key under which a run reads and writes *)

Lemma rowsKeyedBy_refl (k : string) (d d' : DB) :
  newsletters d' = newsletters d -> groupItems d' = groupItems d -> rowsKeyedBy k d d'.
Proof.
  intros Hn Hg. split; intros x Hx; left; congruence.
Qed.

Lemma in_upsertRows {R : Type} (matches : R -> bool) (update : R -> R) (create row : R)
    (rows : list R) :
  In row (upsertRows matches update create rows) ->
  In row rows \/ row = create \/ exists r, In r rows /\ matches r = true /\ row = update r.
Proof.
  unfold upsertRows. destruct (existsb matches rows).
  - intros Hin. apply in_map_iff in Hin as (r & <- & Hin).
    destruct (matches r) eqn:Hr; [|now left].
    right. right. now exists r.
  - intros Hin. apply in_app_or in Hin as [Hin|[<-|[]]]; auto.
Qed.

Lemma threadEvent_usesSenderKey (k : string) (evs : list Event) :
  forallb threadEvent evs = true -> forallb (usesSenderKey k) evs = true.
Proof.
  induction evs as [|ev rest IH]; simpl; [reflexivity|].
  intros H. apply andb_true_iff in H as [Hev Hrest].
  rewrite (IH Hrest). destruct ev; try discriminate; reflexivity.
Qed.

Lemma saveLearnedPattern_footprint (emailAccountId from ruleName : string) (w : World) :
  exists evs,
    trace (snd (saveLearnedPattern emailAccountId from ruleName w)) = trace w ++ evs
    /\ forallb (usesSenderKey from) evs = true
    /\ rowsKeyedBy from (db w) (db (snd (saveLearnedPattern emailAccountId from ruleName w))).
Proof.
  destruct (find (isRule ruleName emailAccountId) (rules (db w))) as [rule|] eqn:Hfind.
  - rewrite (saveLearnedPattern_found _ _ _ _ _ Hfind). cbn [fst snd db trace].
    eexists. split; [reflexivity|]. split.
    + unfold targetGroupEvents. destruct (truthy (rule_groupId rule)); simpl;
        now rewrite String.eqb_refl.
    + split.
      * intros row Hrow. left. revert Hrow. unfold withTargetGroup.
        now destruct (truthy (rule_groupId rule)).
      * intros item Hitem. simpl in Hitem.
        apply in_upsertRows in Hitem as [Hin|[->|(r & Hin & _ & ->)]]; auto.
  - rewrite (saveLearnedPattern_absent _ _ _ _ Hfind). cbn [fst snd].
    eexists. split; [reflexivity|]. split; [reflexivity|].
    now apply rowsKeyedBy_refl.
Qed.

Lemma savePatternCheck_footprint (emailAccountId from : string) (w : World) :
  trace (snd (savePatternCheck emailAccountId from w))
  = trace w ++ [NewsletterUpsert from emailAccountId]
  /\ rowsKeyedBy from (db w) (db (snd (savePatternCheck emailAccountId from w))).
Proof.
  rewrite savePatternCheck_run. cbn [fst snd db trace]. split; [reflexivity|]. split.
  - intros row Hrow. simpl in Hrow.
    apply in_upsertRows in Hrow as [Hin|[->|(r & Hin & Hr & ->)]]; auto.
    right. simpl. unfold isNewsletter in Hr. apply andb_true_iff in Hr as [He _].
    now apply String.eqb_eq.
  - intros item Hitem. now left.
Qed.

Lemma rowsKeyedBy_trans (k : string) (d1 d2 d3 : DB) :
  rowsKeyedBy k d1 d2 -> rowsKeyedBy k d2 d3 -> rowsKeyedBy k d1 d3.
Proof.
  intros [Hn12 Hg12] [Hn23 Hg23]. split.
  - intros row Hrow. destruct (Hn23 row Hrow) as [Hin|Hk]; auto.
  - intros item Hitem. destruct (Hg23 item Hitem) as [Hin|Hk]; auto.
Qed.

(** Whatever way a run of [process] takes, for a sender that is its own
    normal form: the events it adds name that sender only, and so do the
    ledger rows and criteria it leaves that were not there before. *)
Lemma process_footprint (emailAccountId from : string) (w : World) :
  extractEmailAddress from = from ->
  exists evs,
    trace (snd (process emailAccountId from w)) = trace w ++ evs
    /\ forallb (usesSenderKey from) evs = true
    /\ rowsKeyedBy from (db w) (db (snd (process emailAccountId from w))).
Proof.
  intros Hfix.
  assert (Hbody : exists evs,
             trace (snd (processBody emailAccountId from w)) = trace w ++ evs
             /\ forallb (usesSenderKey from) evs = true
             /\ rowsKeyedBy from (db w) (db (snd (processBody emailAccountId from w)))).
  { destruct (find (fun r => ea_id r =? emailAccountId) (emailAccounts (db w)))
      as [r|] eqn:Hacc.
    2:{ rewrite (processBody_no_account _ _ _ Hacc).
        eexists. split; [reflexivity|]. split; [reflexivity|]. now apply rowsKeyedBy_refl. }
    destruct (patternAnalyzed (senderCheck (db w) (extractEmailAddress from) emailAccountId))
      eqn:Hcheck.
    { rewrite (processBody_analyzed _ _ _ _ Hacc Hcheck).
      eexists. split; [reflexivity|]. split; [|now apply rowsKeyedBy_refl].
      simpl. now rewrite Hfix, String.eqb_refl. }
    destruct (negb (truthy (opt_access_token (ea_account r)))
              || negb (truthy (opt_refresh_token (ea_account r)))) eqn:Htok.
    { rewrite (processBody_no_tokens _ _ _ _ Hacc Hcheck Htok).
      eexists. split; [reflexivity|]. split; [|now apply rowsKeyedBy_refl].
      simpl. now rewrite Hfix, String.eqb_refl. }
    destruct (getGmailClientWithRefresh (orEmpty (opt_access_token (ea_account r)))
                (orEmpty (opt_refresh_token (ea_account r))) (opt_expires_at (ea_account r))
                emailAccountId) as [gmail|e] eqn:Hgmail.
    2:{ rewrite (processBody_client_throws _ _ _ _ _ Hacc Hcheck Htok Hgmail).
        eexists. split; [reflexivity|]. split; [|now apply rowsKeyedBy_refl].
        simpl. now rewrite Hfix, String.eqb_refl. }
    apply orb_false_iff in Htok as [Hat Hrt]. apply negb_false_iff in Hat, Hrt.
    rewrite (processBody_to_fetch _ _ _ r gmail) by (repeat split; assumption).
    destruct (getThreadsFromSender_frame gmail from MAX_RESULTS
                (after_events w (fetchPrefix emailAccountId from))) as (evs' & Hsnd & Hq).
    apply (threadEvent_usesSenderKey from) in Hq.
    assert (Hprefix : forallb (usesSenderKey from)
                        (fetchPrefix emailAccountId from
                         ++ GmailGetThreads (senderQuery (extractEmailAddress from)) MAX_RESULTS
                            :: evs') = true).
    { simpl. now rewrite Hfix, !String.eqb_refl. }
    rewrite after_events_app in Hsnd.
    set (fetched := fetchPrefix emailAccountId from
                    ++ GmailGetThreads (senderQuery (extractEmailAddress from)) MAX_RESULTS
                       :: evs') in *.
    clearbody fetched. clear Hq evs'.
    destruct (getThreadsFromSender gmail from MAX_RESULTS _) as [[ts|e] w1];
      simpl in Hsnd; subst w1.
    2:{ eexists. split; [reflexivity|]. split; [exact Hprefix | now apply rowsKeyedBy_refl]. }
    destruct (Nat.eqb (length ts) 0).
    { rewrite after_events_app. eexists. split; [reflexivity|]. split.
      - now rewrite forallb_app, Hprefix.
      - now apply rowsKeyedBy_refl. }
    destruct (Nat.ltb _ THRESHOLD_EMAILS).
    { rewrite after_events_app. eexists. split; [reflexivity|]. split.
      - now rewrite forallb_app, Hprefix.
      - now apply rowsKeyedBy_refl. }
    cbv zeta. rewrite after_events_app.
    destruct (aiDetectRecurringPattern _ _ _) as [patternResult|e].
    2:{ eexists. split; [reflexivity|]. split.
        - now rewrite forallb_app, Hprefix.
        - now apply rowsKeyedBy_refl. }
    cbn [fst snd].
    match goal with
    | |- context [savePatternCheck emailAccountId from ?l] => set (learned := l)
    end.
    assert (Hlearned : exists evs,
               trace learned = trace w ++ evs
               /\ forallb (usesSenderKey from) evs = true
               /\ rowsKeyedBy from (db w) (db learned)).
    { subst learned. destruct (truthy (opt_matchedRule patternResult)).
      - match goal with
        | |- context [saveLearnedPattern emailAccountId from ?n ?w0] =>
            destruct (saveLearnedPattern_footprint emailAccountId from n w0)
              as (evs & Htr & Hkeys & Hrows)
        end.
        eexists. split; [rewrite Htr; simpl; rewrite <- app_assoc; reflexivity|]. split.
        + now rewrite !forallb_app, Hprefix, Hkeys.
        + exact Hrows.
      - eexists. split; [reflexivity|]. split.
        + now rewrite forallb_app, Hprefix.
        + now apply rowsKeyedBy_refl. }
    destruct Hlearned as (evs & Htr & Hkeys & Hrows).
    destruct (savePatternCheck_footprint emailAccountId from learned) as [Htr' Hrows'].
    eexists. split; [rewrite Htr', Htr, <- app_assoc; reflexivity|]. split.
    - rewrite forallb_app, Hkeys. simpl. now rewrite String.eqb_refl.
    - exact (rowsKeyedBy_trans _ _ _ _ Hrows Hrows'). }
  destruct Hbody as (evs & Htr & Hkeys & Hrows).
  unfold process, tryCatch.
  destruct (processBody emailAccountId from w) as [[res|e] w1]; cbn [fst snd] in *.
  - exists evs. auto.
  - exists (evs ++ [Log LError "Error in pattern match API"]). simpl.
    rewrite Htr, <- app_assoc. split; [reflexivity|]. split; [|exact Hrows].
    now rewrite forallb_app, Hkeys.
Qed.

End ProcessFacts.

(** *** The normaliser of the specification *)

Lemma lowerAscii_open (c : ascii) : Ascii.eqb (lowerAscii c) "<" = Ascii.eqb c "<".
Proof. destruct c as [[] [] [] [] [] [] [] []]; reflexivity. Qed.

Lemma lowerAscii_close (c : ascii) : Ascii.eqb (lowerAscii c) ">" = Ascii.eqb c ">".
Proof. destruct c as [[] [] [] [] [] [] [] []]; reflexivity. Qed.

Lemma lowerAscii_idempotent (c : ascii) : lowerAscii (lowerAscii c) = lowerAscii c.
Proof. destruct c as [[] [] [] [] [] [] [] []]; reflexivity. Qed.

Lemma toLowerCase_idempotent (s : string) : toLowerCase (toLowerCase s) = toLowerCase s.
Proof.
  induction s as [|c rest IH]; simpl; [reflexivity|].
  now rewrite lowerAscii_idempotent, IH.
Qed.

Lemma noAngle_toLowerCase (s : string) : noAngle (toLowerCase s) = noAngle s.
Proof.
  induction s as [|c rest IH]; simpl; [reflexivity|].
  now rewrite lowerAscii_open, lowerAscii_close, IH.
Qed.

Lemma afterOpen_noAngle (s : string) : noAngle s = true -> afterOpen s = None.
Proof.
  induction s as [|c rest IH]; simpl; [reflexivity|].
  intros H. apply andb_true_iff in H as [H Hrest]. apply andb_true_iff in H as [Hc _].
  apply negb_true_iff in Hc. rewrite Hc. now apply IH.
Qed.

Lemma afterOpen_display (name rest : string) :
  noAngle name = true -> afterOpen (name ++ " <" ++ rest) = Some rest.
Proof.
  induction name as [|c name IH]; simpl; [reflexivity|].
  intros H. apply andb_true_iff in H as [H Hrest]. apply andb_true_iff in H as [Hc _].
  apply negb_true_iff in Hc. rewrite Hc. now apply IH.
Qed.

Lemma beforeClose_bare (addr : string) :
  noAngle addr = true -> beforeClose (addr ++ ">") = Some addr.
Proof.
  induction addr as [|c addr IH]; simpl; [reflexivity|].
  intros H. apply andb_true_iff in H as [H Hrest]. apply andb_true_iff in H as [_ Hc].
  apply negb_true_iff in Hc. rewrite Hc. now rewrite IH.
Qed.

(** A bare address is normalised to its lower case. *)
Lemma stripDisplayName_bare (addr : string) :
  noAngle addr = true -> stripDisplayName addr = toLowerCase addr.
Proof.
  intros H. unfold stripDisplayName, bareAddress. now rewrite afterOpen_noAngle.
Qed.

(** The display name and the angle brackets are stripped. *)
Lemma stripDisplayName_display (name addr : string) :
  noAngle name = true -> noAngle addr = true ->
  stripDisplayName (name ++ " <" ++ addr ++ ">") = toLowerCase addr.
Proof.
  intros Hname Haddr. unfold stripDisplayName, bareAddress.
  rewrite afterOpen_display by exact Hname.
  now rewrite beforeClose_bare.
Qed.

(** A normalised address is its own normal form. *)
Lemma stripDisplayName_key (addr : string) :
  noAngle addr = true -> stripDisplayName (toLowerCase addr) = toLowerCase addr.
Proof.
  intros H. rewrite stripDisplayName_bare by now rewrite noAngle_toLowerCase.
  apply toLowerCase_idempotent.
Qed.

(** * Runs on the small mailbox *)

(** The scenario of the specification: one-way threads, the oracle names
    "Newsletters". *)
Example scenario_match :
  @process SpecEmailUtils newsCollaborators "acc1" "news@example.com" demoWorld
  = (Ok (NextResponse_json (BodySuccess true) 200),
     mkWorld
       (mkDB [demoAccount]
          [mkRuleRow "rule1" "Newsletters" "acc1" true (Some "Newsletters and digests")
             (Some "c")]
          [mkGroupRow "c" "acc1" "Newsletters"]
          [mkGroupItemRow "c" FROM "news@example.com" false]
          [mkNewsletterRow "news@example.com" "acc1" true (Some 1700000000000%Z)])
       [EmailAccountFindUnique "acc1";
        NewsletterFindUnique "news@example.com" "acc1";
        GmailClientWithRefresh "acc1";
        GmailGetThreads "from:news@example.com -label:sent -label:draft" 10;
        GmailGetThreadMessages "t1";
        GmailGetThreadMessages "t2";
        GmailGetThreadMessages "t3";
        AiDetectRecurringPattern
          (map (@getEmailForLLM newsCollaborators) (flat_map messages (threadsOf newsMailbox)))
          [mkRuleForLLM "Newsletters" "Newsletters and digests"];
        RuleFindUnique "Newsletters" "acc1";
        GroupCreate "acc1" "Newsletters" "rule1";
        GroupItemUpsert "c" FROM "news@example.com";
        NewsletterUpsert "news@example.com" "acc1"]).
Proof. vm_compute. reflexivity. Qed.

(** The same mailbox when the oracle names no rule. *)
Example scenario_no_match :
  db (snd (@process SpecEmailUtils
             (demoCollaborators "news@example.com" newsMailbox noMatch)
             "acc1" "news@example.com" demoWorld))
  = set_newsletters demoDB
      [mkNewsletterRow "news@example.com" "acc1" true (Some 1700000000000%Z)].
Proof. vm_compute. reflexivity. Qed.

(** Nine one-way threads and a tenth with a reply: nothing is analysed. *)
Example scenario_conversation :
  @process SpecEmailUtils
    (demoCollaborators "news@example.com" mixedMailbox matchNewsletters)
    "acc1" "news@example.com" demoWorld
  = (Ok (NextResponse_json (BodySuccess true) 200),
     after_events demoWorld
       ([EmailAccountFindUnique "acc1";
         NewsletterFindUnique "news@example.com" "acc1";
         GmailClientWithRefresh "acc1";
         GmailGetThreads "from:news@example.com -label:sent -label:draft" 10]
        ++ map GmailGetThreadMessages
             ["t1"; "t2"; "t3"; "t4"; "t5"; "t6"; "t7"; "t8"; "t9"; "t10"]
        ++ [Log LInfo "Skipping sender pattern detection - conversation detected";
            Log LInfo "No threads found from this sender"])).
Proof. vm_compute. reflexivity. Qed.

(** The trigger names the sender with a display name: every key of the
    run is the bare address. *)
Example scenario_display_name :
  snd (@POST SpecEmailUtils janeCollaborators
         (mkRequest true
            (Ok (JObject [("emailAccountId", PString "acc1");
                          ("from", PString "Jane Doe <Jane@Example.COM>")])))
         demoWorld)
  = mkWorld
      (mkDB [demoAccount]
         [mkRuleRow "rule1" "Newsletters" "acc1" true (Some "Newsletters and digests")
            (Some "c")]
         [mkGroupRow "c" "acc1" "Newsletters"]
         [mkGroupItemRow "c" FROM "jane@example.com" false]
         [mkNewsletterRow "jane@example.com" "acc1" true (Some 1700000000000%Z)])
      [Log LTrace "Analyzing sender pattern";
       EmailAccountFindUnique "acc1";
       NewsletterFindUnique "jane@example.com" "acc1";
       GmailClientWithRefresh "acc1";
       GmailGetThreads "from:jane@example.com -label:sent -label:draft" 10;
       GmailGetThreadMessages "j1";
       AiDetectRecurringPattern
         (map (@getEmailForLLM janeCollaborators)
            [demoMessage "m1" "Jane Doe <jane@example.com>";
             demoMessage "m2" "Jane Doe <jane@example.com>";
             demoMessage "m3" "jane@example.com"])
         [mkRuleForLLM "Newsletters" "Newsletters and digests"];
       RuleFindUnique "Newsletters" "acc1";
       GroupCreate "acc1" "Newsletters" "rule1";
       GroupItemUpsert "c" FROM "jane@example.com";
       NewsletterUpsert "jane@example.com" "acc1"].
Proof. vm_compute. reflexivity. Qed.

(** A failure of the Gmail client is caught: a failure response, and no
    ledger row. *)
Example scenario_client_failure :
  @process SpecEmailUtils
    {| getGmailClientWithRefresh := fun _ _ _ _ => Throw "invalid_grant";
       getThreads := fun _ _ _ _ => Ok [];
       getThreadMessages := fun _ _ => Ok [];
       getEmailForLLM := @getEmailForLLM newsCollaborators;
       aiDetectRecurringPattern := fun _ _ _ => noMatch;
       Date_now := 0%Z |}
    "acc1" "news@example.com" demoWorld
  = (Ok (NextResponse_json (BodyError "Failed to detect pattern") 500),
     after_events demoWorld
       [EmailAccountFindUnique "acc1";
        NewsletterFindUnique "news@example.com" "acc1";
        GmailClientWithRefresh "acc1";
        Log LError "Error in pattern match API"]).
Proof. vm_compute. reflexivity. Qed.

(** * The theorems at concrete inputs *)

Lemma process_already_analyzed_noop_witness :
  senderCheck (db analyzedWorld) (@extractEmailAddress SpecEmailUtils "news@example.com")
    "acc1" = Some analyzedRow
  /\ exists res evs,
       @process SpecEmailUtils newsCollaborators "acc1" "news@example.com" analyzedWorld
       = (Ok res, after_events analyzedWorld evs)
       /\ db (snd (@process SpecEmailUtils newsCollaborators "acc1" "news@example.com"
                     analyzedWorld)) = db analyzedWorld
       /\ existsb isNetworkCall evs = false
       /\ existsb isWrite evs = false
       /\ (forall r,
             find (fun r => ea_id r =? "acc1") (emailAccounts (db analyzedWorld)) = Some r ->
             res = NextResponse_json (BodySuccess true) 200
             /\ evs = [EmailAccountFindUnique "acc1";
                       NewsletterFindUnique
                         (@extractEmailAddress SpecEmailUtils "news@example.com") "acc1";
                       Log LInfo "Sender has already been analyzed"]).
Proof.
  split; [reflexivity|].
  apply (@process_already_analyzed_noop SpecEmailUtils newsCollaborators
           "acc1" "news@example.com" analyzedWorld analyzedRow); reflexivity.
Defined.

Lemma reachesProvider_demo (mailbox : list (string * list Message))
    (verdict : Result (option PatternResult)) :
  @reachesProvider SpecEmailUtils (demoCollaborators "news@example.com" mailbox verdict)
    "acc1" "news@example.com" demoWorld demoAccount (GmailClient "acc1").
Proof.
  unfold reachesProvider. repeat split; reflexivity.
Defined.

Lemma process_oracle_answer_closes_sender_witness :
  let w' := snd (@process SpecEmailUtils newsCollaborators "acc1" "news@example.com"
                   demoWorld) in
  fst (@process SpecEmailUtils newsCollaborators "acc1" "news@example.com" demoWorld)
  = Ok (NextResponse_json (BodySuccess true) 200)
  /\ threadsOf newsMailbox <> []
  /\ (exists row,
        senderCheck (db w') "news@example.com" "acc1" = Some row
        /\ nl_patternAnalyzed row = true
        /\ nl_lastAnalyzedAt row = Some (@Date_now newsCollaborators))
  /\ (truthy (opt_matchedRule (Some (mkPatternResult (Some "Newsletters")))) = false ->
      groupItems (db w') = groupItems (db demoWorld)
      /\ groups (db w') = groups (db demoWorld)
      /\ rules (db w') = rules (db demoWorld)).
Proof.
  apply (@process_oracle_answer_closes_sender SpecEmailUtils newsCollaborators
           "acc1" "news@example.com" demoWorld demoAccount (GmailClient "acc1")
           (threadsOf newsMailbox) (Some (mkPatternResult (Some "Newsletters")))).
  - apply reachesProvider_demo.
  - reflexivity.
  - vm_compute. lia.
  - reflexivity.
Defined.

Lemma getThreadsFromSender_conversation_empties_witness :
  fst (@getThreadsFromSender SpecEmailUtils
         (demoCollaborators "news@example.com" mixedMailbox matchNewsletters)
         (GmailClient "acc1") "news@example.com" MAX_RESULTS demoWorld) = Ok []
  /\ (MAX_RESULTS = MAX_RESULTS ->
      forall (emailAccountId : string) (w0 : World) (r : EmailAccountRow),
        @reachesProvider SpecEmailUtils
          (demoCollaborators "news@example.com" mixedMailbox matchNewsletters)
          emailAccountId "news@example.com" w0 r (GmailClient "acc1") ->
        exists evs,
          @process SpecEmailUtils
            (demoCollaborators "news@example.com" mixedMailbox matchNewsletters)
            emailAccountId "news@example.com" w0
          = (Ok (NextResponse_json (BodySuccess true) 200), after_events w0 evs)
          /\ db (snd (@process SpecEmailUtils
                        (demoCollaborators "news@example.com" mixedMailbox matchNewsletters)
                        emailAccountId "news@example.com" w0)) = db w0
          /\ existsb isOracleCall evs = false
          /\ existsb isWrite evs = false).
Proof.
  apply (@getThreadsFromSender_conversation_empties SpecEmailUtils
           (demoCollaborators "news@example.com" mixedMailbox matchNewsletters)
           (GmailClient "acc1") "news@example.com" MAX_RESULTS demoWorld
           (map fst mixedMailbox)).
  - reflexivity.
  - intros id Hin. simpl in Hin.
    repeat (destruct Hin as [<-|Hin]; [eexists; reflexivity|]). destruct Hin.
  - exists "t10", [demoMessage "m10" "news@example.com"; demoMessage "m11" "Me <me@example.com>"],
      (demoMessage "m11" "Me <me@example.com>").
    split; [simpl; tauto|]. split; [reflexivity|]. split; [simpl; tauto|].
    vm_compute. discriminate.
Defined.

Lemma process_insufficient_evidence_witness :
  length (flat_map messages (threadsOf shortMailbox)) < THRESHOLD_EMAILS
  /\ exists evs,
       @process SpecEmailUtils (demoCollaborators "news@example.com" shortMailbox matchNewsletters)
         "acc1" "news@example.com" demoWorld
       = (Ok (NextResponse_json (BodySuccess true) 200), after_events demoWorld evs)
       /\ db (snd (@process SpecEmailUtils
                     (demoCollaborators "news@example.com" shortMailbox matchNewsletters)
                     "acc1" "news@example.com" demoWorld)) = db demoWorld
       /\ existsb isOracleCall evs = false
       /\ existsb isWrite evs = false
       /\ patternAnalyzed
            (senderCheck
               (db (snd (@process SpecEmailUtils
                           (demoCollaborators "news@example.com" shortMailbox matchNewsletters)
                           "acc1" "news@example.com" demoWorld)))
               (@extractEmailAddress SpecEmailUtils "news@example.com") "acc1") = false.
Proof.
  split; [vm_compute; lia|].
  apply (@process_insufficient_evidence SpecEmailUtils
           (demoCollaborators "news@example.com" shortMailbox matchNewsletters)
           "acc1" "news@example.com" demoWorld demoAccount (GmailClient "acc1")
           (threadsOf shortMailbox)).
  - apply reachesProvider_demo.
  - reflexivity.
  - vm_compute. lia.
Defined.

Lemma saveLearnedPattern_twice_witness :
  let w1 := snd (saveLearnedPattern "acc1" "news@example.com" "Newsletters" demoWorld) in
  let w2 := snd (saveLearnedPattern "acc1" "news@example.com" "Newsletters" w1) in
  fst (saveLearnedPattern "acc1" "news@example.com" "Newsletters" demoWorld) = Ok tt
  /\ fst (saveLearnedPattern "acc1" "news@example.com" "Newsletters" w1) = Ok tt
  /\ db w2 = db w1
  /\ exists rule' groupId,
       find (isRule "Newsletters" "acc1") (rules (db w2)) = Some rule'
       /\ rule_id rule' = rule_id demoRule
       /\ rule_groupId rule' = Some groupId
       /\ length (rowsWith (isGroupItem groupId FROM "news@example.com") (groupItems (db w2))) = 1
       /\ length (rowsWith (fun gr => group_id gr =? groupId) (groups (db w2))) <= 1
       /\ length (groups (db w2)) <= S (length (groups (db demoWorld))).
Proof.
  apply (saveLearnedPattern_twice "acc1" "news@example.com" "Newsletters" demoWorld demoRule).
  - split; simpl; constructor.
  - reflexivity.
Defined.

Lemma exclude_flag_overwrite_policies_witness :
  let single := db (snd (saveLearnedPattern "acc1" "news@example.com" "Newsletters"
                           learnedWorld)) in
  let bulk patterns := db (snd (saveLearnedPatterns "acc1" "Newsletters" patterns
                                  learnedWorld)) in
  groupItems single = [mkGroupItemRow "g1" FROM "news@example.com" true]
  /\ groupItems (bulk [mkPattern FROM "news@example.com" (Some true)])
     = [mkGroupItemRow "g1" FROM "news@example.com" true]
  /\ groupItems (bulk [mkPattern FROM "news@example.com" (Some false)])
     = [mkGroupItemRow "g1" FROM "news@example.com" false]
  /\ groupItems (bulk [mkPattern FROM "news@example.com" None])
     = [mkGroupItemRow "g1" FROM "news@example.com" false]
  /\ criterionHasFlag "g1" FROM "news@example.com" true
       (groupItems (bulk [mkPattern FROM "news@example.com" None;
                          mkPattern FROM "news@example.com" (Some true);
                          mkPattern SUBJECT "Receipt" None])).
Proof.
  cbv zeta.
  pose proof (exclude_flag_overwrite_policies "acc1" "Newsletters" "news@example.com" FROM
                learnedWorld
                (mkRuleRow "rule1" "Newsletters" "acc1" true (Some "Newsletters and digests")
                   (Some "g1"))
                "g1" excludedRow eq_refl eq_refl) as Hpolicies.
  cbv zeta in Hpolicies.
  destruct Hpolicies as (_ & _ & Hsingle & Hsome & Hnone & Hlast & _).
  - discriminate.
  - simpl. tauto.
  - reflexivity.
  - split; [exact (Hsingle eq_refl)|].
    split; [exact (Hsome true)|]. split; [exact (Hsome false)|]. split; [exact Hnone|].
    exact (Hlast [mkPattern FROM "news@example.com" None] [mkPattern SUBJECT "Receipt" None]
             true eq_refl).
Defined.

Lemma saveLearnedPattern_rule_not_found_witness :
  saveLearnedPattern "acc1" "news@example.com" "Receipts" demoWorld
  = (Ok tt, after_events demoWorld [RuleFindUnique "Receipts" "acc1";
                                    Log LError "Rule not found"])
  /\ db (snd (saveLearnedPattern "acc1" "news@example.com" "Receipts" demoWorld))
     = db demoWorld.
Proof.
  apply (saveLearnedPattern_rule_not_found "acc1" "news@example.com" "Receipts" demoWorld).
  reflexivity.
Defined.

Lemma getThreadsFromSender_returns_one_way_witness :
  (forall t m, In t (threadsOf newsMailbox) -> In m (messages t) ->
               @extractEmailAddress SpecEmailUtils (h_from (msg_headers m))
               = @extractEmailAddress SpecEmailUtils "News <news@example.com>")
  /\ Forall (@oneWay SpecEmailUtils (@extractEmailAddress SpecEmailUtils "News <news@example.com>"))
       (flat_map messages (threadsOf newsMailbox)).
Proof.
  apply (@getThreadsFromSender_returns_one_way SpecEmailUtils newsCollaborators
           (GmailClient "acc1") "News <news@example.com>" MAX_RESULTS demoWorld
           (threadsOf newsMailbox)).
  reflexivity.
Defined.

(** * Further properties of the background process *)

Section RunFacts.
Context {EU : EmailUtils} {CO : Collaborators}.

(** The search inside a run, whatever it answers. *)
Lemma fetch_in_run_any (emailAccountId from : string) (w : World) (gmail : Gmail) :
  exists evs,
    getThreadsFromSender gmail from MAX_RESULTS (after_events w (fetchPrefix emailAccountId from))
    = (fst (getThreadsFromSender gmail from MAX_RESULTS w),
       after_events w (fetchPrefix emailAccountId from ++ evs))
    /\ forallb mailOnly evs = true.
Proof.
  destruct (getThreadsFromSender_frame gmail from MAX_RESULTS
              (after_events w (fetchPrefix emailAccountId from))) as (evs & Hsnd & Hq).
  exists (GmailGetThreads (senderQuery (extractEmailAddress from)) MAX_RESULTS :: evs).
  split.
  - rewrite (getThreadsFromSender_result gmail from MAX_RESULTS w
               (after_events w (fetchPrefix emailAccountId from))).
    rewrite <- after_events_app, <- Hsnd. apply surjective_pairing.
  - simpl. now apply threadEvent_mailOnly.
Qed.

(** Every run of [process] returns a response, along one of the ways of
    [processRun]. *)
Lemma process_runs (emailAccountId from : string) (w : World) :
  exists res w',
    process emailAccountId from w = (Ok res, w')
    /\ processRun emailAccountId from w res w'.
Proof.
  destruct (find (fun r => ea_id r =? emailAccountId) (emailAccounts (db w)))
    as [r|] eqn:Hacc.
  2:{ do 2 eexists. split.
      - apply process_ok. apply (processBody_no_account _ _ _ Hacc).
      - now constructor. }
  destruct (patternAnalyzed (senderCheck (db w) (extractEmailAddress from) emailAccountId))
    eqn:Hcheck.
  { do 2 eexists. split.
    - apply process_ok. apply (processBody_analyzed _ _ _ _ Hacc Hcheck).
    - now apply (run_already_analyzed _ _ _ r). }
  destruct (negb (truthy (opt_access_token (ea_account r)))
            || negb (truthy (opt_refresh_token (ea_account r)))) eqn:Htok.
  { do 2 eexists. split.
    - apply process_ok. apply (processBody_no_tokens _ _ _ _ Hacc Hcheck Htok).
    - now apply (run_no_tokens _ _ _ r). }
  destruct (getGmailClientWithRefresh (orEmpty (opt_access_token (ea_account r)))
              (orEmpty (opt_refresh_token (ea_account r))) (opt_expires_at (ea_account r))
              emailAccountId) as [gmail|e] eqn:Hgmail.
  2:{ do 2 eexists. split.
      - unfold process, tryCatch.
        rewrite (processBody_client_throws _ _ _ _ _ Hacc Hcheck Htok Hgmail).
        rewrite (bind_ok _ _ _ _ _ (logger_run _ _ _)). cbv beta.
        rewrite after_events_app. reflexivity.
      - now apply (run_client_failed _ _ _ r e). }
  assert (Hreach : reachesProvider emailAccountId from w r gmail).
  { apply orb_false_iff in Htok as [Hat Hrt]. apply negb_false_iff in Hat, Hrt.
    repeat split; assumption. }
  pose proof (processBody_to_fetch _ _ _ _ _ Hreach) as Hbody.
  destruct (fetch_in_run_any emailAccountId from w gmail) as (evs & Hfetch & Hq).
  rewrite Hfetch in Hbody.
  destruct (fst (getThreadsFromSender gmail from MAX_RESULTS w)) as [ts|e] eqn:Hts.
  2:{ do 2 eexists. split.
      - unfold process, tryCatch. rewrite Hbody.
        rewrite (bind_ok _ _ _ _ _ (logger_run _ _ _)). cbv beta.
        rewrite after_events_app, <- app_assoc. reflexivity.
      - now apply (run_fetch_failed _ _ _ r gmail e evs). }
  destruct (Nat.eqb (length ts) 0) eqn:Hlen.
  { do 2 eexists. split.
    - apply process_ok. rewrite Hbody, after_events_app, <- app_assoc. reflexivity.
    - apply (run_below_threshold _ _ _ r gmail ts evs); trivial.
      apply Nat.eqb_eq in Hlen. destruct ts; [|discriminate].
      unfold THRESHOLD_EMAILS. simpl. lia. }
  destruct (Nat.ltb (length (flat_map messages ts)) THRESHOLD_EMAILS) eqn:Hfew.
  { do 2 eexists. split.
    - apply process_ok. rewrite Hbody, after_events_app, <- app_assoc. reflexivity.
    - apply (run_below_threshold _ _ _ r gmail ts evs); trivial.
      now apply Nat.ltb_lt. }
  apply Nat.ltb_ge in Hfew. cbv zeta in Hbody.
  rewrite after_events_app, <- app_assoc in Hbody.
  fold (askedWorld emailAccountId from w r ts evs) in Hbody.
  destruct (aiDetectRecurringPattern _ _ _) as [patternResult|e] eqn:Horacle.
  - do 2 eexists. split.
    + apply process_ok. exact Hbody.
    + now apply (run_settled _ _ _ r gmail ts evs patternResult).
  - do 2 eexists. split.
    + unfold process, tryCatch. rewrite Hbody.
      rewrite (bind_ok _ _ _ _ _ (logger_run _ _ _)). cbv beta. reflexivity.
    + now apply (run_oracle_failed _ _ _ r gmail ts evs e).
Qed.

Lemma saveLearnedPattern_events (emailAccountId from ruleName : string) (w : World) :
  exists evs,
    trace (snd (saveLearnedPattern emailAccountId from ruleName w)) = trace w ++ evs
    /\ existsb isNetworkCall evs = false
    /\ existsb isLedgerWrite evs = false
    /\ countEvents isWrite evs <= 2.
Proof.
  destruct (find (isRule ruleName emailAccountId) (rules (db w))) as [rule|] eqn:Hfind.
  - rewrite (saveLearnedPattern_found _ _ _ _ _ Hfind). cbn [snd trace].
    eexists. split; [reflexivity|].
    unfold targetGroupEvents, countEvents.
    destruct (truthy (rule_groupId rule)); simpl; repeat split; try reflexivity; lia.
  - rewrite (saveLearnedPattern_absent _ _ _ _ Hfind). cbn [snd].
    eexists. split; [reflexivity|]. unfold countEvents. simpl.
    repeat split; try reflexivity. lia.
Qed.

Lemma mailOnly_counts (p : Event -> bool) (evs : list Event) :
  (forall ev, mailOnly ev = true -> p ev = false) ->
  forallb mailOnly evs = true -> countEvents p evs = 0 /\ existsb p evs = false.
Proof.
  intros Hp. unfold countEvents.
  induction evs as [|ev rest IH]; simpl; [auto|].
  intros H. apply andb_true_iff in H as [Hev Hrest].
  rewrite (Hp ev Hev). simpl. now apply IH.
Qed.

Lemma mailOnly_not_oracle (ev : Event) : mailOnly ev = true -> isOracleCall ev = false.
Proof. now destruct ev. Qed.

Lemma mailOnly_not_write (ev : Event) : mailOnly ev = true -> isWrite ev = false.
Proof. now destruct ev. Qed.

Lemma mailOnly_not_ledger (ev : Event) : mailOnly ev = true -> isLedgerWrite ev = false.
Proof. now destruct ev. Qed.

Lemma countEvents_app (p : Event -> bool) (a b : list Event) :
  countEvents p (a ++ b) = countEvents p a + countEvents p b.
Proof. unfold countEvents. now rewrite filter_app, length_app. Qed.

Lemma countEvents_none (p : Event -> bool) (evs : list Event) :
  existsb p evs = false -> countEvents p evs = 0.
Proof.
  unfold countEvents. induction evs as [|ev rest IH]; simpl; [reflexivity|].
  intros H. apply orb_false_iff in H as [Hev Hrest]. rewrite Hev. now apply IH.
Qed.

(** The trace and the ledger of a run that the oracle answered. *)
Lemma settled_world (emailAccountId from : string) (w : World) (r : EmailAccountRow)
    (ts : list ThreadWithMessages) (evs : list Event) (patternResult : option PatternResult) :
  forallb mailOnly evs = true ->
  let w' := snd (savePatternCheck emailAccountId from
                   (if truthy (opt_matchedRule patternResult)
                    then snd (saveLearnedPattern emailAccountId from
                                (orEmpty (opt_matchedRule patternResult))
                                (askedWorld emailAccountId from w r ts evs))
                    else askedWorld emailAccountId from w r ts evs)) in
  exists learned,
    trace w'
    = trace w ++ (fetchPrefix emailAccountId from ++ evs)
      ++ AiDetectRecurringPattern (map getEmailForLLM (flat_map messages ts))
           (candidateRules (selectEmailAccount (db w) r))
         :: learned ++ [NewsletterUpsert from emailAccountId]
    /\ existsb isNetworkCall learned = false
    /\ existsb isLedgerWrite learned = false
    /\ countEvents isWrite learned <= 2
    /\ patternAnalyzed (senderCheck (db w') from emailAccountId) = true.
Proof.
  intros Hq. cbv zeta.
  match goal with
  | |- context [savePatternCheck emailAccountId from ?l] => set (learnedWorld := l)
  end.
  assert (Hlearned : exists learned,
             trace learnedWorld
             = trace (askedWorld emailAccountId from w r ts evs) ++ learned
             /\ existsb isNetworkCall learned = false
             /\ existsb isLedgerWrite learned = false
             /\ countEvents isWrite learned <= 2).
  { subst learnedWorld. destruct (truthy (opt_matchedRule patternResult)).
    - apply saveLearnedPattern_events.
    - exists []. rewrite app_nil_r. unfold countEvents. simpl.
      repeat split; try reflexivity. lia. }
  destruct Hlearned as (learned & Htr & Hnet & Hledger & Hcount).
  exists learned.
  destruct (savePatternCheck_closes emailAccountId from learnedWorld)
    as (row & Hrow & _ & _ & Ha & _).
  split.
  - rewrite savePatternCheck_run. cbn [snd trace]. rewrite Htr.
    unfold askedWorld, after_events. cbn [trace].
    rewrite <- !app_assoc. reflexivity.
  - rewrite Hrow. simpl. auto.
Qed.

(** X1. What the Gmail client or the oracle throws is caught: the run
    answers the failure body with status 500, no write has been attempted,
    and the store is as it was, so the sender stays open for a later
    trigger. *)
Theorem process_collaborator_rejection_writes_nothing :
  forall (emailAccountId from : string) (w : World),
    (exists r e,
       find (fun r => ea_id r =? emailAccountId) (emailAccounts (db w)) = Some r
       /\ patternAnalyzed (senderCheck (db w) (extractEmailAddress from) emailAccountId)
          = false
       /\ truthy (opt_access_token (ea_account r)) = true
       /\ truthy (opt_refresh_token (ea_account r)) = true
       /\ getGmailClientWithRefresh (orEmpty (opt_access_token (ea_account r)))
            (orEmpty (opt_refresh_token (ea_account r))) (opt_expires_at (ea_account r))
            emailAccountId = Throw e)
    \/ (exists r gmail ts e,
          reachesProvider emailAccountId from w r gmail
          /\ fst (getThreadsFromSender gmail from MAX_RESULTS w) = Ok ts
          /\ THRESHOLD_EMAILS <= length (flat_map messages ts)
          /\ aiDetectRecurringPattern (map getEmailForLLM (flat_map messages ts))
               (selectEmailAccount (db w) r) (candidateRules (selectEmailAccount (db w) r))
             = Throw e) ->
    exists evs,
      process emailAccountId from w
      = (Ok (NextResponse_json (BodyError "Failed to detect pattern") 500),
         after_events w evs)
      /\ existsb isWrite evs = false.
Proof.
  intros acct from w [(r & e & Hacc & Hcheck & Hat & Hrt & Hclient)
                     |(r & gmail & ts & e & Hreach & Hts & Hmany & Horacle)].
  - assert (Htok : negb (truthy (opt_access_token (ea_account r)))
                   || negb (truthy (opt_refresh_token (ea_account r))) = false)
      by now rewrite Hat, Hrt.
    unfold process, tryCatch.
    rewrite (processBody_client_throws _ _ _ _ _ Hacc Hcheck Htok Hclient).
    rewrite (bind_ok _ _ _ _ _ (logger_run _ _ _)). unfold ret.
    rewrite after_events_app. eexists. split; reflexivity.
  - pose proof (processBody_to_fetch _ _ _ _ _ Hreach) as Hbody.
    destruct (fetch_in_run acct from w gmail ts Hts) as (evs & Hfetch & _ & Hquiet).
    rewrite Hfetch in Hbody.
    assert (Hlen : Nat.eqb (length ts) 0 = false).
    { apply Nat.eqb_neq. destruct ts; simpl in *; unfold THRESHOLD_EMAILS in *; lia. }
    assert (Hge : Nat.ltb (length (flat_map messages ts)) THRESHOLD_EMAILS = false)
      by (apply Nat.ltb_ge; exact Hmany).
    rewrite Hlen, Hge in Hbody. cbv zeta in Hbody. rewrite Horacle in Hbody.
    unfold process, tryCatch. rewrite Hbody.
    rewrite (bind_ok _ _ _ _ _ (logger_run _ _ _)). unfold ret.
    rewrite !after_events_app. eexists. split; [reflexivity|].
    rewrite existsb_app, Hquiet. reflexivity.
Qed.

(** X2. In a run of [process] every write follows the answer of the
    oracle: either no write is attempted and the store is as it was, or the
    trace of the run splits at a call of the oracle, which answered, with no
    write before it, and no call to the mail provider or the oracle after
    it. *)
Theorem process_writes_only_after_oracle :
  forall (emailAccountId from : string) (w : World),
    let w' := snd (process emailAccountId from w) in
    (db w' = db w
     /\ exists evs, trace w' = trace w ++ evs /\ existsb isWrite evs = false)
    \/ (exists r pre emails post patternResult,
          trace w'
          = trace w ++ pre
            ++ AiDetectRecurringPattern emails (candidateRules (selectEmailAccount (db w) r))
               :: post
          /\ existsb isWrite pre = false
          /\ existsb isNetworkCall post = false
          /\ aiDetectRecurringPattern emails (selectEmailAccount (db w) r)
               (candidateRules (selectEmailAccount (db w) r))
             = Ok patternResult).
Proof.
  intros acct from w. cbv zeta.
  destruct (process_runs acct from w) as (res & w' & Hrun & Hcase).
  rewrite Hrun. cbn [fst snd].
  destruct Hcase as
    [Hacc | r Hacc Hcheck | r Hacc Hcheck Htok | r e Hacc Hcheck Htok Hg
     | r gmail e evs Hreach Hts Hq | r gmail ts evs msg Hreach Hts Hfew Hq
     | r gmail ts evs e Hreach Hts Hmany Hq Horacle
     | r gmail ts evs pr Hreach Hts Hmany Hq Horacle].
  - left. split; [reflexivity|]. eexists. split; reflexivity.
  - left. split; [reflexivity|]. eexists. split; reflexivity.
  - left. split; [reflexivity|]. eexists. split; reflexivity.
  - left. split; [reflexivity|]. eexists. split; reflexivity.
  - left. split; [reflexivity|]. eexists. split; [reflexivity|].
    apply mailOnly_quiet in Hq as [_ Hq].
    rewrite !existsb_app, Hq. reflexivity.
  - left. split; [reflexivity|]. eexists. split; [reflexivity|].
    apply mailOnly_quiet in Hq as [_ Hq].
    rewrite !existsb_app, Hq. reflexivity.
  - left. split; [reflexivity|]. unfold askedWorld. rewrite after_events_app.
    eexists. split; [reflexivity|].
    apply mailOnly_quiet in Hq as [_ Hq].
    rewrite !existsb_app, Hq. reflexivity.
  - right.
    destruct (settled_world acct from w r ts evs pr Hq) as (learned & Htr & Hnet & _).
    exists r, (fetchPrefix acct from ++ evs),
           (map getEmailForLLM (flat_map messages ts)),
           (learned ++ [NewsletterUpsert from acct]), pr.
    split; [exact Htr|]. split; [|split; [|exact Horacle]].
    + apply mailOnly_quiet in Hq as [_ Hq]. rewrite existsb_app, Hq. reflexivity.
    + rewrite existsb_app, Hnet. reflexivity.
Qed.

(** X3. In one run of [process] the oracle is called at most once, the
    ledger is written at most once, and at most three writes happen in all
    (a group, a criterion, the ledger row). *)
Theorem process_one_shot :
  forall (emailAccountId from : string) (w : World),
    exists evs,
      trace (snd (process emailAccountId from w)) = trace w ++ evs
      /\ countEvents isOracleCall evs <= 1
      /\ countEvents isLedgerWrite evs <= 1
      /\ countEvents isWrite evs <= 3.
Proof.
  intros acct from w.
  destruct (process_runs acct from w) as (res & w' & Hrun & Hcase).
  rewrite Hrun. cbn [snd].
  destruct Hcase as
    [Hacc | r Hacc Hcheck | r Hacc Hcheck Htok | r e Hacc Hcheck Htok Hg
     | r gmail e evs Hreach Hts Hq | r gmail ts evs msg Hreach Hts Hfew Hq
     | r gmail ts evs e Hreach Hts Hmany Hq Horacle
     | r gmail ts evs pr Hreach Hts Hmany Hq Horacle];
    try (eexists; split; [reflexivity|]; unfold countEvents; simpl; lia).
  - (* the search failed *)
    eexists. split; [reflexivity|].
    rewrite !countEvents_app.
    destruct (mailOnly_counts isOracleCall evs mailOnly_not_oracle Hq) as [-> _].
    destruct (mailOnly_counts isLedgerWrite evs mailOnly_not_ledger Hq) as [-> _].
    destruct (mailOnly_counts isWrite evs mailOnly_not_write Hq) as [-> _].
    unfold countEvents. simpl. lia.
  - (* below the threshold *)
    eexists. split; [reflexivity|].
    rewrite !countEvents_app.
    destruct (mailOnly_counts isOracleCall evs mailOnly_not_oracle Hq) as [-> _].
    destruct (mailOnly_counts isLedgerWrite evs mailOnly_not_ledger Hq) as [-> _].
    destruct (mailOnly_counts isWrite evs mailOnly_not_write Hq) as [-> _].
    unfold countEvents. simpl. lia.
  - (* the oracle failed *)
    eexists. split; [unfold askedWorld; rewrite after_events_app; reflexivity|].
    rewrite !countEvents_app.
    destruct (mailOnly_counts isOracleCall evs mailOnly_not_oracle Hq) as [-> _].
    destruct (mailOnly_counts isLedgerWrite evs mailOnly_not_ledger Hq) as [-> _].
    destruct (mailOnly_counts isWrite evs mailOnly_not_write Hq) as [-> _].
    unfold countEvents. simpl. lia.
  - (* the oracle answered *)
    destruct (settled_world acct from w r ts evs pr Hq)
      as (learned & Htr & Hnet & Hledger & Hcount & _).
    eexists. split; [exact Htr|].
    change (?a :: learned ++ ?b) with ([a] ++ learned ++ b).
    rewrite !countEvents_app.
    destruct (mailOnly_counts isOracleCall evs mailOnly_not_oracle Hq) as [-> _].
    destruct (mailOnly_counts isLedgerWrite evs mailOnly_not_ledger Hq) as [-> _].
    destruct (mailOnly_counts isWrite evs mailOnly_not_write Hq) as [-> _].
    rewrite (countEvents_none isLedgerWrite learned Hledger).
    assert (Hnoo : countEvents isOracleCall learned = 0).
    { apply countEvents_none. unfold isNetworkCall in Hnet.
      clear -Hnet. induction learned as [|ev rest IH]; simpl in *; [reflexivity|].
      apply orb_false_iff in Hnet as [Hev Hrest]. apply orb_false_iff in Hev as [_ Hev].
      rewrite Hev. now apply IH. }
    rewrite Hnoo. unfold countEvents in *. simpl. lia.
Qed.

(** X4. Without an account row, or with an account that lacks the access
    or the refresh token, a run makes no call to the mail provider or the
    oracle and no write.  It answers not found (404, success false), except
    for a sender of an existing account that is already marked analyzed:
    that check comes before the tokens are looked at, and the answer is
    success. *)
Theorem process_without_credentials :
  forall (emailAccountId from : string) (w : World),
    find (fun r => ea_id r =? emailAccountId) (emailAccounts (db w)) = None
    \/ (exists r,
          find (fun r => ea_id r =? emailAccountId) (emailAccounts (db w)) = Some r
          /\ (truthy (opt_access_token (ea_account r)) = false
              \/ truthy (opt_refresh_token (ea_account r)) = false)) ->
    exists evs,
      process emailAccountId from w
      = (Ok (match find (fun r => ea_id r =? emailAccountId) (emailAccounts (db w)) with
             | Some _ =>
                 if patternAnalyzed
                      (senderCheck (db w) (extractEmailAddress from) emailAccountId)
                 then NextResponse_json (BodySuccess true) 200
                 else NextResponse_json (BodySuccess false) 404
             | None => NextResponse_json (BodySuccess false) 404
             end),
         after_events w evs)
      /\ existsb isNetworkCall evs = false
      /\ existsb isWrite evs = false.
Proof.
  intros acct from w [Hnone|(r & Hacc & Htok)].
  - rewrite Hnone. eexists. split.
    + apply process_ok. apply (processBody_no_account _ _ _ Hnone).
    + split; reflexivity.
  - rewrite Hacc.
    destruct (patternAnalyzed (senderCheck (db w) (extractEmailAddress from) acct))
      eqn:Hcheck.
    + eexists. split.
      * apply process_ok. apply (processBody_analyzed _ _ _ r Hacc Hcheck).
      * split; reflexivity.
    + eexists. split.
      * apply process_ok. apply (processBody_no_tokens _ _ _ r Hacc Hcheck).
        destruct Htok as [-> | ->]; [reflexivity | apply orb_true_r].
      * split; reflexivity.
Qed.

End RunFacts.

Lemma process_collaborator_rejection_writes_nothing_witness :
  exists evs,
    @process SpecEmailUtils oracleDownCollaborators "acc1" "news@example.com" demoWorld
    = (Ok (NextResponse_json (BodyError "Failed to detect pattern") 500),
       after_events demoWorld evs)
    /\ existsb isWrite evs = false.
Proof.
  apply (@process_collaborator_rejection_writes_nothing SpecEmailUtils oracleDownCollaborators
           "acc1" "news@example.com" demoWorld).
  right. exists demoAccount, (GmailClient "acc1"), (threadsOf newsMailbox), "timeout".
  split; [repeat split; reflexivity|].
  split; [reflexivity|]. split; [vm_compute; lia | reflexivity].
Defined.

Lemma process_without_credentials_witness :
  (exists evs,
     @process SpecEmailUtils newsCollaborators "acc2" "news@example.com" tokenlessWorld
     = (Ok (NextResponse_json (BodySuccess false) 404), after_events tokenlessWorld evs)
     /\ existsb isNetworkCall evs = false
     /\ existsb isWrite evs = false)
  /\ (exists evs,
        @process SpecEmailUtils newsCollaborators "acc2" "news@example.com"
          tokenlessAnalyzedWorld
        = (Ok (NextResponse_json (BodySuccess true) 200),
           after_events tokenlessAnalyzedWorld evs)
        /\ existsb isNetworkCall evs = false
        /\ existsb isWrite evs = false).
Proof.
  split.
  - apply (@process_without_credentials SpecEmailUtils newsCollaborators
             "acc2" "news@example.com" tokenlessWorld).
    right. exists tokenlessAccount. split; [reflexivity|]. right. reflexivity.
  - apply (@process_without_credentials SpecEmailUtils newsCollaborators
             "acc2" "news@example.com" tokenlessAnalyzedWorld).
    right. exists tokenlessAccount. split; [reflexivity|]. right. reflexivity.
Defined.

(** * Further properties of the conversation filter *)

Section FilterFacts.
Context {EU : EmailUtils} {CO : Collaborators}.

(** Over a run of one-way threads the loop fetches each, keeps each, and
    goes on with the rest. *)
Lemma collectThreads_app_one_way (gmail : Gmail) (from : string) :
  forall (pre rest : list string) (kept acc : list ThreadWithMessages) (w : World),
    Forall2 (fetchedOneWay gmail from) pre kept ->
    collectThreads gmail from (pre ++ rest) acc w
    = collectThreads gmail from rest (acc ++ kept)
        (after_events w (map GmailGetThreadMessages pre)).
Proof.
  induction pre as [|id pre IH]; intros rest kept acc w Hall.
  - inversion Hall; subst. simpl. now rewrite app_nil_r, after_events_nil.
  - inversion Hall as [|? t ? kept' (Hid & Hfetch & Hone) Hrest]; subst.
    change ((threadId t :: pre) ++ rest) with (threadId t :: (pre ++ rest)).
    rewrite collectThreads_cons, Hfetch.
    rewrite (proj2 (hasOtherSenders_false from (messages t)) Hone).
    rewrite (IH rest kept' _ _ Hrest).
    rewrite after_events_app. simpl map.
    replace (mkThread (threadId t) (messages t)) with t by now destruct t.
    now rewrite <- app_assoc.
Qed.

(** X5. When every thread the search returns can be fetched and holds
    only messages of the sender under analysis, [getThreadsFromSender]
    returns all of them, in the order of the search, each with its messages,
    after one search and one fetch per thread. *)
Theorem getThreadsFromSender_keeps_one_way_threads :
  forall (gmail : Gmail) (sender : string) (maxResults : nat) (w : World)
         (threads : list string) (ts : list ThreadWithMessages),
    getThreads (senderQuery (extractEmailAddress sender)) [] gmail maxResults = Ok threads ->
    Forall2 (fetchedOneWay gmail (extractEmailAddress sender)) threads ts ->
    getThreadsFromSender gmail sender maxResults w
    = (Ok ts,
       after_events w
         (GmailGetThreads (senderQuery (extractEmailAddress sender)) maxResults
          :: map GmailGetThreadMessages threads)).
Proof.
  intros gmail sender n w threads ts Hsearch Hall.
  rewrite getThreadsFromSender_eq. cbv zeta. rewrite Hsearch.
  rewrite <- (app_nil_r threads) at 1.
  rewrite (collectThreads_app_one_way gmail _ threads [] ts [] _ Hall).
  simpl. now rewrite after_events_app.
Qed.

(** X6. The loop stops at the first thread that holds a message of
    another sender: the threads listed after it are never fetched, and the
    result is empty although the threads before it were one-way. *)
Theorem getThreadsFromSender_stops_at_conversation :
  forall (gmail : Gmail) (sender : string) (maxResults : nat) (w : World)
         (pre post : list string) (kept : list ThreadWithMessages)
         (t : string) (msgs : list Message) (m : Message),
    getThreads (senderQuery (extractEmailAddress sender)) [] gmail maxResults
    = Ok (pre ++ t :: post) ->
    Forall2 (fetchedOneWay gmail (extractEmailAddress sender)) pre kept ->
    getThreadMessages t gmail = Ok msgs ->
    In m msgs ->
    extractEmailAddress (h_from (msg_headers m)) <> extractEmailAddress sender ->
    getThreadsFromSender gmail sender maxResults w
    = (Ok [],
       after_events w
         (GmailGetThreads (senderQuery (extractEmailAddress sender)) maxResults
          :: map GmailGetThreadMessages (pre ++ [t])
          ++ [Log LInfo "Skipping sender pattern detection - conversation detected"])).
Proof.
  intros gmail sender n w pre post kept t msgs m Hsearch Hpre Hfetch Hin Hother.
  rewrite getThreadsFromSender_eq. cbv zeta. rewrite Hsearch.
  rewrite (collectThreads_app_one_way gmail _ pre (t :: post) kept [] _ Hpre).
  rewrite collectThreads_cons, Hfetch.
  rewrite (hasOtherSenders_true (extractEmailAddress sender) msgs m Hin Hother).
  rewrite !after_events_app, map_app. simpl. now rewrite <- app_assoc.
Qed.

(** X7. When the fetch of a thread is rejected, the one-way threads
    before it having been fetched, [getThreadsFromSender] throws the
    rejection; a run of [process] that got that far catches it, logs it, and
    answers failure (500) with the store as it was. *)
Theorem process_thread_fetch_rejected :
  forall (emailAccountId from : string) (w : World) (r : EmailAccountRow) (gmail : Gmail)
         (pre post : list string) (kept : list ThreadWithMessages) (t e : string),
    reachesProvider emailAccountId from w r gmail ->
    getThreads (senderQuery (extractEmailAddress from)) [] gmail MAX_RESULTS
    = Ok (pre ++ t :: post) ->
    Forall2 (fetchedOneWay gmail (extractEmailAddress from)) pre kept ->
    getThreadMessages t gmail = Throw e ->
    fst (getThreadsFromSender gmail from MAX_RESULTS w) = Throw e
    /\ process emailAccountId from w
       = (Ok (NextResponse_json (BodyError "Failed to detect pattern") 500),
          after_events w
            (fetchPrefix emailAccountId from
             ++ GmailGetThreads (senderQuery (extractEmailAddress from)) MAX_RESULTS
                :: map GmailGetThreadMessages (pre ++ [t])
             ++ [Log LError "Error in pattern match API"])).
Proof.
  intros acct from w r gmail pre post kept t e Hreach Hsearch Hpre Hfetch.
  assert (Hrun : forall w0,
             getThreadsFromSender gmail from MAX_RESULTS w0
             = (Throw e,
                after_events w0
                  (GmailGetThreads (senderQuery (extractEmailAddress from)) MAX_RESULTS
                   :: map GmailGetThreadMessages (pre ++ [t])))).
  { intros w0. rewrite getThreadsFromSender_eq. cbv zeta. rewrite Hsearch.
    rewrite (collectThreads_app_one_way gmail _ pre (t :: post) kept [] _ Hpre).
    rewrite collectThreads_cons, Hfetch.
    rewrite !after_events_app, map_app. reflexivity. }
  split; [now rewrite Hrun|].
  unfold process, tryCatch.
  rewrite (processBody_to_fetch _ _ _ _ _ Hreach), Hrun.
  rewrite (bind_ok _ _ _ _ _ (logger_run _ _ _)). cbv beta.
  rewrite !after_events_app. simpl. rewrite <- ?app_assoc. reflexivity.
Qed.

(** X8. Once a run has been answered by the oracle, the next trigger for
    the same normalised sender does nothing: it finds the ledger row, logs,
    and answers success without provider call, oracle call or write. *)
Theorem process_retrigger_is_noop :
  forall (emailAccountId from : string) (w : World) (r : EmailAccountRow) (gmail : Gmail)
         (ts : list ThreadWithMessages) (patternResult : option PatternResult),
    extractEmailAddress from = from ->
    reachesProvider emailAccountId from w r gmail ->
    fst (getThreadsFromSender gmail from MAX_RESULTS w) = Ok ts ->
    THRESHOLD_EMAILS <= length (flat_map messages ts) ->
    aiDetectRecurringPattern (map getEmailForLLM (flat_map messages ts))
      (selectEmailAccount (db w) r) (candidateRules (selectEmailAccount (db w) r))
    = Ok patternResult ->
    let w1 := snd (process emailAccountId from w) in
    process emailAccountId from w1
    = (Ok (NextResponse_json (BodySuccess true) 200),
       after_events w1 [EmailAccountFindUnique emailAccountId;
                        NewsletterFindUnique from emailAccountId;
                        Log LInfo "Sender has already been analyzed"]).
Proof.
  intros acct from w r gmail ts pr Hfix Hreach Hts Hmany Horacle. cbv zeta.
  pose proof Hreach as (Hacc & _).
  pose proof (processBody_to_fetch _ _ _ _ _ Hreach) as Hbody.
  destruct (fetch_in_run acct from w gmail ts Hts) as (evs & Hfetch & _ & _).
  rewrite Hfetch in Hbody.
  assert (Hlen : Nat.eqb (length ts) 0 = false).
  { apply Nat.eqb_neq. destruct ts; simpl in *; unfold THRESHOLD_EMAILS in *; lia. }
  assert (Hge : Nat.ltb (length (flat_map messages ts)) THRESHOLD_EMAILS = false)
    by (apply Nat.ltb_ge; exact Hmany).
  rewrite Hlen, Hge in Hbody. cbv zeta in Hbody. rewrite Horacle in Hbody.
  apply process_ok in Hbody. rewrite Hbody. cbn [snd].
  match goal with
  | |- context [savePatternCheck acct from ?l] => set (learned := l)
  end.
  assert (Haccounts : emailAccounts (db learned) = emailAccounts (db w)).
  { subst learned. destruct (truthy (opt_matchedRule pr)); [|reflexivity].
    exact (proj2 (proj2 (saveLearnedPattern_total _ _ _ _))). }
  destruct (savePatternCheck_closes acct from learned) as (row & Hrow & _ & _ & Ha & _).
  assert (Hagain : processBody acct from (snd (savePatternCheck acct from learned))
                   = (Ok (NextResponse_json (BodySuccess true) 200),
                      after_events (snd (savePatternCheck acct from learned))
                        [EmailAccountFindUnique acct;
                         NewsletterFindUnique (extractEmailAddress from) acct;
                         Log LInfo "Sender has already been analyzed"])).
  { apply (processBody_analyzed _ _ _ r).
    - rewrite savePatternCheck_run. cbn [snd db emailAccounts set_newsletters].
      now rewrite Haccounts.
    - rewrite Hfix, Hrow. exact Ha. }
  rewrite Hfix in Hagain. apply process_ok. exact Hagain.
Qed.

End FilterFacts.

(** * Further properties of the store of learned patterns *)

Lemma isNewsletter_key (email emailAccountId : string) (r : NewsletterRow) :
  isNewsletter email emailAccountId r = true <-> newsletterKey r = (email, emailAccountId).
Proof.
  unfold isNewsletter, newsletterKey. rewrite andb_true_iff, !String.eqb_eq. split.
  - intros [-> ->]. reflexivity.
  - intros H. injection H as -> ->. auto.
Qed.

(** An upsert keeps a unique key unique. *)
Lemma upsertRows_keeps_unique {R K : Type} (key : R -> K) (matches : R -> bool) (k : K)
    (update : R -> R) (create : R) (rows : list R) :
  (forall r, matches r = true <-> key r = k) ->
  (forall r, key (update r) = key r) ->
  key create = k ->
  NoDup (map key rows) ->
  NoDup (map key (upsertRows matches update create rows)).
Proof.
  intros Hkey Hupd Hcreate Hnd. unfold upsertRows.
  destruct (existsb matches rows) eqn:Hex.
  - rewrite map_map.
    rewrite (map_ext (fun r => key (if matches r then update r else r)) key); [exact Hnd|].
    intros r. destruct (matches r); [apply Hupd | reflexivity].
  - rewrite map_app. simpl. apply NoDup_app; [exact Hnd | repeat constructor; auto |].
    intros x Hx [<-|[]]. apply in_map_iff in Hx as (r & Hr & Hin).
    assert (Hyes : existsb matches rows = true).
    { apply existsb_exists. exists r. split; [exact Hin|]. apply Hkey. now rewrite Hr. }
    congruence.
Qed.

Lemma upsertPattern_keeps_unique (groupId : string) (items : list GroupItemRow) (p : Pattern) :
  NoDup (map groupItemKey items) ->
  NoDup (map groupItemKey (upsertPattern groupId items p)).
Proof.
  intros Hnd. unfold upsertPattern.
  apply (upsertRows_keeps_unique groupItemKey _ (groupId, pattern_type p, pattern_value p));
    auto using isGroupItem_key.
Qed.

Lemma fold_upsertPattern_keeps_unique (groupId : string) :
  forall (ps : list Pattern) (items : list GroupItemRow),
    NoDup (map groupItemKey items) ->
    NoDup (map groupItemKey (fold_left (upsertPattern groupId) ps items)).
Proof.
  induction ps as [|p ps IH]; intros items Hnd; [exact Hnd|].
  simpl. apply IH. now apply upsertPattern_keeps_unique.
Qed.

(** The group step keeps what was there: accounts, ledger, criteria and
    groups, and every rule but the one it links. *)
Lemma withTargetGroup_frame (d : DB) (emailAccountId ruleName : string) (rule : RuleRow) :
  let d' := withTargetGroup d emailAccountId ruleName rule in
  emailAccounts d' = emailAccounts d
  /\ newsletters d' = newsletters d
  /\ groupItems d' = groupItems d
  /\ incl (groups d) (groups d')
  /\ map rule_id (rules d') = map rule_id (rules d)
  /\ (forall r, In r (rules d) -> rule_id r <> rule_id rule -> In r (rules d')).
Proof.
  unfold withTargetGroup. destruct (truthy (rule_groupId rule)); cbn [emailAccounts
    newsletters groupItems groups rules set_rules set_groups].
  - repeat split; auto using incl_refl.
  - repeat split.
    + apply incl_appl, incl_refl.
    + rewrite map_map. apply map_ext. intros r. unfold connectRule.
      now destruct (rule_id r =? rule_id rule).
    + intros r Hin Hne. apply in_map_iff. exists r. split; [|exact Hin].
      unfold connectRule. apply String.eqb_neq in Hne. now rewrite Hne.
Qed.

Lemma upsert_keeps_rows {R : Type} (matches : R -> bool) (create : R) (rows : list R) :
  incl rows (upsertRows matches (fun r => r) create rows).
Proof.
  unfold upsertRows. destruct (existsb matches rows).
  - intros r Hin. apply in_map_iff. exists r. split; [now destruct (matches r) | exact Hin].
  - apply incl_appl, incl_refl.
Qed.

Lemma saveLearnedPattern_db_unique (emailAccountId from ruleName : string) (w : World) :
  db_unique (db w) ->
  db_unique (db (snd (saveLearnedPattern emailAccountId from ruleName w))).
Proof.
  intros [Hgroups Hitems].
  destruct (find (isRule ruleName emailAccountId) (rules (db w))) as [rule|] eqn:Hfind.
  - rewrite (saveLearnedPattern_found _ _ _ _ _ Hfind). cbn [snd db].
    destruct (groups_after_group_step (db w) emailAccountId ruleName rule Hgroups)
      as (_ & _ & Hnd).
    split; [exact Hnd|]. cbn [groupItems set_groupItems].
    apply (upsertRows_keeps_unique groupItemKey _ (targetGroupId (db w) rule, FROM, from));
      auto using isGroupItem_key.
  - rewrite (saveLearnedPattern_absent _ _ _ _ Hfind). now split.
Qed.

(** X9. When the rule exists, [saveLearnedPattern] keeps the unique keys
    of the store and removes or alters nothing: accounts and ledger are
    untouched, every group and every criterion that was there is still
    there unchanged, and so is every rule other than the one it links. *)
Theorem saveLearnedPattern_keeps_store :
  forall (emailAccountId from ruleName : string) (w : World) (rule : RuleRow),
    db_unique (db w) ->
    find (isRule ruleName emailAccountId) (rules (db w)) = Some rule ->
    let d' := db (snd (saveLearnedPattern emailAccountId from ruleName w)) in
    db_unique d'
    /\ emailAccounts d' = emailAccounts (db w)
    /\ newsletters d' = newsletters (db w)
    /\ incl (groups (db w)) (groups d')
    /\ incl (groupItems (db w)) (groupItems d')
    /\ map rule_id (rules d') = map rule_id (rules (db w))
    /\ (forall r, In r (rules (db w)) -> rule_id r <> rule_id rule -> In r (rules d')).
Proof.
  intros acct from name w rule [Hgroups Hitems] Hfind. cbv zeta.
  rewrite (saveLearnedPattern_found _ _ _ _ _ Hfind). cbn [snd db].
  destruct (withTargetGroup_frame (db w) acct name rule)
    as (Hea & Hnl & _ & Hg & Hids & Hrules).
  split.
  - pose proof (saveLearnedPattern_db_unique acct from name w (conj Hgroups Hitems)) as Hu.
    now rewrite (saveLearnedPattern_found _ _ _ _ _ Hfind) in Hu.
  - repeat split; auto. cbn [groupItems set_groupItems]. apply upsert_keeps_rows.
Qed.

Lemma upsertPattern_key_kept (groupId : string) (items : list GroupItemRow) (p : Pattern) :
  incl (map groupItemKey items) (map groupItemKey (upsertPattern groupId items p)).
Proof.
  unfold upsertPattern, upsertRows. destruct (existsb _ items).
  - rewrite map_map.
    rewrite (map_ext (fun r => groupItemKey (if isGroupItem groupId (pattern_type p)
                                                  (pattern_value p) r
                                             then setExclude (orFalse (pattern_exclude p)) r
                                             else r)) groupItemKey);
      [apply incl_refl|].
    intros r. now destruct (isGroupItem _ _ _ r).
  - rewrite map_app. apply incl_appl, incl_refl.
Qed.

Lemma upsertPattern_other_kept (groupId : string) (items : list GroupItemRow) (p : Pattern)
    (item : GroupItemRow) :
  In item items ->
  isGroupItem groupId (pattern_type p) (pattern_value p) item = false ->
  In item (upsertPattern groupId items p).
Proof.
  intros Hin Hother. unfold upsertPattern, upsertRows. destruct (existsb _ items).
  - apply in_map_iff. exists item. now rewrite Hother.
  - apply in_or_app. now left.
Qed.

Lemma fold_upsertPattern_frame (groupId : string) :
  forall (ps : list Pattern) (items : list GroupItemRow),
    incl (map groupItemKey items) (map groupItemKey (fold_left (upsertPattern groupId) ps items))
    /\ (forall item, In item items -> notAsserted groupId ps item = true ->
                     In item (fold_left (upsertPattern groupId) ps items)).
Proof.
  induction ps as [|p ps IH]; intros items; simpl.
  - split; [apply incl_refl | auto].
  - destruct (IH (upsertPattern groupId items p)) as [Hkeys Hrows]. split.
    + eapply incl_tran; [apply upsertPattern_key_kept | exact Hkeys].
    + intros item Hin Hnot. apply Hrows.
      * apply upsertPattern_other_kept; [exact Hin|].
        unfold notAsserted in Hnot. simpl in Hnot. unfold isGroupItem, assertsKey in *.
        destruct (gi_groupId item =? groupId); [|reflexivity]. simpl in *.
        apply andb_true_iff in Hnot as [Hp _]. apply negb_true_iff in Hp.
        destruct (GroupItemType_eqb (gi_type item) (pattern_type p)) eqn:Ht; [|reflexivity].
        apply GroupItemType_eqb_eq in Ht. rewrite Ht in *.
        rewrite (proj2 (GroupItemType_eqb_eq _ _) eq_refl) in Hp. simpl in *.
        rewrite String.eqb_sym. exact Hp.
      * unfold notAsserted in *. simpl in Hnot.
        destruct (gi_groupId item =? groupId); [|reflexivity]. simpl in *.
        now apply andb_true_iff in Hnot as [_ Hrest].
Qed.

(** X10. When the rule exists, [saveLearnedPatterns] keeps the unique
    keys of the store, loses no criterion key, and leaves unchanged every
    criterion that lies in another group or that none of the patterns
    asserts; accounts and ledger are untouched and no group is removed. *)
Theorem saveLearnedPatterns_keeps_store :
  forall (emailAccountId ruleName : string) (patterns : list Pattern) (w : World)
         (rule : RuleRow),
    db_unique (db w) ->
    find (isRule ruleName emailAccountId) (rules (db w)) = Some rule ->
    let d' := db (snd (saveLearnedPatterns emailAccountId ruleName patterns w)) in
    db_unique d'
    /\ emailAccounts d' = emailAccounts (db w)
    /\ newsletters d' = newsletters (db w)
    /\ incl (groups (db w)) (groups d')
    /\ incl (map groupItemKey (groupItems (db w))) (map groupItemKey (groupItems d'))
    /\ (forall item, In item (groupItems (db w)) ->
                     notAsserted (targetGroupId (db w) rule) patterns item = true ->
                     In item (groupItems d')).
Proof.
  intros acct name ps w rule [Hgroups Hitems] Hfind. cbv zeta.
  rewrite (saveLearnedPatterns_found _ _ _ _ _ Hfind). cbn [snd db].
  destruct (withTargetGroup_frame (db w) acct name rule) as (Hea & Hnl & _ & Hg & _ & _).
  destruct (groups_after_group_step (db w) acct name rule Hgroups) as (_ & _ & Hnd).
  destruct (fold_upsertPattern_frame (targetGroupId (db w) rule) ps (groupItems (db w)))
    as [Hkeys Hrows].
  split; [split|].
  - exact Hnd.
  - cbn [groupItems set_groupItems]. now apply fold_upsertPattern_keeps_unique.
  - repeat split; auto.
Qed.

(** X12. With an empty list of patterns and a rule that has no group yet,
    [saveLearnedPatterns] still creates the group, named after the rule,
    and links the rule to it, while the criteria stay as they were: a group
    without criteria comes into being. *)
Theorem saveLearnedPatterns_empty_creates_group :
  forall (emailAccountId ruleName : string) (w : World) (rule : RuleRow),
    find (isRule ruleName emailAccountId) (rules (db w)) = Some rule ->
    truthy (rule_groupId rule) = false ->
    let d' := db (snd (saveLearnedPatterns emailAccountId ruleName [] w)) in
    exists groupId rule',
      groups d' = groups (db w) ++ [mkGroupRow groupId emailAccountId ruleName]
      /\ ~ In groupId (map group_id (groups (db w)))
      /\ find (isRule ruleName emailAccountId) (rules d') = Some rule'
      /\ rule_groupId rule' = Some groupId
      /\ rule_id rule' = rule_id rule
      /\ groupItems d' = groupItems (db w).
Proof.
  intros acct name w rule Hfind Hfalsy. cbv zeta.
  rewrite (saveLearnedPatterns_found _ _ _ _ _ Hfind). cbn [snd db fold_left].
  destruct (rule_after_group_step (db w) acct name rule Hfind)
    as (rule' & Hfind' & Hgid & _ & Hid).
  exists (targetGroupId (db w) rule), rule'.
  assert (Hgroups : groups (withTargetGroup (db w) acct name rule)
                    = groups (db w) ++ [mkGroupRow (targetGroupId (db w) rule) acct name])
    by (unfold withTargetGroup; now rewrite Hfalsy).
  assert (Hitems : groupItems (withTargetGroup (db w) acct name rule) = groupItems (db w))
    by (unfold withTargetGroup; now rewrite Hfalsy).
  repeat split; auto.
  unfold targetGroupId. rewrite Hfalsy. apply cuid_fresh.
Qed.

(** X13. The two paths agree whenever no FROM criterion of that value is
    currently excluded: asserting (FROM, value) without exclusion through
    [saveLearnedPatterns] leaves exactly the store that [saveLearnedPattern]
    leaves, whether the rule exists or not and whether the criterion is
    there already or not. *)
Theorem single_and_bulk_agree_unless_excluded :
  forall (emailAccountId ruleName value : string) (exclude : option bool) (w : World),
    orFalse exclude = false ->
    (forall item, In item (groupItems (db w)) ->
                  gi_type item = FROM -> gi_value item = value -> gi_exclude item = false) ->
    db (snd (saveLearnedPatterns emailAccountId ruleName [mkPattern FROM value exclude] w))
    = db (snd (saveLearnedPattern emailAccountId value ruleName w)).
Proof.
  intros acct name value exclude w Hex Hfree.
  destruct (find (isRule name acct) (rules (db w))) as [rule|] eqn:Hfind.
  - rewrite (saveLearnedPatterns_found _ _ _ _ _ Hfind),
      (saveLearnedPattern_found _ _ _ _ _ Hfind).
    cbn [snd db fold_left]. f_equal.
    unfold upsertPattern, upsertRows. cbn [pattern_type pattern_value pattern_exclude].
    rewrite Hex. destruct (existsb _ (groupItems (db w))); [|reflexivity].
    apply map_ext_in. intros item Hin.
    destruct (isGroupItem _ FROM value item) eqn:Hkey; [|reflexivity].
    apply isGroupItem_key in Hkey. unfold groupItemKey in Hkey. injection Hkey as _ Ht Hv.
    specialize (Hfree item Hin Ht Hv). destruct item as [g t v e]. simpl in *. now subst.
  - rewrite (saveLearnedPattern_absent _ _ _ _ Hfind).
    unfold saveLearnedPatterns, prisma_rule_findUnique. run_async. now rewrite Hfind.
Qed.

Lemma set_groupItems_twice (d : DB) (a b : list GroupItemRow) :
  set_groupItems (set_groupItems d a) b = set_groupItems d b.
Proof. reflexivity. Qed.

(** X14. Saving a list of patterns in two calls, the first part and then
    the rest, leaves the same store as saving the whole list at once,
    whether the rule exists or not and whether it had a group or not. *)
Theorem saveLearnedPatterns_app :
  forall (emailAccountId ruleName : string) (ps1 ps2 : list Pattern) (w : World),
    db (snd (saveLearnedPatterns emailAccountId ruleName ps2
               (snd (saveLearnedPatterns emailAccountId ruleName ps1 w))))
    = db (snd (saveLearnedPatterns emailAccountId ruleName (ps1 ++ ps2) w)).
Proof.
  intros acct name ps1 ps2 w.
  destruct (find (isRule name acct) (rules (db w))) as [rule|] eqn:Hfind.
  - rewrite (saveLearnedPatterns_found _ _ (ps1 ++ ps2) _ _ Hfind).
    rewrite (saveLearnedPatterns_found _ _ ps1 _ _ Hfind). cbn [snd].
    destruct (rule_after_group_step (db w) acct name rule Hfind)
      as (rule' & Hfind' & Hgid & Htruthy & _).
    rewrite (saveLearnedPatterns_found _ _ ps2 _ rule') by exact Hfind'.
    cbn [snd db].
    assert (Htarget : forall items,
               targetGroupId (set_groupItems (withTargetGroup (db w) acct name rule) items)
                 rule' = targetGroupId (db w) rule).
    { intros items. unfold targetGroupId at 1. rewrite Htruthy, Hgid.
      rewrite Hgid in Htruthy. unfold orEmpty. now rewrite Htruthy. }
    assert (Hkeep : forall items,
               withTargetGroup (set_groupItems (withTargetGroup (db w) acct name rule) items)
                 acct name rule'
               = set_groupItems (withTargetGroup (db w) acct name rule) items).
    { intros items. unfold withTargetGroup at 1. now rewrite Htruthy. }
    rewrite Htarget, Hkeep, set_groupItems_twice. cbn [groupItems set_groupItems].
    now rewrite fold_left_app.
  - assert (Hnone : forall ps w0, db w0 = db w ->
               db (snd (saveLearnedPatterns acct name ps w0)) = db w).
    { intros ps w0 Hdb. unfold saveLearnedPatterns, prisma_rule_findUnique. run_async.
      rewrite Hdb, Hfind. reflexivity. }
    rewrite (Hnone ps2), (Hnone (ps1 ++ ps2)); auto.
Qed.

(** * Further properties of the ledger write and of the route *)

Section LedgerFacts.
Context {EU : EmailUtils} {CO : Collaborators}.

(** An upsert whose update is idempotent and fixes the created row is
    idempotent. *)
Lemma upsertRows_idempotent {R : Type} (matches : R -> bool) (update : R -> R) (create : R)
    (rows : list R) :
  (forall r, matches r = true -> matches (update r) = true) ->
  (forall r, update (update r) = update r) ->
  matches create = true ->
  update create = create ->
  upsertRows matches update create (upsertRows matches update create rows)
  = upsertRows matches update create rows.
Proof.
  intros Hkeep Hidem Hcreate Hfix.
  assert (Hex : existsb matches (upsertRows matches update create rows) = true).
  { pose proof (find_upsert _ matches update create rows Hkeep Hcreate) as Hfind.
    apply find_some in Hfind as [Hin Hm]. apply existsb_exists. eauto. }
  unfold upsertRows at 1. rewrite Hex. unfold upsertRows.
  destruct (existsb matches rows) eqn:Hrows.
  - rewrite map_map. apply map_ext. intros r.
    destruct (matches r) eqn:Hr.
    + now rewrite (Hkeep r Hr), Hidem.
    + now rewrite Hr.
  - rewrite map_app. simpl. rewrite Hcreate, Hfix. f_equal.
    rewrite <- (map_id rows) at 2. apply map_ext_in. intros r Hin.
    destruct (matches r) eqn:Hr; [|reflexivity].
    assert (Hyes : existsb matches rows = true) by (apply existsb_exists; eauto).
    congruence.
Qed.

Lemma savePatternCheck_keeps_ledger_unique (emailAccountId from : string) (w : World) :
  ledger_unique (db w) ->
  ledger_unique (db (snd (savePatternCheck emailAccountId from w))).
Proof.
  intros Hnd. rewrite savePatternCheck_run. unfold ledger_unique. cbn [snd db newsletters
    set_newsletters].
  apply (upsertRows_keeps_unique newsletterKey _ (from, emailAccountId));
    auto using isNewsletter_key.
Qed.

(** X15. The ledger write touches the ledger only and, in it, the row of
    its own (sender, account) only: every other row stays as it is; a row
    that is new or changed carries the key asked for, the analyzed mark and
    the time of the write; and writing twice at the same clock leaves what
    writing once leaves. *)
Theorem savePatternCheck_frame_and_idempotence :
  forall (emailAccountId from : string) (w : World),
    let w1 := snd (savePatternCheck emailAccountId from w) in
    emailAccounts (db w1) = emailAccounts (db w)
    /\ rules (db w1) = rules (db w)
    /\ groups (db w1) = groups (db w)
    /\ groupItems (db w1) = groupItems (db w)
    /\ (forall row, In row (newsletters (db w)) ->
                    isNewsletter from emailAccountId row = false ->
                    In row (newsletters (db w1)))
    /\ (forall row, In row (newsletters (db w1)) ->
                    In row (newsletters (db w))
                    \/ row = mkNewsletterRow from emailAccountId true (Some Date_now))
    /\ db (snd (savePatternCheck emailAccountId from w1)) = db w1.
Proof.
  intros acct from w. cbv zeta. rewrite !savePatternCheck_run.
  cbn [snd db emailAccounts rules groups groupItems newsletters set_newsletters].
  set (upd := fun r => mkNewsletterRow (nl_email r) (nl_emailAccountId r) true (Some Date_now)).
  set (new := mkNewsletterRow from acct true (Some Date_now)).
  assert (Hnew : isNewsletter from acct new = true)
    by (unfold isNewsletter; simpl; now rewrite !String.eqb_refl).
  do 4 (split; [reflexivity|]). split; [|split].
  - intros row Hin Hother. unfold upsertRows. destruct (existsb _ _).
    + apply in_map_iff. exists row. now rewrite Hother.
    + apply in_or_app. now left.
  - intros row Hin. apply in_upsertRows in Hin as [Hin|[->|(r & Hin & Hr & ->)]]; auto.
    right. unfold upd, new. apply isNewsletter_key in Hr. unfold newsletterKey in Hr.
    injection Hr as -> ->. reflexivity.
  - unfold set_newsletters. cbn [emailAccounts rules groups groupItems]. f_equal.
    now apply upsertRows_idempotent.
Qed.

End LedgerFacts.

Section RouteFacts.
Context {EU : EmailUtils} {CO : Collaborators}.

(** X11. A run of [process] keeps the unique keys of the store: group
    identifiers, criterion keys and ledger keys stay unique whatever way the
    run takes. *)
Theorem process_keeps_unique_keys :
  forall (emailAccountId from : string) (w : World),
    db_unique (db w) ->
    ledger_unique (db w) ->
    db_unique (db (snd (process emailAccountId from w)))
    /\ ledger_unique (db (snd (process emailAccountId from w))).
Proof.
  intros acct from w Hdb Hledger.
  destruct (process_runs acct from w) as (res & w' & Hrun & Hcase).
  rewrite Hrun. cbn [snd].
  destruct Hcase as
    [Hacc | r Hacc Hcheck | r Hacc Hcheck Htok | r e Hacc Hcheck Htok Hg
     | r gmail e evs Hreach Hts Hq | r gmail ts evs msg Hreach Hts Hfew Hq
     | r gmail ts evs e Hreach Hts Hmany Hq Horacle
     | r gmail ts evs pr Hreach Hts Hmany Hq Horacle];
    try (split; assumption).
  match goal with
  | |- context [savePatternCheck acct from ?l] => set (learned := l)
  end.
  assert (Hlearned : db_unique (db learned) /\ ledger_unique (db learned)).
  { subst learned. destruct (truthy (opt_matchedRule pr)); [|split; assumption]. split.
    - now apply saveLearnedPattern_db_unique.
    - unfold ledger_unique.
      now rewrite (proj1 (proj2 (saveLearnedPattern_total _ _ _ _))). }
  destruct Hlearned as [Hdb' Hledger']. split.
  - rewrite savePatternCheck_run. exact Hdb'.
  - now apply savePatternCheck_keeps_ledger_unique.
Qed.

(** X16. The answer of the route depends on the key and on the shape of
    the body only, never on the background run.  With an invalid key nothing
    is started, whatever the body: the world gains one log line and the
    answer is the error body, sent with status 200.  With a valid key, a body
    that is not JSON or that the schema refuses makes the handler throw
    before any work is started, the world as it was; a body the schema
    accepts is answered "processing", also when the background run ends in
    failure, and the world is the one that run leaves. *)
Theorem POST_answer_depends_on_key_and_body_only :
  forall (body : Result Json) (w : World),
    POST (mkRequest false body) w
    = (Ok (NextResponse_json (BodyError "Invalid API key") 200),
       after_events w [Log LError "Invalid API key"])
    /\ match body with
       | Throw e => POST (mkRequest true body) w = (Throw e, w)
       | Ok json =>
           match schema_parse json with
           | Throw e => POST (mkRequest true body) w = (Throw e, w)
           | Ok data =>
               exists res,
                 POST (mkRequest true body) w
                 = (Ok (NextResponse_json (BodyProcessing true) 200),
                    snd (process (body_emailAccountId data)
                           (extractEmailAddress (body_from data))
                           (after_events w [Log LTrace "Analyzing sender pattern"])))
                 /\ fst (process (body_emailAccountId data)
                           (extractEmailAddress (body_from data))
                           (after_events w [Log LTrace "Analyzing sender pattern"])) = Ok res
           end
       end.
Proof.
  intros body w. split; [reflexivity|].
  destruct body as [json|e]; [|reflexivity].
  destruct (schema_parse json) as [data|e] eqn:Hparse.
  2:{ unfold POST. cbn [negb validInternalApiKey request_json].
      unfold bind, await. now rewrite Hparse. }
  destruct (process_runs (body_emailAccountId data) (extractEmailAddress (body_from data))
              (after_events w [Log LTrace "Analyzing sender pattern"]))
    as (res & w' & Hrun & _).
  exists res. rewrite Hrun. split; [|reflexivity].
  unfold POST. cbn [negb validInternalApiKey request_json].
  unfold bind at 1. unfold await at 1. unfold bind at 1. unfold await at 1.
  rewrite Hparse.
  rewrite (bind_ok _ _ _ _ _ (logger_run _ _ _)). cbv beta.
  unfold bind, after, ret. now rewrite Hrun.
Qed.

End RouteFacts.

(** * Saving the same patterns again *)

Lemma patternPresent_existsb (groupId : string) (items : list GroupItemRow) (p : Pattern) :
  patternPresent groupId items p <->
  existsb (isGroupItem groupId (pattern_type p) (pattern_value p)) items = true.
Proof.
  unfold patternPresent. rewrite existsb_exists, in_map_iff. split.
  - intros (r & Hk & Hin). exists r. split; [exact Hin | now apply isGroupItem_key].
  - intros (r & Hin & Hk). exists r. split; [now apply isGroupItem_key | exact Hin].
Qed.

Lemma groupItemKey_applyPattern (groupId : string) (p : Pattern) (r : GroupItemRow) :
  groupItemKey (applyPattern groupId r p) = groupItemKey r.
Proof.
  unfold applyPattern. now destruct (isGroupItem _ _ _ r).
Qed.

Lemma fold_upsertPattern_present (groupId : string) :
  forall (ps : list Pattern) (items : list GroupItemRow),
    Forall (patternPresent groupId items) ps ->
    fold_left (upsertPattern groupId) ps items
    = map (fun r => fold_left (applyPattern groupId) ps r) items.
Proof.
  induction ps as [|p ps IH]; intros items Hall; simpl.
  - now rewrite map_id.
  - inversion Hall as [|? ? Hp Hrest]; subst.
    assert (Hstep : upsertPattern groupId items p = map (fun r => applyPattern groupId r p) items).
    { unfold upsertPattern, upsertRows.
      now rewrite (proj1 (patternPresent_existsb groupId items p) Hp). }
    rewrite Hstep, IH, map_map; [reflexivity|].
    apply Forall_forall. intros q Hq. unfold patternPresent.
    rewrite map_map.
    rewrite (map_ext _ groupItemKey (groupItemKey_applyPattern groupId p)).
    rewrite Forall_forall in Hrest. now apply Hrest.
Qed.

Lemma fold_upsertPattern_all_present (groupId : string) :
  forall (ps : list Pattern) (items : list GroupItemRow),
    Forall (patternPresent groupId (fold_left (upsertPattern groupId) ps items)) ps.
Proof.
  induction ps as [|p ps IH]; intros items; simpl; constructor.
  - destruct (fold_upsertPattern_frame groupId ps (upsertPattern groupId items p))
      as [Hkeys _].
    apply Hkeys. apply patternPresent_existsb.
    destruct (upsertPattern_sets_flag groupId items p) as [(row & Hin & Hrow) _].
    apply existsb_exists. eauto.
  - apply IH.
Qed.

Lemma fold_applyPattern_shape (groupId : string) :
  forall (ps : list Pattern) (r : GroupItemRow),
    exists e, fold_left (applyPattern groupId) ps r = setExclude e r.
Proof.
  induction ps as [|p ps IH]; intros r; simpl.
  - exists (gi_exclude r). now destruct r.
  - destruct (IH (applyPattern groupId r p)) as [e He]. exists e. rewrite He.
    unfold applyPattern. now destruct (isGroupItem _ _ _ r).
Qed.

Lemma fold_upsertPattern_fixed (groupId : string) :
  forall (ps : list Pattern) (items : list GroupItemRow) (r : GroupItemRow),
    In r (fold_left (upsertPattern groupId) ps items) ->
    fold_left (applyPattern groupId) ps r = r.
Proof.
  induction ps as [|p qs IH] using rev_ind; intros items r Hin; [reflexivity|].
  rewrite fold_left_app in *. simpl in *.
  destruct (isGroupItem groupId (pattern_type p) (pattern_value p) r) eqn:Hkey.
  - destruct (upsertPattern_sets_flag groupId (fold_left (upsertPattern groupId) qs items) p)
      as [_ Hflag].
    specialize (Hflag r Hin Hkey).
    destruct (fold_applyPattern_shape groupId qs r) as [e He]. rewrite He.
    unfold applyPattern. rewrite isGroupItem_setExclude, Hkey.
    destruct r as [g t v x]. simpl in *. now subst.
  - assert (Hbefore : In r (fold_left (upsertPattern groupId) qs items)).
    { unfold upsertPattern in Hin.
      apply in_upsertRows in Hin as [Hin|[->|(r0 & Hin & Hr0 & ->)]]; [exact Hin| |].
      - now rewrite isGroupItem_refl in Hkey.
      - rewrite isGroupItem_setExclude in Hkey. congruence. }
    rewrite (IH items r Hbefore). unfold applyPattern. now rewrite Hkey.
Qed.

Lemma fold_upsertPattern_idempotent (groupId : string) (ps : list Pattern)
    (items : list GroupItemRow) :
  fold_left (upsertPattern groupId) ps (fold_left (upsertPattern groupId) ps items)
  = fold_left (upsertPattern groupId) ps items.
Proof.
  rewrite (fold_upsertPattern_present groupId ps _
             (fold_upsertPattern_all_present groupId ps items)).
  rewrite <- (map_id (fold_left (upsertPattern groupId) ps items)) at 2.
  apply map_ext_in. intros r Hin. now apply (fold_upsertPattern_fixed groupId ps items).
Qed.

(** X17. Saving the same list of patterns a second time changes nothing:
    the store after the second call of [saveLearnedPatterns] is the store
    after the first, for every list (also one that asserts a key several
    times), whether the rule exists or not. *)
Theorem saveLearnedPatterns_idempotent :
  forall (emailAccountId ruleName : string) (patterns : list Pattern) (w : World),
    db (snd (saveLearnedPatterns emailAccountId ruleName patterns
               (snd (saveLearnedPatterns emailAccountId ruleName patterns w))))
    = db (snd (saveLearnedPatterns emailAccountId ruleName patterns w)).
Proof.
  intros acct name ps w.
  destruct (find (isRule name acct) (rules (db w))) as [rule|] eqn:Hfind.
  - rewrite (saveLearnedPatterns_found _ _ ps w _ Hfind). cbn [snd].
    destruct (rule_after_group_step (db w) acct name rule Hfind)
      as (rule' & Hfind' & Hgid & Htruthy & _).
    rewrite (saveLearnedPatterns_found _ _ ps _ rule') by exact Hfind'.
    cbn [snd db].
    assert (Htarget : forall items,
               targetGroupId (set_groupItems (withTargetGroup (db w) acct name rule) items)
                 rule' = targetGroupId (db w) rule).
    { intros items. unfold targetGroupId at 1. rewrite Htruthy, Hgid.
      rewrite Hgid in Htruthy. unfold orEmpty. now rewrite Htruthy. }
    assert (Hkeep : forall items,
               withTargetGroup (set_groupItems (withTargetGroup (db w) acct name rule) items)
                 acct name rule'
               = set_groupItems (withTargetGroup (db w) acct name rule) items).
    { intros items. unfold withTargetGroup at 1. now rewrite Htruthy. }
    rewrite Htarget, Hkeep, set_groupItems_twice. cbn [groupItems set_groupItems].
    now rewrite fold_upsertPattern_idempotent.
  - assert (Hnone : forall w0, db w0 = db w ->
               db (snd (saveLearnedPatterns acct name ps w0)) = db w).
    { intros w0 Hdb. unfold saveLearnedPatterns, prisma_rule_findUnique. run_async.
      rewrite Hdb, Hfind. reflexivity. }
    rewrite (Hnone w eq_refl). now apply Hnone, Hnone.
Qed.

(** * The further properties at concrete inputs *)

Lemma getThreadsFromSender_keeps_one_way_threads_witness :
  @getThreadsFromSender SpecEmailUtils newsCollaborators (GmailClient "acc1")
    "news@example.com" MAX_RESULTS demoWorld
  = (Ok (threadsOf newsMailbox),
     after_events demoWorld
       (GmailGetThreads (senderQuery "news@example.com") MAX_RESULTS
        :: map GmailGetThreadMessages ["t1"; "t2"; "t3"])).
Proof.
  apply (@getThreadsFromSender_keeps_one_way_threads SpecEmailUtils newsCollaborators
           (GmailClient "acc1") "news@example.com" MAX_RESULTS demoWorld
           ["t1"; "t2"; "t3"] (threadsOf newsMailbox)).
  - reflexivity.
  - repeat constructor.
Defined.

Lemma getThreadsFromSender_stops_at_conversation_witness :
  @getThreadsFromSender SpecEmailUtils
    (demoCollaborators "news@example.com" repliedMailbox matchNewsletters)
    (GmailClient "acc1") "news@example.com" MAX_RESULTS demoWorld
  = (Ok [],
     after_events demoWorld
       (GmailGetThreads (senderQuery "news@example.com") MAX_RESULTS
        :: map GmailGetThreadMessages (["t1"] ++ ["t2"])
        ++ [Log LInfo "Skipping sender pattern detection - conversation detected"])).
Proof.
  apply (@getThreadsFromSender_stops_at_conversation SpecEmailUtils
           (demoCollaborators "news@example.com" repliedMailbox matchNewsletters)
           (GmailClient "acc1") "news@example.com" MAX_RESULTS demoWorld
           ["t1"] ["t3"] [mkThread "t1" [demoMessage "m1" "news@example.com"]]
           "t2" [demoMessage "m2" "news@example.com"; demoMessage "m3" "Me <me@example.com>"]
           (demoMessage "m3" "Me <me@example.com>")).
  - reflexivity.
  - repeat constructor.
  - reflexivity.
  - simpl. tauto.
  - vm_compute. discriminate.
Defined.

Lemma process_thread_fetch_rejected_witness :
  fst (@getThreadsFromSender SpecEmailUtils brokenCollaborators (GmailClient "acc1")
         "news@example.com" MAX_RESULTS demoWorld)
  = Throw "Requested entity was not found."
  /\ @process SpecEmailUtils brokenCollaborators "acc1" "news@example.com" demoWorld
     = (Ok (NextResponse_json (BodyError "Failed to detect pattern") 500),
        after_events demoWorld
          (@fetchPrefix SpecEmailUtils "acc1" "news@example.com"
           ++ GmailGetThreads (senderQuery "news@example.com") MAX_RESULTS
              :: map GmailGetThreadMessages (["t1"] ++ ["gone"])
           ++ [Log LError "Error in pattern match API"])).
Proof.
  apply (@process_thread_fetch_rejected SpecEmailUtils brokenCollaborators
           "acc1" "news@example.com" demoWorld demoAccount (GmailClient "acc1")
           ["t1"] ["t3"] [mkThread "t1" [demoMessage "t1" "news@example.com"]]
           "gone" "Requested entity was not found.").
  - unfold reachesProvider. repeat split; reflexivity.
  - reflexivity.
  - repeat constructor.
  - reflexivity.
Defined.

Lemma process_retrigger_is_noop_witness :
  let w1 := snd (@process SpecEmailUtils newsCollaborators "acc1" "news@example.com"
                   demoWorld) in
  @process SpecEmailUtils newsCollaborators "acc1" "news@example.com" w1
  = (Ok (NextResponse_json (BodySuccess true) 200),
     after_events w1 [EmailAccountFindUnique "acc1";
                      NewsletterFindUnique "news@example.com" "acc1";
                      Log LInfo "Sender has already been analyzed"]).
Proof.
  apply (@process_retrigger_is_noop SpecEmailUtils newsCollaborators
           "acc1" "news@example.com" demoWorld demoAccount (GmailClient "acc1")
           (threadsOf newsMailbox) (Some (mkPatternResult (Some "Newsletters")))).
  - reflexivity.
  - apply reachesProvider_demo.
  - reflexivity.
  - vm_compute. lia.
  - reflexivity.
Defined.

Lemma demo_stores_unique :
  db_unique (db demoWorld) /\ ledger_unique (db demoWorld)
  /\ db_unique (db includedWorld).
Proof.
  repeat split; simpl; repeat constructor; simpl; intuition discriminate.
Defined.

Lemma saveLearnedPattern_keeps_store_witness :
  let d' := db (snd (saveLearnedPattern "acc1" "news@example.com" "Newsletters" demoWorld)) in
  db_unique d'
  /\ emailAccounts d' = emailAccounts (db demoWorld)
  /\ newsletters d' = newsletters (db demoWorld)
  /\ incl (groups (db demoWorld)) (groups d')
  /\ incl (groupItems (db demoWorld)) (groupItems d')
  /\ map rule_id (rules d') = map rule_id (rules (db demoWorld))
  /\ (forall r, In r (rules (db demoWorld)) -> rule_id r <> rule_id demoRule ->
                In r (rules d')).
Proof.
  apply (saveLearnedPattern_keeps_store "acc1" "news@example.com" "Newsletters" demoWorld
           demoRule).
  - apply demo_stores_unique.
  - reflexivity.
Defined.

Lemma saveLearnedPatterns_keeps_store_witness :
  let patterns := [mkPattern FROM "news@example.com" (Some true);
                   mkPattern SUBJECT "Receipt" None] in
  let rule := mkRuleRow "rule1" "Newsletters" "acc1" true (Some "Newsletters and digests")
                (Some "g1") in
  let d' := db (snd (saveLearnedPatterns "acc1" "Newsletters" patterns includedWorld)) in
  db_unique d'
  /\ emailAccounts d' = emailAccounts (db includedWorld)
  /\ newsletters d' = newsletters (db includedWorld)
  /\ incl (groups (db includedWorld)) (groups d')
  /\ incl (map groupItemKey (groupItems (db includedWorld))) (map groupItemKey (groupItems d'))
  /\ (forall item, In item (groupItems (db includedWorld)) ->
                   notAsserted (targetGroupId (db includedWorld) rule) patterns item = true ->
                   In item (groupItems d')).
Proof.
  apply (saveLearnedPatterns_keeps_store "acc1" "Newsletters"
           [mkPattern FROM "news@example.com" (Some true); mkPattern SUBJECT "Receipt" None]
           includedWorld
           (mkRuleRow "rule1" "Newsletters" "acc1" true (Some "Newsletters and digests")
              (Some "g1"))).
  - apply demo_stores_unique.
  - reflexivity.
Defined.

Lemma process_keeps_unique_keys_witness :
  db_unique (db (snd (@process SpecEmailUtils newsCollaborators "acc1" "news@example.com"
                        demoWorld)))
  /\ ledger_unique (db (snd (@process SpecEmailUtils newsCollaborators "acc1"
                               "news@example.com" demoWorld))).
Proof.
  apply (@process_keeps_unique_keys SpecEmailUtils newsCollaborators
           "acc1" "news@example.com" demoWorld); apply demo_stores_unique.
Defined.

Lemma saveLearnedPatterns_empty_creates_group_witness :
  let d' := db (snd (saveLearnedPatterns "acc1" "Newsletters" [] demoWorld)) in
  exists groupId rule',
    groups d' = groups (db demoWorld) ++ [mkGroupRow groupId "acc1" "Newsletters"]
    /\ ~ In groupId (map group_id (groups (db demoWorld)))
    /\ find (isRule "Newsletters" "acc1") (rules d') = Some rule'
    /\ rule_groupId rule' = Some groupId
    /\ rule_id rule' = rule_id demoRule
    /\ groupItems d' = groupItems (db demoWorld).
Proof.
  apply (saveLearnedPatterns_empty_creates_group "acc1" "Newsletters" demoWorld demoRule);
    reflexivity.
Defined.

Lemma single_and_bulk_agree_unless_excluded_witness :
  db (snd (saveLearnedPatterns "acc1" "Newsletters" [mkPattern FROM "news@example.com" None]
             includedWorld))
  = db (snd (saveLearnedPattern "acc1" "news@example.com" "Newsletters" includedWorld)).
Proof.
  apply (single_and_bulk_agree_unless_excluded "acc1" "Newsletters" "news@example.com" None
           includedWorld).
  - reflexivity.
  - intros item Hin Ht Hv. simpl in Hin. destruct Hin as [<-|[<-|[]]]; [reflexivity|].
    discriminate Ht.
Defined.

(** * The sender key of a run *)

Section KeyFacts.
Context {EU : EmailUtils} {CO : Collaborators}.

(** With the account in the store, a run starts with the lookup of the
    account and the lookup of the Sender Check under the normalised sender. *)
Lemma process_first_lookups (emailAccountId from : string) (w : World) (r : EmailAccountRow) :
  find (fun r => ea_id r =? emailAccountId) (emailAccounts (db w)) = Some r ->
  exists rest,
    trace (snd (process emailAccountId from w))
    = trace w ++ EmailAccountFindUnique emailAccountId
                 :: NewsletterFindUnique (extractEmailAddress from) emailAccountId :: rest.
Proof.
  intros Hfound.
  destruct (process_runs emailAccountId from w) as (res & w' & Hrun & Hcase).
  rewrite Hrun. cbn [snd].
  destruct Hcase as
    [Hacc | r0 Hacc Hcheck | r0 Hacc Hcheck Htok | r0 e Hacc Hcheck Htok Hg
     | r0 gmail e evs Hreach Hts Hq | r0 gmail ts evs msg Hreach Hts Hfew Hq
     | r0 gmail ts evs e Hreach Hts Hmany Hq Horacle
     | r0 gmail ts evs pr Hreach Hts Hmany Hq Horacle].
  - congruence.
  - eexists. reflexivity.
  - eexists. reflexivity.
  - eexists. reflexivity.
  - eexists. reflexivity.
  - eexists. reflexivity.
  - eexists. unfold askedWorld, after_events, fetchPrefix. cbn [trace app].
    rewrite <- app_assoc. reflexivity.
  - destruct (settled_world emailAccountId from w r0 ts evs pr Hq) as (learned & Htr & _).
    rewrite Htr. eexists. unfold fetchPrefix. cbn [app]. reflexivity.
Qed.

(** A run that gets to the oracle and is answered ends in the ledger write
    that follows what the answer made it learn; [evs] are the events of the
    loop over the threads. *)
Lemma process_settled_run (emailAccountId from : string) (w : World) (r : EmailAccountRow)
    (gmail : Gmail) (ts : list ThreadWithMessages) (patternResult : option PatternResult) :
  reachesProvider emailAccountId from w r gmail ->
  fst (getThreadsFromSender gmail from MAX_RESULTS w) = Ok ts ->
  THRESHOLD_EMAILS <= length (flat_map messages ts) ->
  aiDetectRecurringPattern (map getEmailForLLM (flat_map messages ts))
    (selectEmailAccount (db w) r) (candidateRules (selectEmailAccount (db w) r))
  = Ok patternResult ->
  exists evs,
    let asked :=
      after_events w
        (fetchPrefix emailAccountId from
         ++ GmailGetThreads (senderQuery (extractEmailAddress from)) MAX_RESULTS :: evs
         ++ [AiDetectRecurringPattern (map getEmailForLLM (flat_map messages ts))
               (candidateRules (selectEmailAccount (db w) r))]) in
    process emailAccountId from w
    = (Ok (NextResponse_json (BodySuccess true) 200),
       snd (savePatternCheck emailAccountId from
              (if truthy (opt_matchedRule patternResult)
               then snd (saveLearnedPattern emailAccountId from
                           (orEmpty (opt_matchedRule patternResult)) asked)
               else asked))).
Proof.
  intros Hreach Hts Hmany Horacle.
  pose proof (processBody_to_fetch _ _ _ _ _ Hreach) as Hbody.
  rewrite (getThreadsFromSender_result gmail from MAX_RESULTS w
             (after_events w (fetchPrefix emailAccountId from))) in Hts.
  destruct (getThreadsFromSender_frame gmail from MAX_RESULTS
              (after_events w (fetchPrefix emailAccountId from))) as (evs & Hsnd & _).
  destruct (getThreadsFromSender gmail from MAX_RESULTS _) as [res w1].
  simpl in Hts, Hsnd. subst res w1. rewrite after_events_app in Hbody.
  assert (Hlen : Nat.eqb (length ts) 0 = false).
  { apply Nat.eqb_neq. destruct ts; simpl in *; unfold THRESHOLD_EMAILS in *; lia. }
  assert (Hge : Nat.ltb (length (flat_map messages ts)) THRESHOLD_EMAILS = false)
    by (apply Nat.ltb_ge; exact Hmany).
  rewrite Hlen, Hge in Hbody. cbv zeta in Hbody. rewrite Horacle in Hbody.
  rewrite after_events_app in Hbody.
  apply process_ok in Hbody. exists evs. cbv zeta. rewrite Hbody.
  rewrite !after_events_app. reflexivity.
Qed.

(** A run that gets to the mail provider searches for the normalised
    sender. *)
Lemma process_search_query (emailAccountId from : string) (w : World) (r : EmailAccountRow)
    (gmail : Gmail) :
  reachesProvider emailAccountId from w r gmail ->
  exists rest,
    trace (snd (process emailAccountId from w))
    = trace w ++ fetchPrefix emailAccountId from
      ++ GmailGetThreads (senderQuery (extractEmailAddress from)) MAX_RESULTS :: rest.
Proof.
  intros Hreach.
  pose proof (processBody_to_fetch _ _ _ _ _ Hreach) as Hbody.
  destruct (getThreadsFromSender_frame gmail from MAX_RESULTS
              (after_events w (fetchPrefix emailAccountId from))) as (evs & Hsnd & _).
  rewrite after_events_app in Hsnd.
  unfold process, tryCatch. rewrite Hbody. clear Hbody.
  destruct (getThreadsFromSender gmail from MAX_RESULTS _) as [[ts|e] w1];
    simpl in Hsnd; subst w1.
  2:{ exists (evs ++ [Log LError "Error in pattern match API"]).
      cbn [snd trace after_events logger bind emit ret fst].
      rewrite <- !app_assoc. reflexivity. }
  destruct (Nat.eqb (length ts) 0).
  { cbn [snd trace after_events]. rewrite <- !app_assoc. eexists. reflexivity. }
  destruct (Nat.ltb _ THRESHOLD_EMAILS).
  { cbn [snd trace after_events]. rewrite <- !app_assoc. eexists. reflexivity. }
  cbv zeta.
  destruct (aiDetectRecurringPattern _ _ _) as [patternResult|e].
  2:{ eexists. cbn [snd trace after_events logger bind emit ret fst].
      rewrite <- !app_assoc. reflexivity. }
  cbn [snd]. rewrite savePatternCheck_run. cbn [trace].
  destruct (truthy (opt_matchedRule patternResult)).
  - match goal with
    | |- context [saveLearnedPattern emailAccountId from ?n ?w0] =>
        destruct (saveLearnedPattern_events emailAccountId from n w0) as (learned & Htr & _)
    end.
    rewrite Htr. cbn [trace after_events]. rewrite <- !app_assoc. eexists. reflexivity.
  - cbn [trace after_events]. rewrite <- !app_assoc. eexists. reflexivity.
Qed.

Lemma upsertRows_present {R : Type} (matches : R -> bool) (update : R -> R) (create : R)
    (rows : list R) :
  matches create = true ->
  (forall r, matches r = true -> matches (update r) = true) ->
  exists row, In row (upsertRows matches update create rows) /\ matches row = true.
Proof.
  intros Hcreate Hupdate. unfold upsertRows.
  destruct (existsb matches rows) eqn:Hex.
  - apply existsb_exists in Hex as (r & Hin & Hr).
    exists (update r). split; [|now apply Hupdate].
    apply in_map_iff. exists r. now rewrite Hr.
  - exists create. split; [apply in_or_app; right; now left | exact Hcreate].
Qed.

(** A run that the oracle answered writes the ledger under the sender it
    was started with, last of all, and when the answer names a rule of the
    account, it upserts a FROM criterion of that sender in the rule's group. *)
Lemma process_records_under_sender (emailAccountId from : string) (w : World)
    (r : EmailAccountRow) (gmail : Gmail) (ts : list ThreadWithMessages)
    (patternResult : option PatternResult) :
  reachesProvider emailAccountId from w r gmail ->
  fst (getThreadsFromSender gmail from MAX_RESULTS w) = Ok ts ->
  THRESHOLD_EMAILS <= length (flat_map messages ts) ->
  aiDetectRecurringPattern (map getEmailForLLM (flat_map messages ts))
    (selectEmailAccount (db w) r) (candidateRules (selectEmailAccount (db w) r))
  = Ok patternResult ->
  let w' := snd (process emailAccountId from w) in
  (exists before, trace w' = trace w ++ before ++ [NewsletterUpsert from emailAccountId])
  /\ (exists row, senderCheck (db w') from emailAccountId = Some row
                  /\ nl_email row = from /\ nl_patternAnalyzed row = true)
  /\ (forall rule,
        truthy (opt_matchedRule patternResult) = true ->
        find (isRule (orEmpty (opt_matchedRule patternResult)) emailAccountId) (rules (db w))
        = Some rule ->
        (exists before rest,
           trace w' = trace w ++ before
                      ++ GroupItemUpsert (targetGroupId (db w) rule) FROM from :: rest)
        /\ exists item, In item (groupItems (db w'))
                        /\ isGroupItem (targetGroupId (db w) rule) FROM from item = true).
Proof.
  intros Hreach Hts Hmany Horacle. cbv zeta.
  destruct (process_settled_run _ _ _ _ _ _ _ Hreach Hts Hmany Horacle) as (evs & Hrun).
  cbv zeta in Hrun. rewrite Hrun. cbn [snd]. clear Hrun.
  set (asking := fetchPrefix emailAccountId from
                 ++ GmailGetThreads (senderQuery (extractEmailAddress from)) MAX_RESULTS
                    :: evs
                 ++ [AiDetectRecurringPattern (map getEmailForLLM (flat_map messages ts))
                       (candidateRules (selectEmailAccount (db w) r))]).
  match goal with
  | |- context [savePatternCheck emailAccountId from ?l] => set (learned := l)
  end.
  split; [|split].
  - rewrite savePatternCheck_run. cbn [trace]. subst learned.
    destruct (truthy (opt_matchedRule patternResult)).
    + destruct (saveLearnedPattern_events emailAccountId from
                  (orEmpty (opt_matchedRule patternResult)) (after_events w asking))
        as (evs' & Htr & _).
      rewrite Htr. exists (asking ++ evs'). cbn [trace after_events].
      now rewrite <- !app_assoc.
    + exists asking. cbn [trace after_events]. now rewrite <- !app_assoc.
  - destruct (savePatternCheck_closes emailAccountId from learned)
      as (row & Hrow & Hemail & _ & Ha & _).
    exists row. auto.
  - intros rule Htruthy Hrule. rewrite savePatternCheck_run.
    cbn [trace db groupItems set_newsletters].
    subst learned. rewrite Htruthy.
    rewrite (saveLearnedPattern_found emailAccountId from _ _ rule) by exact Hrule.
    cbn [snd trace db after_events groupItems set_groupItems]. split.
    + exists (asking ++ RuleFindUnique (orEmpty (opt_matchedRule patternResult)) emailAccountId
                     :: targetGroupEvents emailAccountId
                          (orEmpty (opt_matchedRule patternResult)) rule),
             [NewsletterUpsert from emailAccountId].
      rewrite <- !app_assoc. cbn [app]. now rewrite <- !app_assoc.
    + apply upsertRows_present; [apply isGroupItem_refl | auto].
Qed.

End KeyFacts.

(** C8. With the normaliser of the specification, a trigger whose sender
    is a display name followed by an address in angle brackets is accepted
    and the background run is started on the bare, lower-cased address.  In
    that run no ledger lookup or write, mail search or criterion upsert
    names another sender, and the rows the run adds are keyed by it.  The
    lookups are made under it: with the account in the store the Sender Check
    is looked up under the bare address; a run that gets to the mail provider
    searches [from:] the bare address; a run the oracle answers writes the
    Sender Check under the bare address and leaves it there, analyzed; and
    when the answer names a rule of the account, the criterion it upserts and
    the store then holds is the FROM criterion whose value is the bare
    address. *)
Theorem POST_keys_by_bare_address :
  forall (CO : Collaborators) (name addr emailAccountId : string) (w : World),
    noAngle name = true ->
    noAngle addr = true ->
    let raw := (name ++ " <" ++ addr ++ ">")%string in
    let key := toLowerCase addr in
    let run := @POST SpecEmailUtils CO
                 (mkRequest true (Ok (JObject [("emailAccountId", PString emailAccountId);
                                               ("from", PString raw)]))) w in
    @extractEmailAddress SpecEmailUtils raw = key
    /\ fst run = Ok (NextResponse_json (BodyProcessing true) 200)
    /\ snd run = snd (@process SpecEmailUtils CO emailAccountId key
                        (after_events w [Log LTrace "Analyzing sender pattern"]))
    /\ exists evs,
         trace (snd run) = trace w ++ Log LTrace "Analyzing sender pattern" :: evs
         /\ forallb (usesSenderKey key) evs = true
         /\ rowsKeyedBy key (db w) (db (snd run))
         /\ (forall r,
               find (fun r => ea_id r =? emailAccountId) (emailAccounts (db w)) = Some r ->
               exists rest,
                 evs = EmailAccountFindUnique emailAccountId
                       :: NewsletterFindUnique key emailAccountId :: rest)
         /\ (forall r gmail,
               @reachesProvider SpecEmailUtils CO emailAccountId key w r gmail ->
               exists rest,
                 evs = EmailAccountFindUnique emailAccountId
                       :: NewsletterFindUnique key emailAccountId
                       :: GmailClientWithRefresh emailAccountId
                       :: GmailGetThreads ("from:" ++ key ++ " -label:sent -label:draft")
                            MAX_RESULTS
                       :: rest)
         /\ (forall r gmail ts patternResult,
               @reachesProvider SpecEmailUtils CO emailAccountId key w r gmail ->
               fst (@getThreadsFromSender SpecEmailUtils CO gmail key MAX_RESULTS w) = Ok ts ->
               THRESHOLD_EMAILS <= length (flat_map messages ts) ->
               aiDetectRecurringPattern (map getEmailForLLM (flat_map messages ts))
                 (selectEmailAccount (db w) r) (candidateRules (selectEmailAccount (db w) r))
               = Ok patternResult ->
               (exists before, evs = before ++ [NewsletterUpsert key emailAccountId])
               /\ (exists row, senderCheck (db (snd run)) key emailAccountId = Some row
                               /\ nl_email row = key /\ nl_patternAnalyzed row = true)
               /\ (forall rule,
                     truthy (opt_matchedRule patternResult) = true ->
                     find (isRule (orEmpty (opt_matchedRule patternResult)) emailAccountId)
                       (rules (db w)) = Some rule ->
                     In (GroupItemUpsert (targetGroupId (db w) rule) FROM key) evs
                     /\ exists item,
                          In item (groupItems (db (snd run)))
                          /\ gi_groupId item = targetGroupId (db w) rule
                          /\ gi_type item = FROM
                          /\ gi_value item = key)).
Proof.
  intros CO name addr acct w Hname Haddr. cbv zeta.
  pose proof (stripDisplayName_display name addr Hname Haddr) as Hnorm.
  pose proof (stripDisplayName_key addr Haddr) as Hkey.
  set (key := toLowerCase addr) in *.
  set (w1 := after_events w [Log LTrace "Analyzing sender pattern"]).
  assert (Hrun : @POST SpecEmailUtils CO
                   (mkRequest true
                      (Ok (JObject [("emailAccountId", PString acct);
                                    ("from", PString (name ++ " <" ++ addr ++ ">"))]))) w
                 = (Ok (NextResponse_json (BodyProcessing true) 200),
                    snd (@process SpecEmailUtils CO acct key w1))).
  { unfold POST. cbn [negb validInternalApiKey request_json].
    unfold bind at 1. unfold await at 1. unfold bind at 1. unfold await at 1.
    cbn [schema_parse property find fst snd option_map String.eqb Ascii.eqb Bool.eqb].
    cbn [body_emailAccountId body_from].
    rewrite (bind_ok _ _ _ _ _ (logger_run _ _ _)). cbv beta.
    change (@extractEmailAddress SpecEmailUtils) with stripDisplayName.
    rewrite Hnorm. reflexivity. }
  rewrite Hrun. cbn [fst snd].
  split; [exact Hnorm|]. split; [reflexivity|]. split; [reflexivity|].
  destruct (@process_footprint SpecEmailUtils CO acct key w1 Hkey)
    as (evs & Htr & Hkeys & Hrows).
  exists evs. rewrite Htr.
  split; [simpl; now rewrite <- app_assoc|].
  split; [exact Hkeys|]. split; [exact Hrows|].
  assert (Hfrom : forall rest, trace w1 ++ rest = trace w1 ++ evs -> rest = evs)
    by (intros rest H; exact (app_inv_head _ _ _ H)).
  split; [|split].
  - intros r Hacc.
    destruct (@process_first_lookups SpecEmailUtils CO acct key w1 r Hacc) as (rest & Hrest).
    rewrite Htr in Hrest. symmetry in Hrest. apply Hfrom in Hrest.
    exists rest. rewrite <- Hrest.
    change (@extractEmailAddress SpecEmailUtils key) with (stripDisplayName key).
    now rewrite Hkey.
  - intros r gmail Hreach.
    destruct (@process_search_query SpecEmailUtils CO acct key w1 r gmail Hreach)
      as (rest & Hrest).
    rewrite Htr in Hrest. symmetry in Hrest. apply Hfrom in Hrest.
    exists rest. rewrite <- Hrest. unfold fetchPrefix, senderQuery.
    change (@extractEmailAddress SpecEmailUtils key) with (stripDisplayName key).
    now rewrite Hkey.
  - intros r gmail ts patternResult Hreach Hts Hmany Horacle.
    rewrite (@getThreadsFromSender_result SpecEmailUtils CO gmail key MAX_RESULTS w w1) in Hts.
    destruct (@process_records_under_sender SpecEmailUtils CO acct key w1 r gmail ts
                patternResult Hreach Hts Hmany Horacle) as (Hlast & Hrow & Hrule).
    split; [|split].
    + destruct Hlast as (before & Hbefore). rewrite Htr in Hbefore.
      symmetry in Hbefore. apply Hfrom in Hbefore. now exists before.
    + exact Hrow.
    + intros rule Htruthy Hfind.
      destruct (Hrule rule Htruthy Hfind) as ((before & rest & Hev) & item & Hin & Hitem).
      split.
      * rewrite Htr in Hev. symmetry in Hev. apply Hfrom in Hev. rewrite <- Hev.
        apply in_or_app. right. now left.
      * exists item. split; [exact Hin|].
        apply isGroupItem_key in Hitem. unfold groupItemKey in Hitem.
        now injection Hitem as -> -> ->.
Qed.

Lemma POST_keys_by_bare_address_witness :
  let run := @POST SpecEmailUtils janeCollaborators
               (mkRequest true
                  (Ok (JObject [("emailAccountId", PString "acc1");
                                ("from", PString "Jane Doe <Jane@Example.COM>")])))
               demoWorld in
  @extractEmailAddress SpecEmailUtils "Jane Doe <Jane@Example.COM>" = "jane@example.com"
  /\ fst run = Ok (NextResponse_json (BodyProcessing true) 200)
  /\ exists evs,
       trace (snd run) = Log LTrace "Analyzing sender pattern" :: evs
       /\ (exists rest,
             evs = EmailAccountFindUnique "acc1"
                   :: NewsletterFindUnique "jane@example.com" "acc1"
                   :: GmailClientWithRefresh "acc1"
                   :: GmailGetThreads "from:jane@example.com -label:sent -label:draft"
                        MAX_RESULTS
                   :: rest)
       /\ (exists before, evs = before ++ [NewsletterUpsert "jane@example.com" "acc1"])
       /\ In (GroupItemUpsert "c" FROM "jane@example.com") evs
       /\ (exists row, senderCheck (db (snd run)) "jane@example.com" "acc1" = Some row
                       /\ nl_email row = "jane@example.com" /\ nl_patternAnalyzed row = true)
       /\ exists item, In item (groupItems (db (snd run)))
                       /\ gi_groupId item = "c" /\ gi_type item = FROM
                       /\ gi_value item = "jane@example.com".
Proof.
  cbv zeta.
  pose proof (POST_keys_by_bare_address janeCollaborators "Jane Doe" "Jane@Example.COM" "acc1"
                demoWorld eq_refl eq_refl) as Hkeys.
  cbv zeta in Hkeys.
  destruct Hkeys as (Hnorm & Hanswer & _ & evs & Htr & _ & _ & _ & Hsearch & Hsettled).
  split; [exact Hnorm|]. split; [exact Hanswer|].
  assert (Hreach : @reachesProvider SpecEmailUtils janeCollaborators "acc1" "jane@example.com"
                     demoWorld demoAccount (GmailClient "acc1"))
    by (repeat split; reflexivity).
  destruct (Hsettled demoAccount (GmailClient "acc1")
              [mkThread "j1" [demoMessage "m1" "Jane Doe <jane@example.com>";
                              demoMessage "m2" "Jane Doe <jane@example.com>";
                              demoMessage "m3" "jane@example.com"]]
              (Some (mkPatternResult (Some "Newsletters")))
              Hreach eq_refl (le_n 3) eq_refl)
    as (Hlast & Hrow & Hrule).
  destruct (Hrule demoRule eq_refl eq_refl) as (Hupsert & Hitem).
  exists evs.
  split; [exact Htr|].
  split; [exact (Hsearch demoAccount (GmailClient "acc1") Hreach)|].
  split; [exact Hlast|].
  split; [exact Hupsert|].
  split; [exact Hrow | exact Hitem].
Defined.

(** * Concurrent triggers *)

Section TaskFacts.
Context {EU : EmailUtils} {CO : Collaborators}.

(** *** The tasks are the functions, await by await *)

Lemma bind_ext {A B} (m : M A) (k1 k2 : A -> M B) (w : World) :
  (forall a w', k1 a w' = k2 a w') -> bind m k1 w = bind m k2 w.
Proof.
  intros H. unfold bind. destruct (m w) as [[a|e] w']; [apply H | reflexivity].
Qed.

Lemma runTask_awaiting {A} (m : M (Task A)) (w : World) :
  runTask (awaiting m) w = runResume m w.
Proof.
  unfold awaiting, runResume. simpl. now destruct (m w) as [[t|e] w'].
Qed.

Lemma runResume_bind {A B} (m : M A) (k : A -> M (Task B)) (w : World) :
  runResume (bind m k) w = bind m (fun a => runResume (k a)) w.
Proof.
  unfold runResume, bind. now destruct (m w) as [[a|e] w'].
Qed.

Lemma runResume_awaiting {A} (m : M (Task A)) (w : World) :
  runResume (ret (awaiting m)) w = runResume m w.
Proof. unfold runResume at 1. unfold ret. apply runTask_awaiting. Qed.

Lemma runResume_returned {A} (a : A) (w : World) :
  runResume (ret (Returned a)) w = ret a w.
Proof. reflexivity. Qed.

Lemma bind_ret {A B} (a : A) (k : A -> M B) (w : World) : bind (ret a) k w = k a w.
Proof. reflexivity. Qed.

Lemma bind_assoc {A B C} (m : M A) (f : A -> M B) (g : B -> M C) (w : World) :
  bind (bind m f) g w = bind m (fun a => bind (f a) g) w.
Proof.
  unfold bind. now destruct (m w) as [[a|e] w'].
Qed.

Lemma collectThreadsTask_run {A} (gmail : Gmail) (from : string)
    (k : list ThreadWithMessages -> M (Task A)) :
  forall (threads : list string) (acc : list ThreadWithMessages) (w : World),
    runResume (collectThreadsTask gmail from threads acc k) w
    = bind (collectThreads gmail from threads acc) (fun ts => runResume (k ts)) w.
Proof.
  induction threads as [|thread rest IH]; intros acc w.
  - reflexivity.
  - cbn [collectThreadsTask collectThreads].
    rewrite runResume_awaiting, runResume_bind, bind_assoc.
    apply bind_ext. intros _ w1.
    rewrite runResume_bind, bind_assoc.
    apply bind_ext. intros msgs w2. cbv zeta.
    destruct (existsb _ _).
    + rewrite runResume_bind, bind_assoc. apply bind_ext. intros _ w3. reflexivity.
    + apply IH.
Qed.

Lemma getThreadsFromSenderTask_run {A} (gmail : Gmail) (sender : string) (maxResults : nat)
    (k : list ThreadWithMessages -> M (Task A)) (w : World) :
  runResume (getThreadsFromSenderTask gmail sender maxResults k) w
  = bind (getThreadsFromSender gmail sender maxResults) (fun ts => runResume (k ts)) w.
Proof.
  unfold getThreadsFromSenderTask, getThreadsFromSender. cbv zeta.
  rewrite runResume_awaiting, runResume_bind, bind_assoc.
  apply bind_ext. intros _ w1.
  rewrite runResume_bind, bind_assoc.
  apply bind_ext. intros threads w2.
  apply collectThreadsTask_run.
Qed.

Lemma saveLearnedPatternTask_run {A} (emailAccountId from ruleName : string)
    (k : unit -> M (Task A)) (w : World) :
  runResume (saveLearnedPatternTask emailAccountId from ruleName k) w
  = bind (saveLearnedPattern emailAccountId from ruleName) (fun u => runResume (k u)) w.
Proof.
  unfold saveLearnedPatternTask, saveLearnedPattern. cbv zeta.
  rewrite runResume_awaiting, runResume_bind, bind_assoc.
  apply bind_ext. intros [rule|] w1.
  - rewrite bind_assoc.
    destruct (negb (truthy (rule_groupId rule))).
    + rewrite runResume_awaiting, runResume_bind, bind_assoc.
      apply bind_ext. intros newGroup w2.
      unfold bind at 2. unfold ret at 2.
      rewrite runResume_awaiting, runResume_bind. reflexivity.
    + unfold bind at 2. unfold ret at 2.
      rewrite runResume_awaiting, runResume_bind. reflexivity.
  - rewrite runResume_bind. reflexivity.
Qed.

Lemma savePatternCheckTask_run {A} (emailAccountId from : string)
    (k : unit -> M (Task A)) (w : World) :
  runResume (savePatternCheckTask emailAccountId from k) w
  = bind (savePatternCheck emailAccountId from) (fun u => runResume (k u)) w.
Proof.
  unfold savePatternCheckTask. now rewrite runResume_awaiting, runResume_bind.
Qed.

Lemma processBodyTask_run (emailAccountId from : string) (w : World) :
  runTask (processBodyTask emailAccountId from) w = processBody emailAccountId from w.
Proof.
  unfold processBodyTask, processBody.
  rewrite runTask_awaiting, runResume_bind.
  apply bind_ext. intros [emailAccount|] w1.
  2:{ rewrite runResume_bind. apply bind_ext. intros _ w2. apply runResume_returned. }
  rewrite runResume_awaiting, runResume_bind.
  apply bind_ext. intros existingCheck w2.
  destruct (patternAnalyzed existingCheck).
  { rewrite runResume_bind. apply bind_ext. intros _ w3. apply runResume_returned. }
  cbv zeta.
  destruct (negb (truthy (opt_access_token (sel_account emailAccount)))
            || negb (truthy (opt_refresh_token (sel_account emailAccount)))).
  { rewrite runResume_bind. apply bind_ext. intros _ w3. apply runResume_returned. }
  rewrite runResume_awaiting, runResume_bind.
  apply bind_ext. intros _ w3.
  rewrite runResume_bind. apply bind_ext. intros gmail w4.
  rewrite getThreadsFromSenderTask_run.
  apply bind_ext. intros threadsWithMessages w5.
  destruct (Nat.eqb (length threadsWithMessages) 0).
  { rewrite runResume_bind. apply bind_ext. intros _ w6. apply runResume_returned. }
  destruct (Nat.ltb _ THRESHOLD_EMAILS).
  { rewrite runResume_bind. apply bind_ext. intros _ w6. apply runResume_returned. }
  rewrite runResume_awaiting, runResume_bind.
  apply bind_ext. intros _ w6.
  rewrite runResume_bind. apply bind_ext. intros patternResult w7.
  destruct (truthy (opt_matchedRule patternResult)).
  - rewrite saveLearnedPatternTask_run. apply bind_ext. intros _ w8.
    rewrite savePatternCheckTask_run. apply bind_ext. intros _ w9.
    apply runResume_returned.
  - rewrite bind_ret. cbv beta.
    rewrite savePatternCheckTask_run. apply bind_ext. intros _ w9.
    apply runResume_returned.
Qed.

Lemma runTask_caught {A} (h : string -> M A) (e : string) (w : World) :
  runTask (fst (caught h e w)) (snd (caught h e w)) = h e w.
Proof.
  unfold caught. now destruct (h e w) as [[a|e'] w'].
Qed.

Lemma runTask_taskTry {A} (h : string -> M A) :
  forall (t : Task A) (w : World),
    runTask (taskTry h t) w = tryCatch (runTask t) h w.
Proof.
  induction t as [a|e|next IH effect]; intros w.
  - reflexivity.
  - simpl. unfold tryCatch. simpl. apply runTask_caught.
  - cbn [taskTry runTask]. unfold tryCatch. cbn [runTask].
    destruct (next w) as [a|e|next' effect'] eqn:Hnext.
    + reflexivity.
    + simpl. apply runTask_caught.
    + rewrite <- Hnext. rewrite IH. unfold tryCatch. reflexivity.
Qed.

(** The task of [process], run alone, is [process]. *)
Lemma processTask_run (emailAccountId from : string) (w : World) :
  runTask (processTask emailAccountId from) w = process emailAccountId from w.
Proof.
  unfold processTask, process. rewrite runTask_taskTry.
  unfold tryCatch. now rewrite processBodyTask_run.
Qed.

End TaskFacts.

(** *** What the steps of a run do to the ledger *)

Section LedgerSteps.
Context {EU : EmailUtils} {CO : Collaborators}.
Variables (emailAccountId from : string) (w0 : World).

Lemma keeps_refl (w : World) : (keepsLedger emailAccountId from w0) w w.
Proof. intros H. exact H. Qed.

Lemma keeps_trans (w1 w2 w3 : World) : (keepsLedger emailAccountId from w0) w1 w2 -> (keepsLedger emailAccountId from w0) w2 w3 -> (keepsLedger emailAccountId from w0) w1 w3.
Proof. intros H12 H23 H. auto. Qed.

Lemma no_ledger_write (evs : list Event) :
  existsb isLedgerWrite evs = false -> ~ In (NewsletterUpsert from emailAccountId) evs.
Proof.
  intros Hnone Hin.
  assert (Hsome : existsb isLedgerWrite evs = true)
    by (apply existsb_exists; eexists; split; [exact Hin | reflexivity]).
  congruence.
Qed.

Lemma ledgerQuiet_keeps {A} (m : M A) (w : World) :
  ledgerQuiet m -> (keepsLedger emailAccountId from w0) w (snd (m w)).
Proof.
  intros Hquiet [Hunique (evs0 & Htr0 & Hclosed)].
  destruct (Hquiet w) as (Hrows & evs & Htr & Hnone).
  split.
  - unfold ledger_unique. now rewrite Hrows.
  - exists (evs0 ++ evs). split; [rewrite Htr, Htr0; symmetry; apply app_assoc|].
    intros Hin. apply in_app_or in Hin as [Hin|Hin].
    + unfold senderClosed. rewrite Hrows. now apply Hclosed.
    + now apply no_ledger_write in Hin.
Qed.

Lemma find_heads_rowsWith {R : Type} (matches : R -> bool) (rows : list R) (r : R) :
  find matches rows = Some r -> exists rest, rowsWith matches rows = r :: rest.
Proof.
  induction rows as [|x rows IH]; simpl; [discriminate|].
  destruct (matches x) eqn:Hx.
  - intros H. injection H as <-. eexists. reflexivity.
  - exact IH.
Qed.

Lemma savePatternCheck_keeps (w : World) :
  (keepsLedger emailAccountId from w0) w (snd (savePatternCheck emailAccountId from w)).
Proof.
  intros [Hunique (evs0 & Htr0 & _)]. split.
  - now apply savePatternCheck_keeps_ledger_unique.
  - exists (evs0 ++ [NewsletterUpsert from emailAccountId]). split.
    + rewrite savePatternCheck_run. cbn [snd trace]. rewrite Htr0. symmetry. apply app_assoc.
    + intros _.
      destruct (savePatternCheck_closes emailAccountId from w)
        as (row & Hrow & _ & _ & Hanalyzed & _).
      apply find_heads_rowsWith in Hrow as (rest & Hrows).
      pose proof (unique_key_at_most_one newsletterKey (isNewsletter from emailAccountId)
                    (from, emailAccountId) _ (isNewsletter_key from emailAccountId)
                    (savePatternCheck_keeps_ledger_unique emailAccountId from w Hunique))
        as Hone.
      rewrite Hrows in Hone. destruct rest; [|simpl in Hone; lia].
      exists row. split; [exact Hrows | exact Hanalyzed].
Qed.

(** *** Code that leaves the ledger alone *)

Lemma ledgerQuiet_ret {A} (a : A) : ledgerQuiet (ret a).
Proof.
  intros w. split; [reflexivity|]. exists []. split; [now rewrite app_nil_r | reflexivity].
Qed.

Lemma ledgerQuiet_bind {A B} (m : M A) (k : A -> M B) :
  ledgerQuiet m -> (forall a, ledgerQuiet (k a)) -> ledgerQuiet (bind m k).
Proof.
  intros Hm Hk w. unfold bind.
  destruct (Hm w) as (Hrows & evs & Htr & Hnone).
  destruct (m w) as [[a|e] w1]; cbn [snd] in *.
  - destruct (Hk a w1) as (Hrows' & evs' & Htr' & Hnone').
    split; [congruence|]. exists (evs ++ evs'). split.
    + rewrite Htr', Htr. symmetry. apply app_assoc.
    + now rewrite existsb_app, Hnone, Hnone'.
  - split; [exact Hrows|]. now exists evs.
Qed.

Lemma ledgerQuiet_events {A} (r : Result A) (evs : list Event) :
  existsb isLedgerWrite evs = false ->
  ledgerQuiet (fun w => (r, after_events w evs)).
Proof.
  intros Hnone w. split; [reflexivity|]. now exists evs.
Qed.

Lemma ledgerQuiet_emit (ev : Event) : isLedgerWrite ev = false -> ledgerQuiet (emit ev).
Proof.
  intros Hev w. split; [reflexivity|]. exists [ev]. split; [reflexivity|].
  simpl. now rewrite Hev.
Qed.

Lemma ledgerQuiet_logger (level : LogLevel) (msg : string) : ledgerQuiet (logger level msg).
Proof. now apply ledgerQuiet_emit. Qed.

Lemma ledgerQuiet_await {A} (r : Result A) : ledgerQuiet (await r).
Proof.
  intros w. split; [reflexivity|]. exists []. split; [now rewrite app_nil_r | reflexivity].
Qed.

Lemma ledgerQuiet_getDb : ledgerQuiet getDb.
Proof.
  intros w. split; [reflexivity|]. exists []. split; [now rewrite app_nil_r | reflexivity].
Qed.

Lemma ledgerQuiet_putDb (d : DB -> DB) :
  (forall d0, newsletters (d d0) = newsletters d0) ->
  ledgerQuiet (d0 <- getDb ;; putDb (d d0)).
Proof.
  intros Hd w. split; [apply Hd|]. exists []. split; [now rewrite app_nil_r | reflexivity].
Qed.

End LedgerSteps.

Section ConcurrentRuns.
Context {EU : EmailUtils} {CO : Collaborators}.
Variables (emailAccountId from : string) (w0 : World).

(** *** Resumed code and tasks *)

Lemma resumeKeeps_bind {X A} (m : M X) (k : X -> M (Task A)) :
  (forall w, (keepsLedger emailAccountId from w0) w (snd (m w))) ->
  (forall x, resumeKeeps (keepsLedger emailAccountId from w0) (k x)) ->
  resumeKeeps (keepsLedger emailAccountId from w0) (bind m k).
Proof.
  intros Hm Hk w. unfold bind. specialize (Hm w).
  destruct (m w) as [[x|e] w1]; cbn [fst snd] in *.
  - destruct (Hk x w1) as [Hstep Hnext]. split; [|exact Hnext].
    eapply keeps_trans; eauto.
  - split; [exact Hm | exact I].
Qed.

Lemma resumeKeeps_quiet {X A} (m : M X) (k : X -> M (Task A)) :
  ledgerQuiet m ->
  (forall x, resumeKeeps (keepsLedger emailAccountId from w0) (k x)) ->
  resumeKeeps (keepsLedger emailAccountId from w0) (bind m k).
Proof.
  intros Hm Hk. apply resumeKeeps_bind; [|exact Hk].
  intros w. now apply ledgerQuiet_keeps.
Qed.

Lemma resumeKeeps_awaiting {A} (m : M (Task A)) :
  resumeKeeps (keepsLedger emailAccountId from w0) m -> resumeKeeps (keepsLedger emailAccountId from w0) (ret (awaiting m)).
Proof.
  intros Hm w. split; [apply keeps_refl|]. cbn [fst ret awaiting stepsIn].
  intros w1. destruct (Hm w1) as [Hstep Hnext]. split; [exact Hstep|].
  destruct (fst (m w1)); [exact Hnext | exact I].
Qed.

Lemma resumeKeeps_returned {A} (a : A) : resumeKeeps (keepsLedger emailAccountId from w0) (ret (Returned a)).
Proof. intros w. split; [apply keeps_refl | exact I]. Qed.

Lemma stepsIn_awaiting {A} (m : M (Task A)) :
  resumeKeeps (keepsLedger emailAccountId from w0) m -> stepsIn (keepsLedger emailAccountId from w0) (awaiting m).
Proof.
  intros Hm w. destruct (Hm w) as [Hstep Hnext]. split; [exact Hstep|].
  destruct (fst (m w)); [exact Hnext | exact I].
Qed.

Lemma collectThreadsTask_keeps {A} (gmail : Gmail) (sender : string)
    (k : list ThreadWithMessages -> M (Task A)) :
  (forall ts, resumeKeeps (keepsLedger emailAccountId from w0) (k ts)) ->
  forall (threads : list string) (acc : list ThreadWithMessages),
    resumeKeeps (keepsLedger emailAccountId from w0) (collectThreadsTask gmail sender threads acc k).
Proof.
  intros Hk. induction threads as [|thread rest IH]; intros acc.
  - apply Hk.
  - cbn [collectThreadsTask]. apply resumeKeeps_awaiting.
    apply resumeKeeps_quiet; [now apply ledgerQuiet_emit|]. intros _.
    apply resumeKeeps_quiet; [apply ledgerQuiet_await|]. intros msgs. cbv zeta.
    destruct (existsb _ _).
    + apply resumeKeeps_quiet; [apply ledgerQuiet_logger|]. intros _. apply Hk.
    + apply IH.
Qed.

Lemma getThreadsFromSenderTask_keeps {A} (gmail : Gmail) (sender : string) (maxResults : nat)
    (k : list ThreadWithMessages -> M (Task A)) :
  (forall ts, resumeKeeps (keepsLedger emailAccountId from w0) (k ts)) ->
  resumeKeeps (keepsLedger emailAccountId from w0) (getThreadsFromSenderTask gmail sender maxResults k).
Proof.
  intros Hk. unfold getThreadsFromSenderTask. cbv zeta.
  apply resumeKeeps_awaiting.
  apply resumeKeeps_quiet; [now apply ledgerQuiet_emit|]. intros _.
  apply resumeKeeps_quiet; [apply ledgerQuiet_await|]. intros threads.
  now apply collectThreadsTask_keeps.
Qed.

Lemma ledgerQuiet_rule_findUnique (name account : string) :
  ledgerQuiet (prisma_rule_findUnique name account).
Proof.
  unfold prisma_rule_findUnique.
  apply ledgerQuiet_bind; [now apply ledgerQuiet_emit|]. intros _.
  apply ledgerQuiet_bind; [apply ledgerQuiet_getDb|]. intros d. apply ledgerQuiet_ret.
Qed.

Lemma ledgerQuiet_group_create (account name ruleId : string) :
  ledgerQuiet (prisma_group_create account name ruleId).
Proof.
  unfold prisma_group_create.
  apply ledgerQuiet_bind; [now apply ledgerQuiet_emit|]. intros _.
  intros w. split; [reflexivity|]. exists []. split; [now rewrite app_nil_r | reflexivity].
Qed.

Lemma ledgerQuiet_groupItem_upsert (groupId : string) (type : GroupItemType) (value : string)
    (update : GroupItemRow -> GroupItemRow) (create : GroupItemRow) :
  ledgerQuiet (prisma_groupItem_upsert groupId type value update create).
Proof.
  unfold prisma_groupItem_upsert.
  apply ledgerQuiet_bind; [now apply ledgerQuiet_emit|]. intros _.
  intros w. split; [reflexivity|]. exists []. split; [now rewrite app_nil_r | reflexivity].
Qed.

Lemma saveLearnedPatternTask_keeps {A} (account sender ruleName : string)
    (k : unit -> M (Task A)) :
  (forall u, resumeKeeps (keepsLedger emailAccountId from w0) (k u)) ->
  resumeKeeps (keepsLedger emailAccountId from w0) (saveLearnedPatternTask account sender ruleName k).
Proof.
  intros Hk. unfold saveLearnedPatternTask. cbv zeta.
  assert (Hupsert : forall groupId,
             resumeKeeps (keepsLedger emailAccountId from w0)
               (ret (awaiting
                       (prisma_groupItem_upsert groupId FROM sender (fun r => r)
                          (mkGroupItemRow groupId FROM sender exclude_default) ;;
                        k tt)))).
  { intros groupId. apply resumeKeeps_awaiting.
    apply resumeKeeps_quiet; [apply ledgerQuiet_groupItem_upsert|]. intros _. apply Hk. }
  apply resumeKeeps_awaiting.
  apply resumeKeeps_quiet; [apply ledgerQuiet_rule_findUnique|]. intros [rule|].
  - destruct (negb (truthy (rule_groupId rule))); [|apply Hupsert].
    apply resumeKeeps_awaiting.
    apply resumeKeeps_quiet; [apply ledgerQuiet_group_create|]. intros newGroup.
    apply Hupsert.
  - apply resumeKeeps_quiet; [apply ledgerQuiet_logger|]. intros _. apply Hk.
Qed.

Lemma savePatternCheckTask_keeps {A} (k : unit -> M (Task A)) :
  (forall u, resumeKeeps (keepsLedger emailAccountId from w0) (k u)) ->
  resumeKeeps (keepsLedger emailAccountId from w0) (savePatternCheckTask emailAccountId from k).
Proof.
  intros Hk. unfold savePatternCheckTask. apply resumeKeeps_awaiting.
  apply resumeKeeps_bind; [|intros _; apply Hk].
  intros w. apply savePatternCheck_keeps.
Qed.

Lemma ledgerQuiet_getEmailAccountWithRules (account : string) :
  ledgerQuiet (getEmailAccountWithRules account).
Proof.
  unfold getEmailAccountWithRules, prisma_emailAccount_findUnique.
  apply ledgerQuiet_bind.
  - apply ledgerQuiet_bind; [now apply ledgerQuiet_emit|]. intros _.
    apply ledgerQuiet_bind; [apply ledgerQuiet_getDb|]. intros d. apply ledgerQuiet_ret.
  - intros row. apply ledgerQuiet_bind; [apply ledgerQuiet_getDb|]. intros d.
    apply ledgerQuiet_ret.
Qed.

Lemma ledgerQuiet_newsletter_findUnique (email account : string) :
  ledgerQuiet (prisma_newsletter_findUnique email account).
Proof.
  unfold prisma_newsletter_findUnique.
  apply ledgerQuiet_bind; [now apply ledgerQuiet_emit|]. intros _.
  apply ledgerQuiet_bind; [apply ledgerQuiet_getDb|]. intros d. apply ledgerQuiet_ret.
Qed.

Lemma processBodyTask_keeps : stepsIn (keepsLedger emailAccountId from w0) (processBodyTask emailAccountId from).
Proof.
  unfold processBodyTask. apply stepsIn_awaiting.
  apply resumeKeeps_quiet; [apply ledgerQuiet_getEmailAccountWithRules|].
  intros [emailAccount|].
  2:{ apply resumeKeeps_quiet; [apply ledgerQuiet_logger|]. intros _.
      apply resumeKeeps_returned. }
  apply resumeKeeps_awaiting.
  apply resumeKeeps_quiet; [apply ledgerQuiet_newsletter_findUnique|].
  intros existingCheck.
  destruct (patternAnalyzed existingCheck).
  { apply resumeKeeps_quiet; [apply ledgerQuiet_logger|]. intros _.
    apply resumeKeeps_returned. }
  cbv zeta.
  destruct (negb (truthy (opt_access_token (sel_account emailAccount)))
            || negb (truthy (opt_refresh_token (sel_account emailAccount)))).
  { apply resumeKeeps_quiet; [apply ledgerQuiet_logger|]. intros _.
    apply resumeKeeps_returned. }
  apply resumeKeeps_awaiting.
  apply resumeKeeps_quiet; [now apply ledgerQuiet_emit|]. intros _.
  apply resumeKeeps_quiet; [apply ledgerQuiet_await|]. intros gmail.
  apply getThreadsFromSenderTask_keeps. intros threadsWithMessages.
  destruct (Nat.eqb (length threadsWithMessages) 0).
  { apply resumeKeeps_quiet; [apply ledgerQuiet_logger|]. intros _.
    apply resumeKeeps_returned. }
  destruct (Nat.ltb _ THRESHOLD_EMAILS).
  { apply resumeKeeps_quiet; [apply ledgerQuiet_logger|]. intros _.
    apply resumeKeeps_returned. }
  apply resumeKeeps_awaiting.
  apply resumeKeeps_quiet; [now apply ledgerQuiet_emit|]. intros _.
  apply resumeKeeps_quiet; [apply ledgerQuiet_await|]. intros patternResult.
  assert (Hledger : resumeKeeps (keepsLedger emailAccountId from w0)
                      (savePatternCheckTask emailAccountId from
                         (fun _ => ret (Returned (NextResponse_json (BodySuccess true) 200))))).
  { apply savePatternCheckTask_keeps. intros _. apply resumeKeeps_returned. }
  destruct (truthy (opt_matchedRule patternResult)).
  - apply saveLearnedPatternTask_keeps. intros _. exact Hledger.
  - exact Hledger.
Qed.

Lemma caught_keeps {A} (h : string -> M A) (e : string) (w : World) :
  (forall e w, (keepsLedger emailAccountId from w0) w (snd (h e w))) ->
  (keepsLedger emailAccountId from w0) w (snd (caught h e w)) /\ stepsIn (keepsLedger emailAccountId from w0) (fst (caught h e w)).
Proof.
  intros Hh. unfold caught. specialize (Hh e w).
  destruct (h e w) as [[a|e'] w']; split; try exact I; exact Hh.
Qed.

Lemma taskTry_keeps {A} (h : string -> M A) :
  (forall e w, (keepsLedger emailAccountId from w0) w (snd (h e w))) ->
  forall t : Task A, stepsIn (keepsLedger emailAccountId from w0) t -> stepsIn (keepsLedger emailAccountId from w0) (taskTry h t).
Proof.
  intros Hh. induction t as [a|e|next IH effect]; intros Ht.
  - exact I.
  - intros w. apply caught_keeps. exact Hh.
  - cbn [taskTry stepsIn]. intros w. destruct (Ht w) as [Hstep Hnext].
    destruct (next w) as [a|e|next' effect'] eqn:Hw.
    + split; [exact Hstep | exact I].
    + destruct (caught_keeps h e (effect w) Hh) as [Hcaught Hthen].
      split; [|exact Hthen]. eapply keeps_trans; eauto.
    + split; [exact Hstep|]. rewrite <- Hw. apply IH. now rewrite Hw.
Qed.

Lemma processTask_keeps : stepsIn (keepsLedger emailAccountId from w0) (processTask emailAccountId from).
Proof.
  unfold processTask. apply taskTry_keeps; [|apply processBodyTask_keeps].
  intros e w. unfold processCatch. apply ledgerQuiet_keeps.
  apply ledgerQuiet_bind; [apply ledgerQuiet_logger|]. intros _. apply ledgerQuiet_ret.
Qed.

(** *** Runs and interleavings *)

Lemma runTask_keeps {A} :
  forall (t : Task A) (w : World), stepsIn (keepsLedger emailAccountId from w0) t -> (keepsLedger emailAccountId from w0) w (snd (runTask t w)).
Proof.
  induction t as [a|e|next IH effect]; intros w Ht.
  - apply keeps_refl.
  - apply keeps_refl.
  - cbn [runTask]. destruct (Ht w) as [Hstep Hnext].
    eapply keeps_trans; [exact Hstep|]. now apply IH.
Qed.

Lemma stepTask_keeps {A} (t : Task A) (w : World) :
  stepsIn (keepsLedger emailAccountId from w0) t ->
  (keepsLedger emailAccountId from w0) w (snd (stepTask t w)) /\ stepsIn (keepsLedger emailAccountId from w0) (fst (stepTask t w)).
Proof.
  destruct t as [a|e|next effect]; intros Ht.
  - split; [apply keeps_refl | exact I].
  - split; [apply keeps_refl | exact I].
  - exact (Ht w).
Qed.

Lemma interleave_keeps {A} :
  forall (schedule : list bool) (a b : Task A) (w : World),
    stepsIn (keepsLedger emailAccountId from w0) a -> stepsIn (keepsLedger emailAccountId from w0) b ->
    (keepsLedger emailAccountId from w0) w (snd (interleave schedule a b w)).
Proof.
  induction schedule as [|first rest IH]; intros a b w Ha Hb.
  - cbn [interleave snd]. eapply keeps_trans; [apply (runTask_keeps a w Ha)|].
    now apply runTask_keeps.
  - destruct first; cbn [interleave].
    + destruct (stepTask_keeps a w Ha) as [Hstep Hnext].
      eapply keeps_trans; [exact Hstep|]. now apply IH.
    + destruct (stepTask_keeps b w Hb) as [Hstep Hnext].
      eapply keeps_trans; [exact Hstep|]. now apply IH.
Qed.

End ConcurrentRuns.




(** * api/google/watch/all *)

Module WatchAllFacts.
Import WatchAll.

Section Facts.
Context {CO : Collaborators} {WC : WatchCollaborators}.

Lemma clientRequests_app (a b : list Event) :
  clientRequests (a ++ b) = clientRequests a ++ clientRequests b.
Proof. apply flat_map_app. Qed.

Lemma watchCalls_app (a b : list Event) :
  watchCalls (a ++ b) = watchCalls a ++ watchCalls b.
Proof. apply flat_map_app. Qed.

Lemma clearedEmails_app (a b : list Event) :
  clearedEmails (a ++ b) = clearedEmails a ++ clearedEmails b.
Proof. apply flat_map_app. Qed.

Ltac run_st :=
  unfold prisma_emailAccount_clearExpiration;
  unfold st_try, st_bind, st_ret, st_await, emit;
  cbn [fst snd trace accounts].

Ltac trace_kinds :=
  cbn [trace]; rewrite ?clientRequests_app, ?watchCalls_app, ?clearedEmails_app;
  cbn [clientRequests watchCalls clearedEmails flat_map app];
  rewrite ?app_nil_r, <- ?app_assoc; cbn [app]; auto.

Lemma watchOne_run (ea : EmailAccount) (w : World) :
  exists w', watchOne ea w = (Ok tt, w') /\ turnAdds ea w w'.
Proof.
  unfold watchOne, turnAdds, watchable, lapsed, clientObtained.
  destruct (hasAiAccess (tierOrNull (w_premium ea)) (w_aiApiKey ea)); cbn [negb andb].
  - destruct (truthy (opt_access_token (w_account ea))); cbn [negb orb andb].
    2:{ run_st. eexists. split; [reflexivity|]. repeat split; trace_kinds. }
    destruct (truthy (opt_refresh_token (w_account ea))); cbn [negb orb andb].
    2:{ run_st. eexists. split; [reflexivity|]. repeat split; trace_kinds. }
    run_st.
    destruct (getGmailClientWithRefresh _ _ _ _) as [gmail|e].
    + destruct (watchEmails (w_id ea) gmail (accounts w)) as [[[]|e] accounts'].
      * eexists. split; [reflexivity|]. repeat split; trace_kinds.
      * destruct (existsb _ warn);
          (eexists; split; [reflexivity|]; repeat split; trace_kinds).
    + destruct (existsb _ warn);
        (eexists; split; [reflexivity|]; repeat split; trace_kinds).
  - destruct (expired ea).
    + run_st. destruct (existsb _ (accounts w)).
      * eexists. split; [reflexivity|]. repeat split; trace_kinds.
      * destruct (existsb _ warn);
          (eexists; split; [reflexivity|]; repeat split; trace_kinds).
    + run_st. eexists. split; [reflexivity|]. repeat split; trace_kinds.
Qed.

Lemma watchLoop_run :
  forall (eas : list EmailAccount) (w : World),
  exists w',
    watchLoop eas w = (Ok tt, w')
    /\ clientRequests (trace w')
       = clientRequests (trace w) ++ map w_id (filter watchable eas)
    /\ watchCalls (trace w')
       = watchCalls (trace w)
         ++ map w_id (filter (fun ea => watchable ea && clientObtained ea) eas)
    /\ clearedEmails (trace w')
       = clearedEmails (trace w) ++ map w_email (filter lapsed eas).
Proof.
  induction eas as [|ea rest IH]; intros w.
  - exists w. simpl. unfold st_ret. now rewrite !app_nil_r.
  - destruct (watchOne_run ea w) as (w1 & Hone & Hc & Hw & Hx).
    destruct (IH w1) as (w' & Hloop & Hc' & Hw' & Hx').
    exists w'. split.
    + simpl. unfold st_bind. now rewrite Hone.
    + rewrite Hc', Hw', Hx', Hc, Hw, Hx. simpl.
      destruct (watchable ea), (clientObtained ea), (lapsed ea); simpl;
        rewrite <- ?app_assoc; simpl; rewrite ?app_nil_r; auto.
Qed.

Lemma watchAllEmails_run (w : World) :
  exists w',
    watchAllEmails w = (Ok (JsonResponse (NextResponse_json (BodySuccess true) 200)), w')
    /\ clientRequests (trace w')
       = clientRequests (trace w) ++ map w_id (filter watchable (selectedAccounts w))
    /\ watchCalls (trace w')
       = watchCalls (trace w)
         ++ map w_id (filter (fun ea => watchable ea && clientObtained ea)
                        (selectedAccounts w))
    /\ clearedEmails (trace w')
       = clearedEmails (trace w) ++ map w_email (filter lapsed (selectedAccounts w)).
Proof.
  unfold watchAllEmails, prisma_emailAccount_findMany.
  unfold st_bind at 1. unfold st_bind at 1. unfold emit at 1. cbn [accounts trace].
  fold (selectedAccounts w).
  unfold st_bind at 1. unfold emit at 1. cbn [accounts trace].
  destruct (watchLoop_run (selectedAccounts w)
              (mkWorld (accounts w)
                 ((trace w ++ [FindMany]) ++ [Info "Watching email accounts" EmptyString])))
    as (w' & Hloop & Hc & Hw & Hx).
  exists w'. split.
  - unfold st_bind. rewrite Hloop. reflexivity.
  - rewrite Hc, Hw, Hx. cbn [trace].
    rewrite !clientRequests_app, !watchCalls_app, !clearedEmails_app. simpl.
    now rewrite !app_nil_r.
Qed.

(** X18. [watchAllEmails] always answers success, whatever happens to
    single accounts: the Gmail client is requested, in query order, for
    exactly the selected accounts that have AI access and both tokens, and
    [watchEmails] is called for exactly those of them whose client was
    obtained; a rejection for one account does not keep the later ones from
    being watched. *)
Theorem watchAllEmails_isolates_failures :
  forall (w : World),
    exists w',
      watchAllEmails w = (Ok (JsonResponse (NextResponse_json (BodySuccess true) 200)), w')
      /\ clientRequests (trace w')
         = clientRequests (trace w) ++ map w_id (filter watchable (selectedAccounts w))
      /\ watchCalls (trace w')
         = watchCalls (trace w)
           ++ map w_id (filter (fun ea => watchable ea && clientObtained ea)
                          (selectedAccounts w)).
Proof.
  intros w. destruct (watchAllEmails_run w) as (w' & Hrun & Hc & Hw & _).
  exists w'. auto.
Qed.

(** X19. [watchAllEmails] asks the store to clear the watch expiration
    for exactly the selected accounts that are lapsed, in query order, and an
    account is lapsed exactly when it has no AI access and its expiration
    date lies in the past: an account with AI access, or without an
    expiration date, or with one that is still to come, is never cleared. *)
Theorem watchAllEmails_clears_lapsed_only :
  forall (w : World),
    clearedEmails (trace (snd (watchAllEmails w)))
    = clearedEmails (trace w) ++ map w_email (filter lapsed (selectedAccounts w))
    /\ (forall ea,
          lapsed ea = true
          <-> hasAiAccess (tierOrNull (w_premium ea)) (w_aiApiKey ea) = false
              /\ exists t, w_watchEmailsExpirationDate ea = Some t /\ (t < Date_now)%Z).
Proof.
  intros w. destruct (watchAllEmails_run w) as (w' & Hrun & _ & _ & Hx).
  rewrite Hrun. cbn [snd]. split; [exact Hx|].
  intros ea. unfold lapsed, expired.
  rewrite andb_true_iff, negb_true_iff.
  destruct (w_watchEmailsExpirationDate ea) as [t|].
  - rewrite Z.ltb_lt. split.
    + intros [Hai Hlt]. split; [exact Hai|]. exists t. now split.
    + intros [Hai (t' & Heq & Hlt)]. injection Heq as <-. now split.
  - split.
    + intros [_ Hf]. discriminate.
    + intros [_ (t' & Heq & _)]. discriminate.
Qed.

Lemma in_insertByExpiration (x y : EmailAccount) (l : list EmailAccount) :
  In y (insertByExpiration x l) <-> y = x \/ In y l.
Proof.
  induction l as [|a l IH]; simpl.
  - intuition.
  - destruct (expirationLe _ _); simpl; [intuition|]. rewrite IH. intuition.
Qed.

Lemma in_sortByExpiration (y : EmailAccount) (l : list EmailAccount) :
  In y (sortByExpiration l) <-> In y l.
Proof.
  induction l as [|a l IH]; simpl; [reflexivity|].
  rewrite in_insertByExpiration, IH. intuition.
Qed.

Lemma expirationLe_total (a b : option Z) :
  expirationLe a b = false -> expirationLe b a = true.
Proof.
  destruct a as [x|], b as [y|]; simpl; try discriminate; auto.
  intros H. apply Z.leb_gt in H. apply Z.leb_le. lia.
Qed.

Lemma expirationLe_trans (a b c : option Z) :
  expirationLe a b = true -> expirationLe b c = true -> expirationLe a c = true.
Proof.
  destruct a as [x|], b as [y|], c as [z|]; simpl; try discriminate; auto.
  rewrite !Z.leb_le. lia.
Qed.

Lemma insertByExpiration_sorted (x : EmailAccount) (l : list EmailAccount) :
  StronglySorted beforeOrEqual l -> StronglySorted beforeOrEqual (insertByExpiration x l).
Proof.
  induction l as [|a l IH]; intros Hs; simpl.
  - repeat constructor.
  - inversion Hs as [|? ? Hl Ha]; subst.
    destruct (expirationLe _ _) eqn:Hle.
    + constructor; [exact Hs|]. constructor; [exact Hle|].
      rewrite Forall_forall in *. intros y Hy. specialize (Ha y Hy).
      unfold beforeOrEqual in *. eapply expirationLe_trans; eauto.
    + constructor; [now apply IH|].
      apply Forall_forall. intros y Hy. apply in_insertByExpiration in Hy as [->|Hy].
      * now apply expirationLe_total.
      * rewrite Forall_forall in Ha. now apply Ha.
Qed.

Lemma visited_app (a b : list Event) : visited (a ++ b) = visited a ++ visited b.
Proof. apply flat_map_app. Qed.

Ltac visits :=
  cbn [trace snd fst]; rewrite ?visited_app; cbn; rewrite ?app_nil_r, <- ?app_assoc; auto.

(** Every turn of the loop opens with the log line of its account. *)
Lemma watchOne_visits (ea : EmailAccount) (w : World) :
  visited (trace (snd (watchOne ea w))) = visited (trace w) ++ [w_email ea].
Proof.
  unfold watchOne.
  destruct (hasAiAccess (tierOrNull (w_premium ea)) (w_aiApiKey ea)); cbn [negb andb].
  - destruct (truthy (opt_access_token (w_account ea))); cbn [negb orb andb];
      [|run_st; visits].
    destruct (truthy (opt_refresh_token (w_account ea))); cbn [negb orb andb];
      [|run_st; visits].
    run_st.
    destruct (getGmailClientWithRefresh _ _ _ _) as [gmail|e].
    + destruct (watchEmails (w_id ea) gmail (accounts w)) as [[[]|e] accounts'];
        [visits|].
      destruct (existsb _ warn); visits.
    + destruct (existsb _ warn); visits.
  - destruct (expired ea).
    + run_st. destruct (existsb _ (accounts w)); [visits|].
      destruct (existsb _ warn); visits.
    + run_st. visits.
Qed.

Lemma watchLoop_visits :
  forall (eas : list EmailAccount) (w : World),
    visited (trace (snd (watchLoop eas w))) = visited (trace w) ++ map w_email eas.
Proof.
  induction eas as [|ea rest IH]; intros w.
  - simpl. now rewrite app_nil_r.
  - destruct (watchOne_run ea w) as (w1 & Hone & _).
    pose proof (watchOne_visits ea w) as Hvisit. rewrite Hone in Hvisit. cbn [snd] in Hvisit.
    simpl. unfold st_bind. rewrite Hone. rewrite IH, Hvisit.
    now rewrite <- app_assoc.
Qed.

Lemma insertByExpiration_permutation (x : EmailAccount) (l : list EmailAccount) :
  Permutation (insertByExpiration x l) (x :: l).
Proof.
  induction l as [|a l IH]; simpl; [reflexivity|].
  destruct (expirationLe _ _); [reflexivity|].
  rewrite IH. apply perm_swap.
Qed.

Lemma sortByExpiration_permutation (l : list EmailAccount) :
  Permutation (sortByExpiration l) l.
Proof.
  induction l as [|a l IH]; simpl; [reflexivity|].
  rewrite insertByExpiration_permutation. now constructor.
Qed.

Lemma sortByExpiration_sorted (l : list EmailAccount) :
  StronglySorted beforeOrEqual (sortByExpiration l).
Proof.
  induction l as [|a l IH]; simpl; [constructor|].
  now apply insertByExpiration_sorted.
Qed.

(** X20. The accounts [watchAllEmails] takes in turn, as the log lines
    that open the turns show them, are the accounts of the store whose user
    has a premium that renews with Lemon Squeezy later than now or whose
    Stripe subscription is active or trialing, each as often as the store
    has it and no other account; and it takes them by ascending watch
    expiration, the accounts without an expiration first. *)
Theorem watchAllEmails_selection :
  forall (w : World),
    exists taken,
      visited (trace (snd (watchAllEmails w))) = visited (trace w) ++ map w_email taken
      /\ Permutation taken
           (filter (fun ea =>
                      match w_premium ea with
                      | Some p =>
                          match lemonSqueezyRenewsAt p with
                          | Some renews => (Date_now <? renews)%Z
                          | None => false
                          end
                          || match stripeSubscriptionStatus p with
                             | Some status => (status =? "active") || (status =? "trialing")
                             | None => false
                             end
                      | None => false
                      end)
              (accounts w))
      /\ StronglySorted
           (fun a b =>
              match w_watchEmailsExpirationDate a, w_watchEmailsExpirationDate b with
              | None, _ => True
              | Some _, None => False
              | Some x, Some y => (x <= y)%Z
              end)
           taken.
Proof.
  intros w. exists (selectedAccounts w). split; [|split].
  - unfold watchAllEmails, prisma_emailAccount_findMany.
    unfold st_bind at 1. unfold st_bind at 1. unfold emit at 1. cbn [accounts trace].
    fold (selectedAccounts w).
    unfold st_bind at 1. unfold emit at 1. cbn [accounts trace].
    destruct (watchLoop_run (selectedAccounts w)
                (mkWorld (accounts w)
                   ((trace w ++ [FindMany]) ++ [Info "Watching email accounts" EmptyString])))
      as (w' & Hloop & _).
    pose proof (watchLoop_visits (selectedAccounts w)
                  (mkWorld (accounts w)
                     ((trace w ++ [FindMany])
                      ++ [Info "Watching email accounts" EmptyString]))) as Hvisits.
    rewrite Hloop in Hvisits. cbn [snd trace] in Hvisits.
    unfold st_bind. rewrite Hloop. cbn [snd st_ret]. rewrite Hvisits.
    rewrite !visited_app. cbn. now rewrite !app_nil_r.
  - unfold selectedAccounts. apply sortByExpiration_permutation.
  - pose proof (sortByExpiration_sorted
                  (filter (fun ea => premiumActive (w_premium ea)) (accounts w))) as Hsorted.
    fold (selectedAccounts w) in Hsorted.
    induction Hsorted as [|a l Hl IH Hall]; constructor; [exact IH|].
    eapply Forall_impl; [|exact Hall].
    intros b Hab. unfold beforeOrEqual, expirationLe in Hab.
    destruct (w_watchEmailsExpirationDate a), (w_watchEmailsExpirationDate b);
      try exact I; try discriminate.
    now apply Z.leb_le.
Qed.

(** X28. The cron route runs [watchAllEmails] only for a request with
    the cron secret, and [GET] and [POST] answer alike: without the secret the
    answer is [Unauthorized] with status 401, the exception is captured, and
    neither the store nor a Gmail client is touched; with it the answer is
    the success of [watchAllEmails], whatever happened to single accounts. *)
Theorem cron_guard_before_watchAllEmails :
  forall (authorized : bool) (w : World),
    exists resp w',
      GET authorized w = (Ok resp, w')
      /\ POST authorized w = (Ok resp, w')
      /\ (if authorized
          then resp = JsonResponse (NextResponse_json (BodySuccess true) 200)
               /\ clientRequests (trace w')
                  = clientRequests (trace w)
                    ++ map w_id (filter watchable (selectedAccounts w))
          else resp = TextResponse "Unauthorized" 401
               /\ accounts w' = accounts w
               /\ trace w'
                  = trace w
                    ++ [CaptureException "Unauthorized cron request: api/google/watch/all"]).
Proof.
  intros [|] w; unfold GET, POST; cbn [negb].
  - destruct (watchAllEmails_run w) as (w' & Hrun & Hc & _).
    exists (JsonResponse (NextResponse_json (BodySuccess true) 200)), w'. auto.
  - do 2 eexists. split; [reflexivity|]. split; [reflexivity|]. repeat split.
Qed.

End Facts.

(** Seven accounts: one without premium is left out; the others are taken
    by expiration, the one without a date first.  The revoked grant and the
    rejected watch are logged, and the accounts after them are still
    watched. *)
Example scenario_watch_all :
  let run := @watchAllEmails watchCollaborators watchDemoCollaborators watchDemoWorld in
  fst run = Ok (JsonResponse (NextResponse_json (BodySuccess true) 200))
  /\ map w_id (@selectedAccounts watchCollaborators watchDemoWorld)
     = ["acc-new"; "acc-lapsed"; "acc-broken"; "acc-tokenless"; "acc-revoked"; "acc-due"]
  /\ clientRequests (trace (snd run)) = ["acc-new"; "acc-broken"; "acc-revoked"; "acc-due"]
  /\ watchCalls (trace (snd run)) = ["acc-new"; "acc-broken"; "acc-due"]
  /\ clearedEmails (trace (snd run)) = ["lapsed@example.com"]
  /\ filter (fun ev => match ev with Warn _ _ | Error _ _ => true | _ => false end)
       (trace (snd run))
     = [Error "Error for user" "broken@example.com";
        Warn "Not watching emails for user" "revoked@example.com"].
Proof. vm_compute. repeat split. Qed.

End WatchAllFacts.

(** * api/google/linking/callback *)

Module LinkingFacts.
Import Linking.

Section Facts.
Context {LC : LinkCollaborators}.

Lemma exchangedCodes_app (a b : list Event) :
  exchangedCodes (a ++ b) = exchangedCodes a ++ exchangedCodes b.
Proof. apply flat_map_app. Qed.

Lemma lookups_app (a b : list Event) :
  lookups (a ++ b) = lookups a ++ lookups b.
Proof. apply flat_map_app. Qed.

Ltac run_link :=
  unfold prisma_account_findUnique, prisma_transaction;
  unfold st_try, st_bind, st_ret, st_await, st_throw, emit;
  cbn [fst snd trace store].

Ltac codes :=
  cbn [trace store]; rewrite ?exchangedCodes_app, ?lookups_app;
  cbn [exchangedCodes lookups flat_map app];
  rewrite ?app_nil_r, <- ?app_assoc; cbn [app]; auto.

(** The ways through the [try] block: it throws or answers an error with
    the store as it was, or it answers the merge. *)
Lemma exchangeAndMerge_run (code : string) (targetUserId : UserIdValue) (w : World) :
  exists out w',
    exchangeAndMerge code targetUserId w = (out, w')
    /\ exchangedCodes (trace w') = exchangedCodes (trace w) ++ [code]
    /\ match out with
       | Throw _ => store w' = store w
       | Ok r =>
           pathname r = "/accounts" /\ deletesStateCookie r = true
           /\ ((exists c, searchParams r = [("error", c)] /\ store w' = store w)
               \/ searchParams r = [("success", "account_merged")])
       end.
Proof.
  unfold exchangeAndMerge. run_link.
  destruct (getToken code) as [id_token|e].
  2:{ do 2 eexists. split; [reflexivity|]. split; [codes|reflexivity]. }
  destruct (truthy id_token); cbn [negb].
  2:{ do 2 eexists. split; [reflexivity|]. split; [codes|reflexivity]. }
  destruct (verifyIdToken (orEmpty id_token)) as [[payload|]|e].
  2,3:(do 2 eexists; split; [reflexivity|]; split; [codes|reflexivity]).
  destruct (truthy (sub payload)); cbn [negb orb].
  2:{ do 2 eexists. split; [reflexivity|]. split; [codes|reflexivity]. }
  destruct (truthy (email payload)); cbn [negb orb].
  2:{ do 2 eexists. split; [reflexivity|]. split; [codes|reflexivity]. }
  cbn [fst snd trace store].
  destruct (find _ (accounts (store w))) as [a|].
  2:{ do 2 eexists. split; [reflexivity|]. split; [codes|].
      repeat split. left. eexists. split; reflexivity. }
  destruct (find _ (users (store w))) as [u|].
  2:{ do 2 eexists. split; [reflexivity|]. split; [codes|reflexivity]. }
  cbn [ex_userId ex_id ex_user_name ex_user_email].
  destruct (sameUser (a_userId a) targetUserId); cbn [fst snd trace store].
  { do 2 eexists. split; [reflexivity|]. split; [codes|].
    repeat split. left. eexists. split; reflexivity. }
  destruct (runOperations _ (store w)) as [s'|e].
  - do 2 eexists. split; [reflexivity|]. split; [codes|].
    repeat split. right. reflexivity.
  - do 2 eexists. split; [reflexivity|]. split; [codes|reflexivity].
Qed.

(** The ways through the handler: it rejects on a state that decodes to
    [null], and redirects otherwise. *)
Lemma GET_run (request : Request) (w : World) :
  if stateIsNull request
  then GET request w
       = (Throw "Cannot destructure property 'userId' of 'decodedState' as it is null.", w)
       /\ stateAccepted request = false
  else
    exists r w',
      GET request w = (Ok r, w')
      /\ pathname r = "/accounts" /\ deletesStateCookie r = true
      /\ exchangedCodes (trace w')
         = exchangedCodes (trace w)
           ++ (if stateAccepted request then [orEmpty (code request)] else [])
      /\ ((exists c, getParam "error" (searchParams r) = Some c
                     /\ getParam "success" (searchParams r) = None
                     /\ store w' = store w)
          \/ (getParam "error" (searchParams r) = None
              /\ getParam "success" (searchParams r) = Some "account_merged"
              /\ stateAccepted request = true)).
Proof.
  unfold GET, stateAccepted, stateIsNull.
  destruct (truthy (storedState request)); cbn [negb orb andb].
  2:{ run_link. do 2 eexists. split; [reflexivity|]. repeat split; [codes|].
      left. eexists. repeat split. }
  destruct (truthy (receivedState request)); cbn [negb orb andb].
  2:{ run_link. do 2 eexists. split; [reflexivity|]. repeat split; [codes|].
      left. eexists. repeat split. }
  destruct (orEmpty (storedState request) =? orEmpty (receivedState request));
    cbn [negb orb andb].
  2:{ run_link. do 2 eexists. split; [reflexivity|]. repeat split; [codes|].
      left. eexists. repeat split. }
  destruct (decodeState _) as [[|targetUserId]|e]; cbn [negb orb andb].
  - split; reflexivity.
  - destruct (truthy (code request)); cbn [negb orb andb].
    2:{ run_link. do 2 eexists. split; [reflexivity|]. repeat split; [codes|].
        left. eexists. repeat split. }
    destruct (exchangeAndMerge_run (orEmpty (code request)) targetUserId w)
      as (out & w1 & Hrun & Hcodes & Hout).
    unfold st_try. rewrite Hrun. destruct out as [r|message].
    + destruct Hout as (Hpath & Hcookie & Hparams).
      do 2 eexists. split; [reflexivity|]. repeat split; auto.
      destruct Hparams as [(c & Hparams & Hstore)|Hparams]; rewrite Hparams.
      * left. exists c. repeat split. exact Hstore.
      * right. repeat split.
    + run_link. do 2 eexists. split; [reflexivity|]. repeat split.
      * codes.
      * left. eexists. repeat split. exact Hout.
  - run_link. do 2 eexists. split; [reflexivity|]. repeat split; [codes|].
    left. eexists. repeat split.
Qed.

(** X21. The handler rejects in one case only: the state of the cookie
    and of the query are there and equal and the state decodes to [null], so
    that taking its [userId] throws outside every [try]; the world is then as
    it was.  In every other case, whatever Google or the store answers, it
    redirects to [/accounts] with the linking state cookie deleted, and the
    redirect carries either an [error] code and no [success], or
    [success=account_merged] and no [error]. *)
Theorem GET_redirects_without_state_cookie_unless_null_state :
  forall (request : Request) (w : World),
    if stateIsNull request
    then exists e, GET request w = (Throw e, w)
    else
      exists r w',
        GET request w = (Ok r, w')
        /\ pathname r = "/accounts"
        /\ deletesStateCookie r = true
        /\ ((exists c, getParam "error" (searchParams r) = Some c
                       /\ getParam "success" (searchParams r) = None)
            \/ (getParam "error" (searchParams r) = None
                /\ getParam "success" (searchParams r) = Some "account_merged")).
Proof.
  intros request w. pose proof (GET_run request w) as Hrun.
  destruct (stateIsNull request).
  - destruct Hrun as [Hrun _]. eexists. exact Hrun.
  - destruct Hrun as (r & w' & Hrun & Hpath & Hcookie & _ & Hverdict).
    exists r, w'. repeat split; auto.
    destruct Hverdict as [(c & He & Hs & _)|(He & Hs & _)]; [left; exists c|right]; auto.
Qed.

(** X22. The code is handed to Google exactly when the request passes the
    checks before it (the state of the cookie and of the query are there and
    equal, the state decodes, there is a code), and then once; a request that
    does not pass them reaches neither Google nor the store. *)
Theorem GET_exchanges_code_only_after_state_check :
  forall (request : Request) (w : World),
    exchangedCodes (trace (snd (GET request w)))
    = exchangedCodes (trace w)
      ++ (if stateAccepted request then [orEmpty (code request)] else [])
    /\ (if stateAccepted request then True
        else lookups (trace (snd (GET request w))) = lookups (trace w)
             /\ store (snd (GET request w)) = store w).
Proof.
  intros request w. split.
  - pose proof (GET_run request w) as Hrun. destruct (stateIsNull request).
    + destruct Hrun as [Hrun Hno]. rewrite Hrun, Hno. cbn [snd]. now rewrite app_nil_r.
    + destruct Hrun as (r & w' & Hrun & _ & _ & Hcodes & _).
      rewrite Hrun. exact Hcodes.
  - unfold GET, stateAccepted.
    destruct (truthy (storedState request)); cbn [negb orb andb];
      [|run_link; split; [codes|reflexivity]].
    destruct (truthy (receivedState request)); cbn [negb orb andb];
      [|run_link; split; [codes|reflexivity]].
    destruct (orEmpty (storedState request) =? orEmpty (receivedState request));
      cbn [negb orb andb]; [|run_link; split; [codes|reflexivity]].
    destruct (decodeState _) as [[|targetUserId]|e]; cbn [negb orb andb];
      [run_link; split; [codes|reflexivity]| |run_link; split; [codes|reflexivity]].
    destruct (truthy (code request)); cbn [negb orb andb];
      [exact I|run_link; split; [codes|reflexivity]].
Qed.

(** X23. The store changes only with a merge: when the redirect does not
    carry [success], the store is exactly as it was, also when one of the
    three writes of the transaction was rejected after the others went
    through. *)
Theorem GET_store_changes_only_on_merge :
  forall (request : Request) (w : World) (r : Redirect) (w' : World),
    GET request w = (Ok r, w') ->
    getParam "success" (searchParams r) = None ->
    store w' = store w.
Proof.
  intros request w r w' Hget Hnone.
  pose proof (GET_run request w) as Hrun. destruct (stateIsNull request).
  { destruct Hrun as [Hrun _]. rewrite Hrun in Hget. discriminate. }
  destruct Hrun as (r0 & w0 & Hrun & _ & _ & _ & Hverdict).
  rewrite Hrun in Hget. injection Hget as -> ->.
  destruct Hverdict as [(c & _ & _ & Hstore)|(_ & Hs & _)]; [exact Hstore|].
  rewrite Hs in Hnone. discriminate.
Qed.

(** X24. An ID token that does not verify always gives the code
    [invalid_id_token], whatever the message of the rejection, and also when
    the ticket verifies but has no payload; the description carries the
    message, and the store is neither read nor written. *)
Theorem GET_unverified_token_is_invalid_id_token :
  forall (request : Request) (w : World) (message : string),
    stateAccepted request = true ->
    verificationFails request = Some message ->
    exists w',
      GET request w
      = (Ok (NextResponse_redirect
               [("error", "invalid_id_token");
                ("error_description", ("ID token verification failed: " ++ message)%string)]
               true), w')
      /\ store w' = store w
      /\ lookups (trace w') = lookups (trace w).
Proof.
  intros request w message Hacc Hfail.
  unfold stateAccepted in Hacc. unfold GET.
  destruct (truthy (storedState request)); [|discriminate].
  destruct (truthy (receivedState request)); [|discriminate].
  destruct (orEmpty (storedState request) =? orEmpty (receivedState request));
    [|discriminate].
  destruct (decodeState _) as [[|targetUserId]|]; try discriminate.
  destruct (truthy (code request)); [|discriminate].
  cbn [negb orb]. unfold verificationFails in Hfail.
  unfold exchangeAndMerge. run_link.
  destruct (getToken (orEmpty (code request))) as [id_token|]; [|discriminate].
  destruct (truthy id_token); [|discriminate]. cbn [negb].
  destruct (verifyIdToken (orEmpty id_token)) as [[payload|]|e]; [discriminate| |];
    injection Hfail as <-;
    (eexists; split; [reflexivity|]; split; [reflexivity|codes]).
Qed.

End Facts.

(** The Google account of the second user is merged into the first. *)
Example scenario_link_merge :
  let run := @GET linkDemoCollaborators (linkRequest "code-g2") linkDemoWorld in
  fst run = Ok (NextResponse_redirect [("success", "account_merged")] true)
  /\ store (snd run)
     = mkStore [mkUserRow "u1" (Some "One") "one@example.com"]
         [mkAccountRow "a1" "u1" "google" "g-1"; mkAccountRow "a2" "u1" "google" "g-2"]
         [mkLinkedEmailAccountRow "a1" "u1" (Some "One") "one@example.com";
          mkLinkedEmailAccountRow "a2" "u1" (Some "Two") "two@example.com"].
Proof. vm_compute. split; reflexivity. Qed.

(** The codes of the [catch], on the answers of Google. *)
Example scenario_link_error_codes :
  let answer code :=
    getParam "error"
      (searchParams
         (match fst (@GET linkDemoCollaborators (linkRequest code) linkDemoWorld) with
          | Ok r => r
          | Throw _ => NextResponse_redirect [] false
          end)) in
  map answer ["code-forged"; "code-hollow"; "code-bare"; "code-expired"]
  = [Some "invalid_id_token"; Some "invalid_id_token"; Some "missing_id_token";
     Some "link_failed"].
Proof. vm_compute. reflexivity. Qed.

(** A state that decodes to [null] makes the handler reject; one that
    decodes to an object without [userId] does not. *)
Example scenario_link_null_state :
  fst (@GET linkDemoCollaborators
         (mkRequest (Some "code-g2") (Some "bnVsbA") (Some "bnVsbA")) linkDemoWorld)
  = Throw "Cannot destructure property 'userId' of 'decodedState' as it is null."
  /\ fst (@GET linkDemoCollaborators
            (mkRequest (Some "code-g2") (Some "e30") (Some "e30")) linkDemoWorld)
     = Ok (NextResponse_redirect [("success", "account_merged")] true).
Proof. vm_compute. split; reflexivity. Qed.

Lemma GET_store_changes_only_on_merge_witness :
  exists r w',
    @GET linkDemoCollaborators (linkRequest "code-g2") linkPartialWorld = (Ok r, w')
    /\ getParam "error" (searchParams r) = Some "link_failed"
    /\ store w' = store linkPartialWorld.
Proof.
  eexists. eexists. split; [vm_compute; reflexivity|]. split; [reflexivity|].
  eapply (@GET_store_changes_only_on_merge linkDemoCollaborators
            (linkRequest "code-g2") linkPartialWorld).
  - vm_compute. reflexivity.
  - reflexivity.
Defined.

Lemma GET_unverified_token_is_invalid_id_token_witness :
  exists w',
    @GET linkDemoCollaborators (linkRequest "code-forged") linkDemoWorld
    = (Ok (NextResponse_redirect
             [("error", "invalid_id_token");
              ("error_description",
               "ID token verification failed: Wrong recipient, payload audience != requiredAudience")]
             true), w')
    /\ store w' = store linkDemoWorld
    /\ lookups (trace w') = lookups (trace linkDemoWorld).
Proof.
  apply (@GET_unverified_token_is_invalid_id_token linkDemoCollaborators
           (linkRequest "code-forged") linkDemoWorld
           "Wrong recipient, payload audience != requiredAudience").
  - reflexivity.
  - reflexivity.
Defined.

End LinkingFacts.

(** * utils/account and actions/permissions *)

Module PermissionsFacts.
Import Permissions.

Section Facts.
Context {PC : PermissionCollaborators}.

Lemma permissions_clientRequests_app (a b : list Event) :
  clientRequests (a ++ b) = clientRequests a ++ clientRequests b.
Proof. apply flat_map_app. Qed.

Lemma permissionChecks_app (a b : list Event) :
  permissionChecks (a ++ b) = permissionChecks a ++ permissionChecks b.
Proof. apply flat_map_app. Qed.

Ltac run_action :=
  unfold getGmailAndAccessTokenForEmail, getTokens, prisma_emailAccount_findUnique,
    prisma_emailAccount_findUniqueByEmail;
  unfold st_try, st_bind, st_ret, st_await, st_throw, emit;
  cbn [fst snd trace db].

Ltac calls :=
  cbn [trace db]; rewrite ?permissions_clientRequests_app, ?permissionChecks_app;
  cbn [clientRequests permissionChecks flat_map app];
  rewrite ?app_nil_r, <- ?app_assoc; cbn [app]; auto.

(** The tokens [getTokens] gives are the columns the store has. *)
Lemma accountColumns_refreshToken (emailAccountId : string) (d : DB) (tokens : Tokens) :
  accountColumns (find (fun r => ea_id r =? emailAccountId) (emailAccounts d)) = Ok tokens ->
  refreshToken tokens = storedRefreshToken emailAccountId d.
Proof.
  unfold accountColumns, storedRefreshToken.
  destruct (find _ (emailAccounts d)) as [r|].
  - destruct (ea_account r) as [a|]; [|discriminate].
    intros H. injection H as <-. reflexivity.
  - intros H. injection H as <-. reflexivity.
Qed.

(** X25. [checkPermissionsAction] lets no failure through as it is: a
    missing access token, an error of the permissions check and anything
    thrown on the way all reach the caller as the one error [Failed to check
    permissions].  When it answers, the permissions were checked once, and
    the answer says whether there is a refresh token only when all
    permissions are there, and says it of the refresh token the store has. *)
Theorem checkPermissionsAction_masks_failures :
  forall (emailAccountId : string) (w : World),
    exists out w',
      checkPermissionsAction emailAccountId w = (out, w')
      /\ match out with
         | Throw e => e = "Failed to check permissions"
         | Ok res =>
             permissionChecks (trace w') = permissionChecks (trace w) ++ [emailAccountId]
             /\ ((hasAllPermissions res = false /\ hasRefreshToken res = None)
                 \/ (hasAllPermissions res = true
                     /\ hasRefreshToken res
                        = Some (truthy (storedRefreshToken emailAccountId (db w)))))
         end.
Proof.
  intros emailAccountId w. unfold checkPermissionsAction. run_action.
  destruct (accountColumns _) as [tokens|e] eqn:Hcolumns.
  2:{ do 2 eexists. split; reflexivity. }
  apply accountColumns_refreshToken in Hcolumns.
  cbn [fst snd trace db].
  destruct (getGmailClientWithRefresh _ _ _ _) as [gmail|e].
  2:{ do 2 eexists. split; reflexivity. }
  destruct (getAccessTokenFromClient gmail) as [token|e].
  2:{ do 2 eexists. split; reflexivity. }
  cbn [fst snd trace db].
  destruct (truthy token); cbn [negb].
  2:{ do 2 eexists. split; reflexivity. }
  destruct (handleGmailPermissionsCheck _ _) as [check|e].
  2:{ do 2 eexists. split; reflexivity. }
  destruct (truthy (pc_error check)).
  { do 2 eexists. split; reflexivity. }
  destruct (pc_hasAllPermissions check); cbn [negb].
  2:{ do 2 eexists. split; [reflexivity|]. split; [calls|]. left. split; reflexivity. }
  rewrite Hcolumns.
  destruct (truthy (storedRefreshToken emailAccountId (db w))); cbn [negb];
    (do 2 eexists; split; [reflexivity|]; split; [calls|]; right; split; reflexivity).
Qed.

(** X26. [adminCheckPermissionsAction] masks its failures in the same
    way, the unknown address included; for an address no email account has,
    no Gmail client is requested; and when it answers, the permissions of the
    account with that address were checked. *)
Theorem adminCheckPermissionsAction_masks_failures :
  forall (email : string) (w : World),
    exists out w',
      adminCheckPermissionsAction email w = (out, w')
      /\ match out with
         | Throw e => e = "Failed to check permissions"
         | Ok _ =>
             exists r, find (fun r => ea_email r =? email) (emailAccounts (db w)) = Some r
                       /\ permissionChecks (trace w')
                          = permissionChecks (trace w) ++ [ea_id r]
         end
      /\ match find (fun r => ea_email r =? email) (emailAccounts (db w)) with
         | Some _ => True
         | None => clientRequests (trace w') = clientRequests (trace w)
         end.
Proof.
  intros email w. unfold adminCheckPermissionsAction. run_action.
  destruct (find (fun r => ea_email r =? email) (emailAccounts (db w))) as [r|].
  2:{ do 2 eexists. split; [reflexivity|]. split; [reflexivity|calls]. }
  run_action.
  destruct (accountColumns _) as [tokens|e].
  2:{ do 2 eexists. split; [reflexivity|]. split; [reflexivity|exact I]. }
  cbn [fst snd trace db].
  destruct (getGmailClientWithRefresh _ _ _ _) as [gmail|e].
  2:{ do 2 eexists. split; [reflexivity|]. split; [reflexivity|exact I]. }
  destruct (getAccessTokenFromClient gmail) as [token|e].
  2:{ do 2 eexists. split; [reflexivity|]. split; [reflexivity|exact I]. }
  cbn [fst snd trace db].
  destruct (truthy token); cbn [negb].
  2:{ do 2 eexists. split; [reflexivity|]. split; [reflexivity|exact I]. }
  destruct (handleGmailPermissionsCheck _ _) as [check|e].
  2:{ do 2 eexists. split; [reflexivity|]. split; [reflexivity|exact I]. }
  destruct (truthy (pc_error check)).
  { do 2 eexists. split; [reflexivity|]. split; [reflexivity|exact I]. }
  do 2 eexists. split; [reflexivity|]. split; [|exact I].
  exists r. split; [reflexivity|calls].
Qed.

(** X27. [getGmailClientForEmailId] and [getGmailClientForEmail] are the
    same function: on every store they make the same query, hand the same
    tokens to the client, and end the same way. *)
Theorem getGmailClientForEmailId_is_getGmailClientForEmail :
  forall (emailAccountId : string) (w : World),
    getGmailClientForEmailId emailAccountId w = getGmailClientForEmail emailAccountId w.
Proof.
  intros emailAccountId w.
  unfold getGmailClientForEmailId, getGmailClientForEmail. run_action.
  destruct (accountColumns _) as [tokens|e]; reflexivity.
Qed.

End Facts.

(** An account with all permissions and a refresh token, one whose check
    reports an error, and one the store does not have. *)
Example scenario_check_permissions :
  fst (@checkPermissionsAction permissionDemoCollaborators "acc1" permissionDemoWorld)
  = Ok (mkCheckResult (Some true) true)
  /\ fst (@checkPermissionsAction permissionDemoCollaborators "acc2" permissionDemoWorld)
     = Throw "Failed to check permissions"
  /\ fst (@checkPermissionsAction permissionDemoCollaborators "acc9" permissionDemoWorld)
     = Throw "Failed to check permissions"
  /\ fst (@adminCheckPermissionsAction permissionDemoCollaborators "me@example.com"
            permissionDemoWorld)
     = Ok true
  /\ clientRequests
       (trace (snd (@adminCheckPermissionsAction permissionDemoCollaborators
                      "nobody@example.com" permissionDemoWorld)))
     = [].
Proof. vm_compute. repeat split. Qed.

End PermissionsFacts.
